(** * Washington law store: ingestion and retrieval

    A shallow embedding of the SQLite-backed document store
    ([src/database/init.ts], [add-court-rules], [database.ts]), of the
    scrapers' discovery / normalisation / extraction steps and of the
    tool-call handler, followed by the properties established of them.

    Part I holds the definitions, one module per source component.
    Part II holds the lemmas and theorems. *)

From Stdlib Require Import List Bool ZArith Lia String Ascii QArith Qabs Lqa.
From Stdlib Require Import Sorting.Sorted Permutation.
From Stdlib Require Import Numbers.DecimalString.
Import ListNotations.

Set Implicit Arguments.

(* ================================================================== *)
(** * Part I. The embedding *)
(* ================================================================== *)

(** ** The storage engine: a table with its FTS5 companion

    Every primary table of the schema has the same shape: an
    [id INTEGER PRIMARY KEY AUTOINCREMENT], one UNIQUE natural key, and an
    external-content FTS5 table fed by three triggers.  The shape is
    captured once by [Schema]; [rcw], [wac] and [court_rules] are its
    instances. *)
Module Sqlite.

Class Schema := {
  cols : Type;                       (* the columns other than [id] *)
  key : Type;                        (* the UNIQUE constraint's columns *)
  unique_key : cols -> key;
  key_eqb : key -> key -> bool;
  key_eqb_spec : forall a b, reflect (a = b) (key_eqb a b);
  doc : Type;                        (* the columns of the FTS5 table *)
  fts_cols : cols -> doc             (* VALUES (new.<col>, ...) of the triggers *)
}.

Section Engine.
Context {S : Schema}.

Record row := { id : Z; fields : cols }.

Record fts_row := { rowid : Z; document : doc }.

(** A table, its index, and the [sqlite_sequence] entry that
    AUTOINCREMENT keeps for it. *)
Record table := {
  rows : list row;
  fts : list fts_row;
  sqlite_sequence : Z
}.

Definition empty_table : table :=
  {| rows := []; fts := []; sqlite_sequence := 0 |}.

(** [CREATE TRIGGER <t>_ai AFTER INSERT ON <t> BEGIN
      INSERT INTO <t>_fts(rowid, ...) VALUES (new.id, ...); END] *)
Definition trigger_ai (new : row) (ix : list fts_row) : list fts_row :=
  ix ++ [ {| rowid := id new; document := fts_cols (fields new) |} ].

(** [CREATE TRIGGER <t>_ad AFTER DELETE ON <t> BEGIN
      DELETE FROM <t>_fts WHERE rowid = old.id; END] *)
Definition trigger_ad (old : row) (ix : list fts_row) : list fts_row :=
  filter (fun i => negb (rowid i =? id old)%Z) ix.

(** [CREATE TRIGGER <t>_au AFTER UPDATE ON <t> BEGIN
      DELETE FROM <t>_fts WHERE rowid = old.id;
      INSERT INTO <t>_fts(rowid, ...) VALUES (new.id, ...); END].
    No statement of the repository issues an UPDATE on a primary table,
    so this trigger never runs; it is kept for the schema's sake. *)
Definition trigger_au (old new : row) (ix : list fts_row) : list fts_row :=
  trigger_ai new (trigger_ad old ix).

(** The per-connection settings that bear on trigger execution.
    [recursive_triggers] is SQLite's pragma of that name. *)
Record connection := { recursive_triggers : bool }.

(** What [new Database(DB_PATH)] yields: the scrapers set no pragma, and
    [initializeDatabase] sets only [foreign_keys] and [journal_mode];
    SQLite's default for [recursive_triggers] is OFF. *)
Definition default_connection : connection :=
  {| recursive_triggers := false |}.

Definition max_rowid (rs : list row) : Z :=
  fold_right Z.max 0%Z (map id rs).

(** AUTOINCREMENT: one more than the largest rowid that ever existed. *)
Definition next_rowid (t : table) : Z :=
  (Z.max (sqlite_sequence t) (max_rowid (rows t)) + 1)%Z.

Definition conflicts (c : cols) (r : row) : bool :=
  key_eqb (unique_key (fields r)) (unique_key c).

(** [INSERT OR REPLACE INTO <t> (...) VALUES (...)], one statement, hence
    one transition of the store (SQLite runs a statement and the
    triggers it fires inside one implicit transaction).

    REPLACE conflict resolution first deletes the rows that violate the
    UNIQUE constraint, then inserts the new row under a fresh rowid.
    For the rows REPLACE deletes, SQLite fires the delete triggers if
    and only if recursive triggers are enabled on the connection; the
    AFTER INSERT trigger fires always.  [surviving_index] is the index
    once the conflicting rows are gone. *)
Definition surviving_index (cn : connection) (c : cols) (t : table) : list fts_row :=
  let victims := filter (conflicts c) (rows t) in
  if recursive_triggers cn
  then fold_left (fun ix old => trigger_ad old ix) victims (fts t)
  else fts t.

Definition insert_or_replace (cn : connection) (c : cols) (t : table) : table :=
  let new := {| id := next_rowid t; fields := c |} in
  {| rows := filter (fun r => negb (conflicts c r)) (rows t) ++ [new];
     fts := trigger_ai new (surviving_index cn c t);
     sqlite_sequence := id new |}.

(** The scrapers' write path: [this.insertStmt.run(...)] on a connection
    opened with the defaults. *)
Definition upsert (c : cols) (t : table) : table :=
  insert_or_replace default_connection c t.

(** The stores the scrapers can produce: the tables start empty
    ([CREATE TABLE IF NOT EXISTS]) and change by upserts only. *)
Inductive reachable : table -> Prop :=
| reachable_empty : reachable empty_table
| reachable_upsert (c : cols) (t : table) :
    reachable t -> reachable (upsert c t).

(** *** The index invariant, as executable checks *)

Definition rows_with_key (k : key) (t : table) : list row :=
  filter (fun r => key_eqb (unique_key (fields r)) k) (rows t).

Definition fts_with_rowid (i : Z) (t : table) : list fts_row :=
  filter (fun x => (rowid x =? i)%Z) (fts t).

(** Every live primary row has exactly one index row of its rowid. *)
Definition every_row_indexed (t : table) : bool :=
  forallb (fun r => (List.length (fts_with_rowid (id r) t) =? 1)%nat) (rows t).

(** Every index row has a live primary row of its rowid. *)
Definition every_index_row_live (t : table) : bool :=
  forallb (fun x => existsb (fun r => (id r =? rowid x)%Z) (rows t)) (fts t).

Definition in_sync (t : table) : bool :=
  every_row_indexed t && every_index_row_live t.

(** Index rows with no primary row behind them. *)
Definition stale (t : table) : list fts_row :=
  filter (fun x => negb (existsb (fun r => (id r =? rowid x)%Z) (rows t))) (fts t).

(** The inner join [<t>_fts JOIN <t> r ON <t>_fts.rowid = r.id]. *)
Definition join (ix : list fts_row) (rs : list row) : list (fts_row * row) :=
  flat_map (fun x => map (pair x) (filter (fun r => (id r =? rowid x)%Z) rs)) ix.

(** Well-formedness kept by every write: rowids are unique and never
    exceed what AUTOINCREMENT has handed out, the UNIQUE constraint
    holds, and the index holds at most one row per rowid. *)
Record wf (t : table) : Prop := {
  wf_ids : NoDup (map id (rows t));
  wf_keys : NoDup (map (fun r => unique_key (fields r)) (rows t));
  wf_seq : Forall (fun r => (0 < id r <= sqlite_sequence t)%Z) (rows t);
  wf_fts_seq : Forall (fun x => (0 < rowid x <= sqlite_sequence t)%Z) (fts t);
  wf_fts_ids : NoDup (map rowid (fts t));
  wf_seq_nonneg : (0 <= sqlite_sequence t)%Z
}.

(** The index row of a primary row is built from that row's columns. *)
Definition index_matches (t : table) : Prop :=
  forall r, In r (rows t) ->
    In {| rowid := id r; document := fts_cols (fields r) |} (fts t).

Definition index_live (t : table) : Prop :=
  forall x, In x (fts t) -> exists r, In r (rows t) /\ id r = rowid x.

End Engine.

End Sqlite.

(** ** Values and helpers shared by the SQL and JavaScript sides *)
Module Lang.

Open Scope string_scope.

Definition nl : string := String (ascii_of_nat 10) EmptyString.
Definition dquote : string := String (ascii_of_nat 34) EmptyString.

(** JavaScript truthiness of a [string | null | undefined] value. *)
Definition truthy (o : option string) : bool :=
  match o with
  | Some s => negb (s =? EmptyString)
  | None => false
  end.

(** [x || dflt] on such a value. *)
Definition or_else (o : option string) (dflt : string) : string :=
  match o with
  | Some s => if s =? EmptyString then dflt else s
  | None => dflt
  end.

(** Template interpolation [${x}] of a [string | null | undefined]. *)
Definition show (o : option string) (absent : string) : string :=
  match o with Some s => s | None => absent end.

(** [s.includes(sub)]. *)
Definition includes (sub s : string) : bool :=
  match index 0 sub s with Some _ => true | None => false end.

(** Decimal rendering of an integer, as [String(n)] / [${n}] print it. *)
Definition Z_to_string (z : Z) : string :=
  NilZero.string_of_int (Z.to_int z).

(** A stable sort: [x] goes before the first [y] with [le x y].  With
    [le a b := cmp(a, b) <= 0] this is the result of
    [Array.prototype.sort(cmp)] (stable since ES2019) for a consistent
    comparator, and of an SQL [ORDER BY] that keeps scan order among
    equal keys. *)
Section Sort.
Variable A : Type.
Variable le : A -> A -> bool.

Fixpoint insert (x : A) (l : list A) : list A :=
  match l with
  | [] => [x]
  | y :: l' => if le x y then x :: y :: l' else y :: insert x l'
  end.

Definition sort (l : list A) : list A := fold_right insert [] l.
End Sort.

(** SQL [LIMIT n]: a negative [n] means no upper bound. *)
Definition sql_limit (A : Type) (n : Z) (l : list A) : list A :=
  if (n <? 0)%Z then l else firstn (Z.to_nat n) l.

(** [arr.slice(0, e)] for an integral [e]: a negative [e] counts from the
    end of the array. *)
Definition slice0 (A : Type) (e : Z) (l : list A) : list A :=
  if (e <? 0)%Z
  then firstn (Z.to_nat (Z.max (Z.of_nat (List.length l) + e) 0)) l
  else firstn (Z.to_nat e) l.

(** [s.substring(i)] for an integral [0 <= i]: [s] without its first [i]
    characters. *)
Fixpoint drop (n : nat) (s : string) : string :=
  match n, s with
  | O, _ => s
  | S n', String _ s' => drop n' s'
  | S _, EmptyString => EmptyString
  end.

Definition substring_from (i : Z) (s : string) : string :=
  drop (Z.to_nat i) s.

(** [arr.find(p)]. *)
Definition find_first (A : Type) (p : A -> bool) (l : list A) : option A :=
  List.find p l.

(** Characters. *)
Definition is_digit (c : ascii) : bool :=
  let n := nat_of_ascii c in (48 <=? n)%nat && (n <=? 57)%nat.

Definition is_alpha (c : ascii) : bool :=
  let n := nat_of_ascii c in
  ((65 <=? n)%nat && (n <=? 90)%nat) || ((97 <=? n)%nat && (n <=? 122)%nat).

(** The ASCII members of the regular-expression class [\s]. *)
Definition is_space (c : ascii) : bool :=
  let n := nat_of_ascii c in
  ((9 <=? n)%nat && (n <=? 13)%nat) || (n =? 32)%nat.

Definition to_lower (c : ascii) : ascii :=
  let n := nat_of_ascii c in
  if (65 <=? n)%nat && (n <=? 90)%nat then ascii_of_nat (n + 32) else c.

(** Equality of characters under the [i] flag. *)
Definition eqb_ci (a b : ascii) : bool :=
  Ascii.eqb (to_lower a) (to_lower b).

Definition digit_value (c : ascii) : Z :=
  Z.of_nat (nat_of_ascii c - 48).

(** The value of a run of decimal digits, most significant first. *)
Definition digits_value (ds : list ascii) : Z :=
  fold_left (fun acc c => (10 * acc + digit_value c)%Z) ds 0%Z.

Fixpoint span (p : ascii -> bool) (s : string) : list ascii * string :=
  match s with
  | EmptyString => ([], EmptyString)
  | String c s' =>
      if p c then let (run, rest) := span p s' in (c :: run, rest)
      else ([], s)
  end.

(** [parseInt(s)] for the strings the scrapers pass it, which a [(\d+)]
    capture group has produced: the value of the leading digit run (an
    empty run, which [\d+] never captures, is NaN in JavaScript and is
    given 0 here). *)
Definition parseInt (s : string) : Z :=
  digits_value (fst (span is_digit s)).

End Lang.

(** ** The schema of [initializeDatabase] and [addCourtRulesTables] *)
Module Schema.

Import Sqlite.

(** [CREATE TABLE rcw (...)]; nullable TEXT columns are options,
    DATETIME columns hold the text CURRENT_TIMESTAMP yields. *)
Module Rcw.
Record cols := {
  citation : string;
  title_num : string;
  chapter_num : string;
  section_num : string;
  title_name : option string;
  chapter_name : option string;
  section_name : option string;
  full_text : string;
  effective_date : option string;
  last_amended : option string;
  created_at : string;
  updated_at : string
}.

(** [rcw_fts(citation, title_name, chapter_name, section_name, full_text)] *)
Record doc := {
  d_citation : string;
  d_title_name : option string;
  d_chapter_name : option string;
  d_section_name : option string;
  d_full_text : string
}.

Definition fts_cols (c : cols) : doc :=
  {| d_citation := citation c;
     d_title_name := title_name c;
     d_chapter_name := chapter_name c;
     d_section_name := section_name c;
     d_full_text := full_text c |}.
End Rcw.

(** [CREATE TABLE wac (...)]: as [rcw] without [last_amended]. *)
Module Wac.
Record cols := {
  citation : string;
  title_num : string;
  chapter_num : string;
  section_num : string;
  title_name : option string;
  chapter_name : option string;
  section_name : option string;
  full_text : string;
  effective_date : option string;
  created_at : string;
  updated_at : string
}.

Record doc := {
  d_citation : string;
  d_title_name : option string;
  d_chapter_name : option string;
  d_section_name : option string;
  d_full_text : string
}.

Definition fts_cols (c : cols) : doc :=
  {| d_citation := citation c;
     d_title_name := title_name c;
     d_chapter_name := chapter_name c;
     d_section_name := section_name c;
     d_full_text := full_text c |}.
End Wac.

(** [CREATE TABLE court_rules (..., UNIQUE(rule_set, rule_number))] *)
Module CourtRules.
Record cols := {
  rule_set : string;
  rule_number : string;
  rule_name : option string;
  full_text : string;
  effective_date : option string;
  created_at : string;
  updated_at : string
}.

(** [court_rules_fts(rule_set, rule_number, rule_name, full_text)] *)
Record doc := {
  d_rule_set : string;
  d_rule_number : string;
  d_rule_name : option string;
  d_full_text : string
}.

Definition fts_cols (c : cols) : doc :=
  {| d_rule_set := rule_set c;
     d_rule_number := rule_number c;
     d_rule_name := rule_name c;
     d_full_text := full_text c |}.

Definition unique_key (c : cols) : string * string :=
  (rule_set c, rule_number c).

Definition key_eqb (a b : string * string) : bool :=
  String.eqb (fst a) (fst b) && String.eqb (snd a) (snd b).

Definition key_eqb_spec (a b : string * string) :
  reflect (a = b) (key_eqb a b).
Proof.
  destruct a as [a1 a2], b as [b1 b2]; unfold key_eqb; simpl.
  destruct (String.eqb_spec a1 b1) as [-> | n1]; simpl.
  - destruct (String.eqb_spec a2 b2) as [-> | n2]; constructor; congruence.
  - constructor; congruence.
Defined.
End CourtRules.

#[export] Instance rcw : Schema :=
  {| cols := Rcw.cols;
     key := string;
     unique_key := Rcw.citation;
     key_eqb := String.eqb;
     key_eqb_spec := String.eqb_spec;
     doc := Rcw.doc;
     fts_cols := Rcw.fts_cols |}.

#[export] Instance wac : Schema :=
  {| cols := Wac.cols;
     key := string;
     unique_key := Wac.citation;
     key_eqb := String.eqb;
     key_eqb_spec := String.eqb_spec;
     doc := Wac.doc;
     fts_cols := Wac.fts_cols |}.

#[export] Instance court_rules : Schema :=
  {| cols := CourtRules.cols;
     key := string * string;
     unique_key := CourtRules.unique_key;
     key_eqb := CourtRules.key_eqb;
     key_eqb_spec := CourtRules.key_eqb_spec;
     doc := CourtRules.doc;
     fts_cols := CourtRules.fts_cols |}.

(** The triggers under the names the schema gives them. *)
Definition rcw_ai := trigger_ai (S := rcw).
Definition rcw_ad := trigger_ad (S := rcw).
Definition rcw_au := trigger_au (S := rcw).
Definition wac_ai := trigger_ai (S := wac).
Definition wac_ad := trigger_ad (S := wac).
Definition wac_au := trigger_au (S := wac).
Definition court_rules_ai := trigger_ai (S := court_rules).
Definition court_rules_ad := trigger_ad (S := court_rules).
Definition court_rules_au := trigger_au (S := court_rules).

Definition rcw_row := row (S := rcw).
Definition wac_row := row (S := wac).
Definition court_rules_row := row (S := court_rules).

(** The whole store file. The court-rule tables are created by a separate
    script and may be missing from an older database. *)
Record database := {
  rcw_table : table (S := rcw);
  wac_table : table (S := wac);
  court_rules_table : option (table (S := court_rules));
  metadata : list (string * string)
}.

End Schema.

(** ** The write statements of the scrapers *)
Module Writer.

Import Sqlite Schema.

(** [CourtRulesScraper], [RALJScraper], [RPCScraper] and
    [CourtRulesPDFScraperV2] all prepare the same statement:
    [INSERT OR REPLACE INTO court_rules
       (rule_set, rule_number, rule_name, full_text, updated_at)
     VALUES (?, ?, ?, ?, CURRENT_TIMESTAMP)].
    [now] is the value of CURRENT_TIMESTAMP; the columns left out take
    their defaults. *)
Definition court_rule_insertStmt (now : string)
    (ruleSet ruleNumber ruleName fullText : string)
    (t : table (S := court_rules)) : table (S := court_rules) :=
  upsert (S := court_rules)
    {| CourtRules.rule_set := ruleSet;
       CourtRules.rule_number := ruleNumber;
       CourtRules.rule_name := Some ruleName;
       CourtRules.full_text := fullText;
       CourtRules.effective_date := None;
       CourtRules.created_at := now;
       CourtRules.updated_at := now |} t.

(** [RCWScraper.insertStmt]:
    [INSERT OR REPLACE INTO rcw (citation, title_num, chapter_num,
       section_num, title_name, chapter_name, section_name, full_text,
       effective_date, last_amended, updated_at)
     VALUES (?, ?, ?, ?, ?, ?, ?, ?, ?, ?, CURRENT_TIMESTAMP)]. *)
Definition rcw_insertStmt (now : string)
    (citation titleNum chapterNum sectionNum : string)
    (titleName chapterName sectionName fullText : string)
    (effectiveDate lastAmended : option string)
    (t : table (S := rcw)) : table (S := rcw) :=
  upsert (S := rcw)
    {| Rcw.citation := citation;
       Rcw.title_num := titleNum;
       Rcw.chapter_num := chapterNum;
       Rcw.section_num := sectionNum;
       Rcw.title_name := Some titleName;
       Rcw.chapter_name := Some chapterName;
       Rcw.section_name := Some sectionName;
       Rcw.full_text := fullText;
       Rcw.effective_date := effectiveDate;
       Rcw.last_amended := lastAmended;
       Rcw.created_at := now;
       Rcw.updated_at := now |} t.

(** The rows of each side that carry a given rule's identity. *)
Definition primary_rows_for (ruleSet ruleNumber : string)
    (t : table (S := court_rules)) : list court_rules_row :=
  rows_with_key (S := court_rules) (ruleSet, ruleNumber) t.

Definition index_rows_for (ruleSet ruleNumber : string)
    (t : table (S := court_rules)) : list (fts_row (S := court_rules)) :=
  filter (fun x : fts_row (S := court_rules) =>
            String.eqb (CourtRules.d_rule_set (document x)) ruleSet
            && String.eqb (CourtRules.d_rule_number (document x)) ruleNumber)
         (fts t).

End Writer.

(** ** The read side: [class LawDatabase] *)
Module LawDatabase.

Import Sqlite Schema Lang.
Open Scope string_scope.

(** *** Exact lookups *)

Record RCWSection := {
  rcw_citation : string;
  rcw_titleNum : string;
  rcw_chapterNum : string;
  rcw_sectionNum : string;
  rcw_titleName : option string;
  rcw_chapterName : option string;
  rcw_sectionName : option string;
  rcw_fullText : string;
  rcw_effectiveDate : option string;
  rcw_lastAmended : option string
}.

Record WACSection := {
  wac_citation : string;
  wac_titleNum : string;
  wac_chapterNum : string;
  wac_sectionNum : string;
  wac_titleName : option string;
  wac_chapterName : option string;
  wac_sectionName : option string;
  wac_fullText : string;
  wac_effectiveDate : option string
}.

Record CourtRule := {
  ruleSet : string;
  ruleNumber : string;
  ruleName : option string;
  fullText : string;
  updatedAt : string
}.

Definition getRCW (t : table (S := rcw)) (citation : string) : option RCWSection :=
  option_map
    (fun r : rcw_row => let c := fields r in
       {| rcw_citation := Rcw.citation c;
          rcw_titleNum := Rcw.title_num c;
          rcw_chapterNum := Rcw.chapter_num c;
          rcw_sectionNum := Rcw.section_num c;
          rcw_titleName := Rcw.title_name c;
          rcw_chapterName := Rcw.chapter_name c;
          rcw_sectionName := Rcw.section_name c;
          rcw_fullText := Rcw.full_text c;
          rcw_effectiveDate := Rcw.effective_date c;
          rcw_lastAmended := Rcw.last_amended c |})
    (find (fun r : rcw_row => Rcw.citation (fields r) =? citation) (rows t)).

Definition getWAC (t : table (S := wac)) (citation : string) : option WACSection :=
  option_map
    (fun r : wac_row => let c := fields r in
       {| wac_citation := Wac.citation c;
          wac_titleNum := Wac.title_num c;
          wac_chapterNum := Wac.chapter_num c;
          wac_sectionNum := Wac.section_num c;
          wac_titleName := Wac.title_name c;
          wac_chapterName := Wac.chapter_name c;
          wac_sectionName := Wac.section_name c;
          wac_fullText := Wac.full_text c;
          wac_effectiveDate := Wac.effective_date c |})
    (find (fun r : wac_row => Wac.citation (fields r) =? citation) (rows t)).

(** [stmt.get(ruleSet, ruleNumber)] of [getCourtRule]:
    [SELECT ... FROM court_rules WHERE rule_set = ? AND rule_number = ?],
    first row or [undefined]. *)
Definition court_rule_get (t : table (S := court_rules))
    (rs rn : string) : option CourtRule :=
  option_map
    (fun r : court_rules_row => let c := fields r in
       {| ruleSet := CourtRules.rule_set c;
          ruleNumber := CourtRules.rule_number c;
          ruleName := CourtRules.rule_name c;
          fullText := CourtRules.full_text c;
          updatedAt := CourtRules.updated_at c |})
    (find (fun r : court_rules_row => (CourtRules.rule_set (fields r) =? rs)
                    && (CourtRules.rule_number (fields r) =? rn)) (rows t)).

(** [getCourtRule], returning next to its result the rule numbers it
    ran [stmt.get] with, in order. *)
Definition getCourtRule_probes (t : table (S := court_rules))
    (rs rn : string) : list string * option CourtRule :=
  let result := court_rule_get t rs rn in
  match result with
  | Some _ => ([rn], result)
  | None =>
      if negb (includes "." rn)
      then ([rn; rn ++ ".0"], court_rule_get t rs (rn ++ ".0"))
      else ([rn], None)
  end.

Definition getCourtRule (t : table (S := court_rules))
    (rs rn : string) : option CourtRule :=
  snd (getCourtRule_probes t rs rn).

(** [listCourtRules]'s sort keys.  [sql_instr] and [sql_substr] are
    SQLite's INSTR and SUBSTR on 1-based positions; [cast_integer] is
    [CAST(text AS INTEGER)]: leading blanks, an optional sign, then the
    longest run of digits (0 when there is none), saturating at the
    64-bit bounds. *)
Definition sql_instr (s sub : string) : Z :=
  match index 0 sub s with
  | Some i => Z.of_nat i + 1
  | None => 0
  end%Z.

Definition sql_substr (s : string) (start len : Z) : string :=
  substring (Z.to_nat (start - 1)) (Z.to_nat len) s.

Definition sql_substr_from (s : string) (start : Z) : string :=
  substring (Z.to_nat (start - 1)) (length s) s.

Fixpoint skip_blanks (s : string) : string :=
  match s with
  | String c s' => if is_space c then skip_blanks s' else s
  | EmptyString => s
  end.

Definition clamp64 (z : Z) : Z :=
  Z.max (- 2 ^ 63) (Z.min (2 ^ 63 - 1) z).

Definition cast_integer (s : string) : Z :=
  match skip_blanks s with
  | String "-" s' => clamp64 (- digits_value (fst (span is_digit s')))
  | String "+" s' => clamp64 (digits_value (fst (span is_digit s')))
  | s' => clamp64 (digits_value (fst (span is_digit s')))
  end.

(** [CAST(SUBSTR(rule_number, 1, INSTR(rule_number || '.', '.') - 1) AS INTEGER)] *)
Definition rule_major (rn : string) : Z :=
  cast_integer (sql_substr rn 1 (sql_instr (rn ++ ".") "." - 1)).

(** [CAST(SUBSTR(rule_number, INSTR(rule_number || '.', '.') + 1) AS INTEGER)] *)
Definition rule_minor (rn : string) : Z :=
  cast_integer (sql_substr_from rn (sql_instr (rn ++ ".") "." + 1)).

Record RuleListing := {
  l_ruleSet : string;
  l_ruleNumber : string;
  l_ruleName : option string
}.

Definition rule_order (a b : court_rules_row) : bool :=
  let ra := CourtRules.rule_number (fields a) in
  let rb := CourtRules.rule_number (fields b) in
  (rule_major ra <? rule_major rb)%Z
  || ((rule_major ra =? rule_major rb)%Z && (rule_minor ra <=? rule_minor rb)%Z).

Definition rule_listing (r : court_rules_row) : RuleListing :=
  {| l_ruleSet := CourtRules.rule_set (fields r);
     l_ruleNumber := CourtRules.rule_number (fields r);
     l_ruleName := CourtRules.rule_name (fields r) |}.

(** [listCourtRules(ruleSet?)]: the filter applies when [ruleSet] is
    truthy; otherwise rows are ordered by [rule_set] first. *)
Definition listCourtRules (t : table (S := court_rules))
    (rs : option string) : list RuleListing :=
  if truthy rs then
    map rule_listing
      (sort rule_order
         (filter (fun r : court_rules_row =>
                    CourtRules.rule_set (fields r) =? show rs EmptyString)
                 (rows t)))
  else
    map rule_listing
      (sort (fun a b : court_rules_row =>
               let sa := CourtRules.rule_set (fields a) in
               let sb := CourtRules.rule_set (fields b) in
               String.ltb sa sb || ((sa =? sb) && rule_order a b))
            (rows t)).

(** *** Hierarchical browsing of the statutes *)

Definition opt_eqb (a b : option string) : bool :=
  match a, b with
  | Some x, Some y => x =? y
  | None, None => true
  | _, _ => false
  end.

(** [GROUP BY k ... COUNT( * )]: one entry per distinct key, in order of
    first appearance, with the number of rows it stands for. *)
Section GroupBy.
Variable K : Type.
Variable eqb : K -> K -> bool.

Fixpoint bump (k : K) (acc : list (K * Z)) : list (K * Z) :=
  match acc with
  | [] => [(k, 1%Z)]
  | (k', n) :: acc' =>
      if eqb k' k then (k', (n + 1)%Z) :: acc' else (k', n) :: bump k acc'
  end.

Definition group_count (ks : list K) : list (K * Z) :=
  fold_left (fun acc k => bump k acc) ks [].
End GroupBy.

Definition name_key_eqb (a b : string * option string) : bool :=
  (fst a =? fst b) && opt_eqb (snd a) (snd b).

Record TitleListing := { titleNum : string; titleName : option string; titleCount : Z }.
Record ChapterListing := { chapterNum : string; chapterName : option string; chapterCount : Z }.
Record SectionListing := { sectionCitation : string; sectionName : option string }.

(** [SELECT title_num, title_name, COUNT( * ) FROM rcw
     GROUP BY title_num, title_name
     ORDER BY CAST(title_num AS INTEGER), title_num] *)
Definition listRCWTitles (t : table (S := rcw)) : list TitleListing :=
  map (fun g => {| titleNum := fst (fst g); titleName := snd (fst g); titleCount := snd g |})
    (sort (fun a b : (string * option string) * Z =>
             let ta := fst (fst a) in
             let tb := fst (fst b) in
             (cast_integer ta <? cast_integer tb)%Z
             || ((cast_integer ta =? cast_integer tb)%Z && String.leb ta tb))
       (group_count name_key_eqb
          (map (fun r : rcw_row => (Rcw.title_num (fields r), Rcw.title_name (fields r)))
               (rows t)))).

(** [SELECT chapter_num, chapter_name, COUNT( * ) FROM rcw
     WHERE title_num = ? GROUP BY chapter_num, chapter_name
     ORDER BY chapter_num]: [chapter_num] is a TEXT column, compared
    under the BINARY collation, that is byte by byte. *)
Definition listRCWChapters (t : table (S := rcw)) (title : string)
    : list ChapterListing :=
  map (fun g => {| chapterNum := fst (fst g); chapterName := snd (fst g); chapterCount := snd g |})
    (sort (fun a b : (string * option string) * Z =>
             String.leb (fst (fst a)) (fst (fst b)))
       (group_count name_key_eqb
          (map (fun r : rcw_row => (Rcw.chapter_num (fields r), Rcw.chapter_name (fields r)))
               (filter (fun r : rcw_row => Rcw.title_num (fields r) =? title) (rows t))))).

(** [SELECT citation, section_name FROM rcw WHERE chapter_num = ?
     ORDER BY citation] *)
Definition listRCWSections (t : table (S := rcw)) (chapter : string)
    : list SectionListing :=
  map (fun r : rcw_row =>
         {| sectionCitation := Rcw.citation (fields r);
            sectionName := Rcw.section_name (fields r) |})
    (sort (fun a b : rcw_row =>
             String.leb (Rcw.citation (fields a)) (Rcw.citation (fields b)))
       (filter (fun r : rcw_row => Rcw.chapter_num (fields r) =? chapter) (rows t))).

(** The order the hierarchy listings are specified to have: a dotted
    identifier is read as the list of its integer segments, and lists
    compare segment by segment. *)
Fixpoint split_dots_aux (s : string) (cur : string) : list string :=
  match s with
  | EmptyString => [cur]
  | String c s' =>
      if Ascii.eqb c "."%char then cur :: split_dots_aux s' EmptyString
      else split_dots_aux s' (cur ++ String c EmptyString)
  end.

Definition segments (s : string) : list Z :=
  map cast_integer (split_dots_aux s EmptyString).

Fixpoint segments_leb (a b : list Z) : bool :=
  match a, b with
  | [], _ => true
  | _ :: _, [] => false
  | x :: a', y :: b' => (x <? y)%Z || ((x =? y)%Z && segments_leb a' b')
  end.

Fixpoint ascending (A : Type) (le : A -> A -> bool) (l : list A) : bool :=
  match l with
  | x :: ((y :: _) as l') => le x y && ascending le l'
  | _ => true
  end.

Definition ascending_numeric (ids : list string) : bool :=
  ascending segments_leb (map segments ids).

(** *** Ranked search over the three families

    What FTS5 itself computes is taken as given: which index rows a
    MATCH query selects, the [rank] (bm25) of a selected row against the
    index it lives in, and [snippet(...)].  Ranks are finite reals; they
    are rationals here. *)
Class Fts5 (S : Schema) := {
  fts5_match : string -> doc -> bool;
  fts5_rank : list fts_row -> string -> fts_row -> Q;
  fts5_snippet : Z -> string -> doc -> string
}.

Record SearchResult := {
  type : string;
  citation : string;
  sr_titleName : option string;
  sr_chapterName : option string;
  sr_sectionName : option string;
  snippet : string;
  score : Q
}.

(** [SELECT ... FROM <t>_fts JOIN <t> r ON <t>_fts.rowid = r.id
     WHERE <t>_fts MATCH ? ORDER BY rank LIMIT ?] *)
Definition match_query {S : Schema} {F : Fts5 S}
    (t : table) (query : string) (lim : Z) : list (fts_row * row) :=
  sql_limit lim
    (sort (fun a b : fts_row * row =>
             Qle_bool (fts5_rank (fts t) query (fst a))
                      (fts5_rank (fts t) query (fst b)))
       (join (filter (fun x => fts5_match query (document x)) (fts t))
             (rows t))).

Definition rcw_result {F : Fts5 rcw} (ix : list (fts_row (S := rcw)))
    (query : string) (h : fts_row (S := rcw) * rcw_row) : SearchResult :=
  {| type := "RCW";
     citation := Rcw.citation (fields (snd h));
     sr_titleName := Rcw.title_name (fields (snd h));
     sr_chapterName := Rcw.chapter_name (fields (snd h));
     sr_sectionName := Rcw.section_name (fields (snd h));
     snippet := fts5_snippet 4 query (document (fst h));
     score := Qabs (fts5_rank ix query (fst h)) |}.

Definition wac_result {F : Fts5 wac} (ix : list (fts_row (S := wac)))
    (query : string) (h : fts_row (S := wac) * wac_row) : SearchResult :=
  {| type := "WAC";
     citation := Wac.citation (fields (snd h));
     sr_titleName := Wac.title_name (fields (snd h));
     sr_chapterName := Wac.chapter_name (fields (snd h));
     sr_sectionName := Wac.section_name (fields (snd h));
     snippet := fts5_snippet 4 query (document (fst h));
     score := Qabs (fts5_rank ix query (fst h)) |}.

Definition court_result {F : Fts5 court_rules}
    (ix : list (fts_row (S := court_rules)))
    (query : string) (h : fts_row (S := court_rules) * court_rules_row)
    : SearchResult :=
  {| type := "Court Rule";
     citation := CourtRules.rule_set (fields (snd h)) ++ " "
                 ++ CourtRules.rule_number (fields (snd h));
     sr_titleName := Some (CourtRules.rule_set (fields (snd h)));
     sr_chapterName := Some EmptyString;
     sr_sectionName := CourtRules.rule_name (fields (snd h));
     snippet := fts5_snippet 3 query (document (fst h));
     score := Qabs (fts5_rank ix query (fst h)) |}.

(** [x.score || 0] *)
Definition or0 (q : Q) : Q := if Qeq_bool q 0 then 0%Q else q.

(** The comparator [(a, b) => (b.score || 0) - (a.score || 0)]. *)
Definition by_score (a b : SearchResult) : Q :=
  (or0 (score b) - or0 (score a))%Q.

Definition perTypeLimit (limit : Z) : Z := (limit / 3)%Z.

Section Search.
Context {Frcw : Fts5 rcw} {Fwac : Fts5 wac} {Fcourt : Fts5 court_rules}.

Definition rcwResults (d : database) (query : string) (limit : Z) :=
  map (rcw_result (fts (rcw_table d)) query)
      (match_query (rcw_table d) query (perTypeLimit limit)).

Definition wacResults (d : database) (query : string) (limit : Z) :=
  map (wac_result (fts (wac_table d)) query)
      (match_query (wac_table d) query (perTypeLimit limit)).

(** The court-rule query sits in a [try { ... } catch (e) { }]: when
    the tables do not exist it contributes nothing. *)
Definition courtResults (d : database) (query : string) (limit : Z) :=
  match court_rules_table d with
  | Some t => map (court_result (fts t) query)
                  (match_query t query (perTypeLimit limit))
  | None => []
  end.

Definition searchLaws (d : database) (query : string) (limit : Z)
    : list SearchResult :=
  let results :=
    (rcwResults d query limit ++ wacResults d query limit
     ++ courtResults d query limit)%list in
  slice0 limit (sort (fun a b => Qle_bool (by_score a b) 0) results).
End Search.

(** *** Statistics *)
Record Statistics := {
  rcwCount : Z;
  wacCount : Z;
  courtRulesCount : Z;
  lastUpdate : string
}.

Definition metadata_value (k : string) (m : list (string * string)) : option string :=
  option_map snd (find (fun e => fst e =? k) m).

Definition table_count {S : Schema} (o : option table) : Z :=
  match o with
  | Some t => Z.of_nat (List.length (rows t))
  | None => 0%Z
  end.

(** [getStatistics]; a count that is 0 stays 0 under [|| 0]. *)
Definition getStatistics (d : database) : Statistics :=
  {| rcwCount := table_count (Some (rcw_table d));
     wacCount := table_count (Some (wac_table d));
     courtRulesCount := table_count (court_rules_table d);
     lastUpdate := or_else (metadata_value "last_update" (metadata d)) "Unknown" |}.

End LawDatabase.

(** ** Discovery and normalisation in the scrapers *)
Module Scraper.

Import Lang.
Open Scope string_scope.

Notation "x <- e ;; k" :=
  (match e with Some x => k | None => None end)
  (at level 61, e at next level, right associativity).

(** *** File names: [<GROUP>_<SET>_<major>_<minor>_<sub>.pdf] *)

(** Consume a literal at the head of [s], ignoring case (flag [i]). *)
Fixpoint strip_prefix_ci (p s : string) : option string :=
  match p, s with
  | EmptyString, _ => Some s
  | String a p', String b s' =>
      if eqb_ci a b then strip_prefix_ci p' s' else None
  | String _ _, EmptyString => None
  end.

(** A greedy, non-empty run of a character class.  Each run of the
    file-name patterns is followed by a literal outside its class, so
    the longest run is the only one that can match. *)
Definition run1 (p : ascii -> bool) (s : string) : option (string * string) :=
  match span p s with
  | ([], _) => None
  | (r, rest) => Some (string_of_list_ascii r, rest)
  end.

(** The pattern at the head of [s]: [<prefix>(\d+)_(\d+)_(\d+)\.pdf]. *)
Definition file_fields_at (prefix s : string) : option (string * string * string) :=
  s1 <- strip_prefix_ci prefix s ;;
  f1 <- run1 is_digit s1 ;;
  s2 <- strip_prefix_ci "_" (snd f1) ;;
  f2 <- run1 is_digit s2 ;;
  s3 <- strip_prefix_ci "_" (snd f2) ;;
  f3 <- run1 is_digit s3 ;;
  _ <- strip_prefix_ci ".pdf" (snd f3) ;;
  Some (fst f1, fst f2, fst f3).

(** The pattern at the head of [s]: [CLJ_[A-Z]+_(\d+)_(\d+)_\d+\.pdf]. *)
Definition v2_fields_at (s : string) : option (string * string) :=
  s0 <- strip_prefix_ci "CLJ_" s ;;
  g <- run1 is_alpha s0 ;;
  s1 <- strip_prefix_ci "_" (snd g) ;;
  f1 <- run1 is_digit s1 ;;
  s2 <- strip_prefix_ci "_" (snd f1) ;;
  f2 <- run1 is_digit s2 ;;
  s3 <- strip_prefix_ci "_" (snd f2) ;;
  f3 <- run1 is_digit s3 ;;
  _ <- strip_prefix_ci ".pdf" (snd f3) ;;
  Some (fst f1, fst f2).

(** [s.match(re)] without the [g] flag: the leftmost position at which
    the pattern matches. *)
Fixpoint first_match (A : Type) (at_head : string -> option A) (s : string) : option A :=
  match at_head s with
  | Some x => Some x
  | None =>
      match s with
      | String _ s' => first_match at_head s'
      | EmptyString => None
      end
  end.

(** [String.fromCharCode(n)], for the single-byte range of this model. *)
Definition fromCharCode (n : Z) : string :=
  String (ascii_of_N (Z.to_N n)) EmptyString.

(** [`${parseInt(fileMatch[1])}.${parseInt(fileMatch[2])}`] *)
Definition major_minor (f1 f2 : string) : string :=
  Z_to_string (parseInt f1) ++ "." ++ Z_to_string (parseInt f2).

(** [RALJScraper.scrapeRALJ], lines 71-81. *)
Definition ralj_ruleNumber (f1 f2 f3 : string) : string :=
  let ruleNumber := major_minor f1 f2 in
  if negb (f3 =? "00") then
    let subPart := parseInt f3 in
    if (subPart >? 0)%Z then ruleNumber ++ "." ++ Z_to_string subPart
    else ruleNumber
  else ruleNumber.

(** [RPCScraper.scrapeRPC], lines 71-76. *)
Definition rpc_ruleNumber (f1 f2 f3 : string) : string :=
  let ruleNumber := major_minor f1 f2 in
  if negb (f3 =? "00") then
    let subRule := fromCharCode (96 + parseInt f3) in
    ruleNumber ++ subRule
  else ruleNumber.

(** [CourtRulesPDFScraperV2.scrapeRuleSet], line 312: the third field is
    matched but not captured. *)
Definition v2_ruleNumber (f1 f2 : string) : string :=
  major_minor f1 f2.

Definition ralj_href_ruleNumber (href : string) : option string :=
  m <- first_match (file_fields_at "CLJ_RALJ_") href ;;
  Some (ralj_ruleNumber (fst (fst m)) (snd (fst m)) (snd m)).

Definition rpc_href_ruleNumber (href : string) : option string :=
  m <- first_match (file_fields_at "GA_RPC_") href ;;
  Some (rpc_ruleNumber (fst (fst m)) (snd (fst m)) (snd m)).

Definition v2_href_ruleNumber (href : string) : option string :=
  m <- first_match v2_fields_at href ;;
  Some (v2_ruleNumber (fst m) (snd m)).

(** The (major, minor, sub) triple a file name encodes. *)
Definition file_triple (prefix href : string) : option (Z * Z * Z) :=
  m <- first_match (file_fields_at prefix) href ;;
  Some (parseInt (fst (fst m)), parseInt (snd (fst m)), parseInt (snd m)).

(** The file name the site publishes for a triple: two-digit, zero-padded
    fields. *)
Definition pad2 (n : Z) : string :=
  if (n <? 10)%Z then "0" ++ Z_to_string n else Z_to_string n.

Definition file_name (prefix : string) (major minor sub : Z) : string :=
  prefix ++ pad2 major ++ "_" ++ pad2 minor ++ "_" ++ pad2 sub ++ ".pdf".

(** *** Discovery: one candidate per anchor, duplicates dropped *)

Record anchor := { href : string; text : string }.

(** [interface RALJRule], [RPCRule], [CourtRulePDF], [CourtRule]: the
    four scrapers declare the same shape ([pdfUrl] is [url] in the
    HTML scraper). *)
Record Rule := {
  ruleSet : string;
  ruleNumber : string;
  ruleName : string;
  url : string
}.

(** [if (!rules.find(r => r.ruleNumber === ruleNumber)) rules.push(...)] *)
Definition push_unless_found (rules : list Rule) (r : Rule) : list Rule :=
  match find_first (fun r' => ruleNumber r' =? ruleNumber r) rules with
  | Some _ => rules
  | None => rules ++ [r]
  end.

(** Whether a rule number is already among the rules collected. *)
Definition known (n : string) (rules : list Rule) : bool :=
  existsb (fun r' => ruleNumber r' =? n) rules.

(** The [$('a').each(...)] loop of the PDF scrapers over the candidates
    the anchors give rise to, in document order. *)
Definition discover (candidates : list Rule) : list Rule :=
  fold_left push_unless_found candidates [].

(** [pdfUrl]: lines 84-89 of [ralj-scraper.ts]. *)
Definition BASE_URL : string := "https://www.courts.wa.gov".

Definition pdf_url (h : string) : string :=
  if prefix "../" h then BASE_URL ++ "/" ++ substring_from 3 h
  else if negb (prefix "http" h)
       then BASE_URL ++ (if prefix "/" h then EmptyString else "/") ++ h
       else h.

Section Candidates.
(** The display name drawn from the anchor text (lines 92-103); its
    regular expressions play no part in what follows. *)
Variable name_of : string -> string -> string.

Definition ralj_candidate (a : anchor) : option Rule :=
  if includes ".pdf" (href a) && includes "RALJ" (href a) then
    n <- ralj_href_ruleNumber (href a) ;;
    Some {| ruleSet := "RALJ"; ruleNumber := n;
            ruleName := name_of (text a) n; url := pdf_url (href a) |}
  else None.

Definition rpc_candidate (a : anchor) : option Rule :=
  if includes ".pdf" (href a) && includes "RPC" (href a) then
    n <- rpc_href_ruleNumber (href a) ;;
    Some {| ruleSet := "RPC"; ruleNumber := n;
            ruleName := name_of (text a) n; url := pdf_url (href a) |}
  else None.

Definition v2_candidate (set : string) (a : anchor) : option Rule :=
  if includes ".pdf" (href a) && includes set (href a) then
    n <- v2_href_ruleNumber (href a) ;;
    Some {| ruleSet := set; ruleNumber := n;
            ruleName := name_of (text a) n; url := pdf_url (href a) |}
  else None.

Definition candidates (c : anchor -> option Rule) (page : list anchor) : list Rule :=
  flat_map (fun a => match c a with Some r => [r] | None => [] end) page.

Definition scrapeRALJ_rules (page : list anchor) : list Rule :=
  discover (candidates ralj_candidate page).

Definition scrapeRPC_rules (page : list anchor) : list Rule :=
  discover (candidates rpc_candidate page).

Definition scrapeRuleSet_pdf_rules (set : string) (page : list anchor) : list Rule :=
  discover (candidates (v2_candidate set) page).
End Candidates.

(** A JavaScript [Map]: entries in insertion order; [set] on a key that
    is present overwrites the value and leaves the entry where it is. *)
Fixpoint map_set (V : Type) (k : string) (v : V) (m : list (string * V))
    : list (string * V) :=
  match m with
  | [] => [(k, v)]
  | (k', v') :: m' =>
      if k' =? k then (k', v) :: m' else (k', v') :: map_set k v m'
  end.

(** [new Map(entries)] *)
Definition new_Map (V : Type) (entries : list (string * V)) : list (string * V) :=
  fold_left (fun m e => map_set (fst e) (snd e) m) entries [].

(** [CourtRulesScraper.scrapeRuleSet], line 93:
    [Array.from(new Map(rules.map(r => [`${r.ruleSet}-${r.ruleNumber}`, r])).values())] *)
Definition rule_key (r : Rule) : string := ruleSet r ++ "-" ++ ruleNumber r.

Definition uniqueRules (rules : list Rule) : list Rule :=
  map snd (new_Map (map (fun r => (rule_key r, r)) rules)).

(** *** Locating the start of the rule body in extracted text *)

(** The pieces a rule number contributes to the search pattern: a
    literal character, or [.] left unescaped. *)
Inductive atom := Lit (c : ascii) | AnyChar.

Definition is_line_terminator (c : ascii) : bool :=
  let n := nat_of_ascii c in (n =? 10)%nat || (n =? 13)%nat.

Definition atom_matches (a : atom) (c : ascii) : bool :=
  match a with
  | Lit l => eqb_ci l c
  | AnyChar => negb (is_line_terminator c)
  end.

Fixpoint match_atoms (p : list atom) (s : string) : bool :=
  match p, s with
  | [], _ => true
  | a :: p', String c s' => atom_matches a c && match_atoms p' s'
  | _ :: _, EmptyString => false
  end.

(** [\s+] followed by the atoms, with every split tried. *)
Fixpoint spaces_then (p : list atom) (s : string) : bool :=
  match s with
  | String c s' => is_space c && (match_atoms p s' || spaces_then p s')
  | EmptyString => false
  end.

(** [<tag>\s+<number>] at the head of [s]; the tag is one of the
    rule-set names, all letters. *)
Definition heading_at (tag : string) (number : list atom) (s : string) : bool :=
  match strip_prefix_ci tag s with
  | Some s' => spaces_then number s'
  | None => false
  end.

(** [s.search(re)]: index of the leftmost match, or -1. *)
Fixpoint search_from (at_head : string -> bool) (s : string) (i : Z) : Z :=
  if at_head s then i
  else match s with
       | String _ s' => search_from at_head s' (i + 1)%Z
       | EmptyString => (-1)%Z
       end.

Definition search (at_head : string -> bool) (s : string) : Z :=
  search_from at_head s 0%Z.

(** How each scraper escapes the rule number before it builds the
    pattern. *)
(** RALJ: [ruleNumber.replace(/\./g, '\\.')], every dot literal. *)
Definition escape_all (n : string) : list atom :=
  map Lit (list_ascii_of_string n).

(** RPC: [ruleNumber.replace('.', '\\.')], the first dot only. *)
Fixpoint escape_first (n : list ascii) : list atom :=
  match n with
  | [] => []
  | c :: n' =>
      if Ascii.eqb c "."%char
      then Lit c :: map (fun c' => if Ascii.eqb c' "."%char then AnyChar else Lit c') n'
      else Lit c :: escape_first n'
  end.

(** IRLJ/CRLJ: the number goes into the pattern as it is. *)
Definition escape_none (n : string) : list atom :=
  map (fun c => if Ascii.eqb c "."%char then AnyChar else Lit c)
      (list_ascii_of_string n).

(** [RALJScraper.downloadAndParseRule], lines 192-195. *)
Definition ralj_body_start (ruleNumber fullText : string) : string :=
  let ruleStart := search (heading_at "RALJ" (escape_all ruleNumber)) fullText in
  if (ruleStart >? 0)%Z && (ruleStart <? 100)%Z
  then substring_from ruleStart fullText else fullText.

(** [RPCScraper.downloadAndParseRule], lines 187-190. *)
Definition rpc_body_start (ruleNumber fullText : string) : string :=
  let ruleStart :=
    search (heading_at "RPC" (escape_first (list_ascii_of_string ruleNumber))) fullText in
  if (ruleStart >? 0)%Z && (ruleStart <? 100)%Z
  then substring_from ruleStart fullText else fullText.

(** [CourtRulesPDFScraperV2.downloadAndParseRule], lines 399-402. *)
Definition v2_body_start (ruleSet ruleNumber fullText : string) : string :=
  let ruleStart := search (heading_at ruleSet (escape_none ruleNumber)) fullText in
  if (ruleStart >? 0)%Z
  then substring_from ruleStart fullText else fullText.

End Scraper.

(** ** The tool-call handler of the server ([index.ts]) *)
Module Server.

Import Lang LawDatabase.
Open Scope string_scope.

(** What a call into the database layer, or a [switch] arm, comes to:
    a value, or an [Error] thrown with a message. *)
Inductive result (A : Type) : Type :=
| Ok (a : A)
| Throw (message : string).
Arguments Ok {A} a.
Arguments Throw {A} message.

Definition bind (A B : Type) (m : result A) (k : A -> result B) : result B :=
  match m with
  | Ok a => k a
  | Throw e => Throw e
  end.

(** [try { body } catch (error) { handler }] *)
Definition try_catch (A : Type) (body : result A) (handler : string -> result A)
    : result A :=
  match body with
  | Ok a => Ok a
  | Throw e => handler e
  end.

(** The methods of [LawDatabase] as the handler sees them: any of them
    may throw (the driver does, on a missing table or a value it cannot
    bind).  Arguments are [undefined] when the caller left them out. *)
Record LawDatabaseI := {
  db_getRCW : option string -> result (option RCWSection);
  db_getWAC : option string -> result (option WACSection);
  db_getCourtRule : option string -> option string -> result (option CourtRule);
  db_listCourtRules : option string -> result (list RuleListing);
  db_searchLaws : option string -> Z -> result (list SearchResult);
  db_listRCWTitles : result (list TitleListing);
  db_listRCWChapters : option string -> result (list ChapterListing);
  db_listRCWSections : option string -> result (list SectionListing);
  db_getStatistics : result Statistics
}.

(** [request.params.arguments], field by field. *)
Record arguments := {
  arg_citation : option string;
  arg_ruleSet : option string;
  arg_ruleNumber : option string;
  arg_query : option string;
  arg_limit : option Z;
  arg_titleNum : option string;
  arg_chapterNum : option string
}.

Record TextContent := { content_type : string; content_text : string }.
Record CallToolResult := { content : list TextContent }.

Definition text_result (s : string) : CallToolResult :=
  {| content := [ {| content_type := "text"; content_text := s |} ] |}.

(** [${x}] of a possibly missing argument. *)
Definition tpl (o : option string) : string := show o "undefined".

Definition rcw_text (r : RCWSection) : string :=
  "# RCW " ++ rcw_citation r
  ++ (if truthy (rcw_sectionName r) then ": " ++ tpl (rcw_sectionName r) else EmptyString)
  ++ nl ++ nl
  ++ "**Title " ++ rcw_titleNum r ++ "**: " ++ or_else (rcw_titleName r) "Unknown" ++ nl
  ++ "**Chapter " ++ rcw_chapterNum r ++ "**: " ++ or_else (rcw_chapterName r) "Unknown" ++ nl
  ++ nl ++ "## Full Text" ++ nl ++ nl ++ rcw_fullText r ++ nl ++ nl
  ++ (if truthy (rcw_effectiveDate r)
      then nl ++ "**Effective Date**: " ++ tpl (rcw_effectiveDate r) else EmptyString)
  ++ nl
  ++ (if truthy (rcw_lastAmended r)
      then nl ++ "**Last Amended**: " ++ tpl (rcw_lastAmended r) else EmptyString).

Definition wac_text (w : WACSection) : string :=
  "# WAC " ++ wac_citation w
  ++ (if truthy (wac_sectionName w) then ": " ++ tpl (wac_sectionName w) else EmptyString)
  ++ nl ++ nl
  ++ "**Title " ++ wac_titleNum w ++ "**: " ++ or_else (wac_titleName w) "Unknown" ++ nl
  ++ "**Chapter " ++ wac_chapterNum w ++ "**: " ++ or_else (wac_chapterName w) "Unknown" ++ nl
  ++ nl ++ "## Full Text" ++ nl ++ nl ++ wac_fullText w ++ nl ++ nl
  ++ (if truthy (wac_effectiveDate w)
      then nl ++ "**Effective Date**: " ++ tpl (wac_effectiveDate w) else EmptyString).

Definition court_rule_text (r : CourtRule) : string :=
  "# " ++ ruleSet r ++ " " ++ ruleNumber r
  ++ (if truthy (ruleName r) then ": " ++ tpl (ruleName r) else EmptyString)
  ++ nl ++ nl ++ "## Full Text" ++ nl ++ nl ++ fullText r ++ nl ++ nl
  ++ (if truthy (Some (updatedAt r))
      then nl ++ "**Last Updated**: " ++ updatedAt r else EmptyString).

(** The loop of [list_court_rules]: the state is [(currentSet, response)]. *)
Definition rules_text (filter : option string) (rules : list RuleListing) : string :=
  snd (fold_left
         (fun (st : string * string) (rule : RuleListing) =>
            let st' :=
              if negb (truthy filter) && negb (l_ruleSet rule =? fst st)
              then (l_ruleSet rule,
                    snd st ++ nl ++ "## " ++ l_ruleSet rule ++ nl ++ nl)
              else st in
            (fst st',
             snd st' ++ "- **" ++ l_ruleSet rule ++ " " ++ l_ruleNumber rule
             ++ "**: " ++ show (l_ruleName rule) "null" ++ nl))
         rules
         (EmptyString,
          if truthy filter
          then "# " ++ tpl filter ++ " Rules" ++ nl ++ nl
          else "# Court Rules" ++ nl ++ nl)).

Definition search_text (query : option string) (results : list SearchResult) : string :=
  fold_left
    (fun (response : string) (r : SearchResult) =>
       response ++ "## " ++ type r ++ " " ++ citation r
       ++ (if truthy (sr_sectionName r)
           then ": " ++ tpl (sr_sectionName r) else EmptyString)
       ++ nl
       ++ (if truthy (sr_chapterName r)
           then "**Chapter**: " ++ tpl (sr_chapterName r) ++ nl else EmptyString)
       ++ "**Snippet**: " ++ snippet r ++ nl ++ nl)
    results
    ("# Search Results for " ++ dquote ++ tpl query ++ dquote ++ nl ++ nl
     ++ "Found " ++ Z_to_string (Z.of_nat (List.length results))
     ++ " results:" ++ nl ++ nl).

Definition titles_text (titles : list TitleListing) : string :=
  fold_left
    (fun (response : string) (t : TitleListing) =>
       response ++ "- **Title " ++ titleNum t ++ "**: " ++ show (titleName t) "null"
       ++ " (" ++ Z_to_string (titleCount t) ++ " sections)" ++ nl)
    titles ("# RCW Titles" ++ nl ++ nl).

Definition chapters_text (title : option string) (chapters : list ChapterListing)
    : string :=
  fold_left
    (fun (response : string) (c : ChapterListing) =>
       response ++ "- **Chapter " ++ chapterNum c ++ "**: "
       ++ show (chapterName c) "null"
       ++ " (" ++ Z_to_string (chapterCount c) ++ " sections)" ++ nl)
    chapters ("# RCW Title " ++ tpl title ++ " Chapters" ++ nl ++ nl).

Definition sections_text (chapter : option string) (sections : list SectionListing)
    : string :=
  fold_left
    (fun (response : string) (x : SectionListing) =>
       response ++ "- **" ++ sectionCitation x ++ "**: "
       ++ show (sectionName x) "null" ++ nl)
    sections ("# RCW Chapter " ++ tpl chapter ++ " Sections" ++ nl ++ nl).

(** The names the [ListTools] handler advertises. *)
Definition tool_names : list string :=
  ["get_rcw"; "get_court_rule"; "list_court_rules"; "get_wac"; "search_laws";
   "list_rcw_titles"; "list_rcw_chapters"; "list_rcw_sections"; "get_statistics"].

Definition no_arguments : arguments :=
  {| arg_citation := None; arg_ruleSet := None; arg_ruleNumber := None;
     arg_query := None; arg_limit := None; arg_titleNum := None;
     arg_chapterNum := None |}.

Section Handler.
(** [n.toLocaleString()] depends on the host's locale. *)
Variable toLocaleString : Z -> string.

Definition statistics_text (st : Statistics) : string :=
  "# Washington Law Database Statistics" ++ nl ++ nl
  ++ "- **RCW Sections**: " ++ toLocaleString (rcwCount st) ++ nl
  ++ "- **WAC Sections**: " ++ toLocaleString (wacCount st) ++ nl
  ++ "- **Court Rules**: "
  ++ or_else (Some (toLocaleString (courtRulesCount st))) "0" ++ " (IRLJ & CRLJ)" ++ nl
  ++ "- **Last Update**: " ++ lastUpdate st ++ nl ++ nl
  ++ "Database is stored locally and operates completely offline.".

Variable db : LawDatabaseI.

(** The [switch (name)] inside the [try] block. *)
Definition dispatch (name : string) (args : arguments) : result CallToolResult :=
  if name =? "get_rcw" then
    let citation := arg_citation args in
    bind (db_getRCW db citation) (fun rcw =>
      match rcw with
      | None => Ok (text_result ("RCW " ++ tpl citation ++ " not found in database."))
      | Some r => Ok (text_result (rcw_text r))
      end)
  else if name =? "get_wac" then
    let citation := arg_citation args in
    bind (db_getWAC db citation) (fun wac =>
      match wac with
      | None => Ok (text_result ("WAC " ++ tpl citation ++ " not found in database."))
      | Some w => Ok (text_result (wac_text w))
      end)
  else if name =? "get_court_rule" then
    let ruleSet := arg_ruleSet args in
    let ruleNumber := arg_ruleNumber args in
    bind (db_getCourtRule db ruleSet ruleNumber) (fun rule =>
      match rule with
      | None => Ok (text_result (tpl ruleSet ++ " " ++ tpl ruleNumber
                                 ++ " not found in database."))
      | Some r => Ok (text_result (court_rule_text r))
      end)
  else if name =? "list_court_rules" then
    let ruleSet := arg_ruleSet args in
    bind (db_listCourtRules db ruleSet) (fun rules =>
      match rules with
      | [] => Ok (text_result
                    (if truthy ruleSet then "No rules found for " ++ tpl ruleSet
                     else "No court rules found"))
      | _ => Ok (text_result (rules_text ruleSet rules))
      end)
  else if name =? "search_laws" then
    let query := arg_query args in
    let limit := match arg_limit args with
                 | Some l => if (l =? 0)%Z then 20%Z else l
                 | None => 20%Z
                 end in
    bind (db_searchLaws db query limit) (fun results =>
      match results with
      | [] => Ok (text_result ("No results found for query: "
                               ++ dquote ++ tpl query ++ dquote))
      | _ => Ok (text_result (search_text query results))
      end)
  else if name =? "list_rcw_titles" then
    bind (db_listRCWTitles db) (fun titles =>
      Ok (text_result (titles_text titles)))
  else if name =? "list_rcw_chapters" then
    let titleNum := arg_titleNum args in
    bind (db_listRCWChapters db titleNum) (fun chapters =>
      match chapters with
      | [] => Ok (text_result ("No chapters found for Title " ++ tpl titleNum))
      | _ => Ok (text_result (chapters_text titleNum chapters))
      end)
  else if name =? "list_rcw_sections" then
    let chapterNum := arg_chapterNum args in
    bind (db_listRCWSections db chapterNum) (fun sections =>
      match sections with
      | [] => Ok (text_result ("No sections found for Chapter " ++ tpl chapterNum))
      | _ => Ok (text_result (sections_text chapterNum sections))
      end)
  else if name =? "get_statistics" then
    bind (db_getStatistics db) (fun stats =>
      Ok (text_result (statistics_text stats)))
  else Throw ("Unknown tool: " ++ name).

(** [server.setRequestHandler(CallToolRequestSchema, async (request) => ...)] *)
Definition CallTool (name : string) (args : arguments) : result CallToolResult :=
  try_catch (dispatch name args)
    (fun message => Ok (text_result ("Error: " ++ message))).
End Handler.

(** *** The handler's database: [new LawDatabase()] over a store file *)
Section Concrete.
Import Schema.
Context {Frcw : Fts5 rcw} {Fwac : Fts5 wac} {Fcourt : Fts5 court_rules}.

(** The message of the driver's TypeError for a value it cannot bind. *)
Variable bind_error : string.

Definition with_arg (A B : Type) (o : option A) (k : A -> result B) : result B :=
  match o with
  | Some a => k a
  | None => Throw bind_error
  end.

Definition with_court_rules (B : Type) (d : database)
    (k : Sqlite.table (S := court_rules) -> result B) : result B :=
  match court_rules_table d with
  | Some t => k t
  | None => Throw "no such table: court_rules"
  end.

Definition law_database (d : database) : LawDatabaseI :=
  {| db_getRCW := fun c => with_arg c (fun c => Ok (getRCW (rcw_table d) c));
     db_getWAC := fun c => with_arg c (fun c => Ok (getWAC (wac_table d) c));
     db_getCourtRule := fun rs rn =>
       with_court_rules d (fun t =>
         with_arg rs (fun rs => with_arg rn (fun rn => Ok (getCourtRule t rs rn))));
     db_listCourtRules := fun rs =>
       with_court_rules d (fun t => Ok (listCourtRules t rs));
     db_searchLaws := fun q limit =>
       with_arg q (fun q => Ok (searchLaws d q limit));
     db_listRCWTitles := Ok (listRCWTitles (rcw_table d));
     db_listRCWChapters := fun t =>
       with_arg t (fun t => Ok (listRCWChapters (rcw_table d) t));
     db_listRCWSections := fun c =>
       with_arg c (fun c => Ok (listRCWSections (rcw_table d) c));
     db_getStatistics :=
       with_court_rules d (fun _ => Ok (getStatistics d)) |}.
End Concrete.

End Server.

(** ** Text normalisation in the scrapers *)
Module Cleanup.

Import Lang.
Open Scope string_scope.

(** A character of a string stands for a UTF-16 code unit below 256.  The
    regular-expression class [\s] and the characters [trim] strips are the
    same set; below 256 it is TAB, LF, VT, FF, CR, the space and the
    no-break space U+00A0. *)
Definition is_white (c : ascii) : bool :=
  is_space c || (nat_of_ascii c =? 160)%nat.

Definition CR : ascii := ascii_of_nat 13.
Definition LF : ascii := ascii_of_nat 10.

(** [.replace(/\r\n/g, '\n')] *)
Fixpoint replace_crlf (s : string) : string :=
  match s with
  | String c ((String d s'') as s') =>
      if Ascii.eqb c CR && Ascii.eqb d LF
      then String LF (replace_crlf s'')
      else String c (replace_crlf s')
  | _ => s
  end.

(** What a run of [pending] line feeds is replaced by: [\n{3,}] matches a
    whole run of three or more. *)
Definition flush (pending : nat) : string :=
  string_of_list_ascii (repeat LF (if (3 <=? pending)%nat then 2%nat else pending)).

(** [.replace(/\n{3,}/g, '\n\n')]; [pending] counts the line feeds of the
    run being read. *)
Fixpoint collapse_blank_lines_from (pending : nat) (s : string) : string :=
  match s with
  | EmptyString => flush pending
  | String c s' =>
      if Ascii.eqb c LF then collapse_blank_lines_from (S pending) s'
      else flush pending ++ String c (collapse_blank_lines_from 0 s')
  end.

Definition collapse_blank_lines (s : string) : string :=
  collapse_blank_lines_from 0 s.

(** [.replace(/\s+/g, ' ')]; [in_run] tells whether the previous character
    was white space, whose run has been replaced already. *)
Fixpoint collapse_whitespace_from (in_run : bool) (s : string) : string :=
  match s with
  | EmptyString => EmptyString
  | String c s' =>
      if is_white c
      then if in_run then collapse_whitespace_from true s'
           else String " " (collapse_whitespace_from true s')
      else String c (collapse_whitespace_from false s')
  end.

Definition collapse_whitespace (s : string) : string :=
  collapse_whitespace_from false s.

(** [.trim()] *)
Fixpoint trimStart (s : string) : string :=
  match s with
  | String c s' => if is_white c then trimStart s' else s
  | EmptyString => s
  end.

Fixpoint trimEnd (s : string) : string :=
  match s with
  | EmptyString => EmptyString
  | String c s' =>
      match trimEnd s' with
      | EmptyString => if is_white c then EmptyString else String c EmptyString
      | kept => String c kept
      end
  end.

Definition trim (s : string) : string := trimEnd (trimStart s).

(** The clean-up chain of [CourtRulesScraper.scrapeRule] (lines 151-155),
    of [downloadAndParseRule] in the three PDF scrapers and of
    [SimpleRCWScraper.scrapeSection]. *)
Definition clean_text (fullText : string) : string :=
  trim (collapse_whitespace (collapse_blank_lines (replace_crlf fullText))).

(** The chain of [RCWScraper.scrapeSection] (lines 674-677): white space
    first, blank lines second. *)
Definition clean_body (fullText : string) : string :=
  trim (collapse_blank_lines (collapse_whitespace fullText)).

(** The text of a PDF (lines 174-182 of [ralj-scraper.ts]): the items of a
    page joined by a space, a line feed after every page. *)
Definition pages_text (pages : list (list string)) : string :=
  fold_left (fun fullText items => fullText ++ String.concat " " items ++ nl)
            pages EmptyString.

End Cleanup.

(** ** Citations: chapters and sections from dotted numbers *)
Module Citation.

Import Sqlite Schema Writer Lang.
Open Scope string_scope.

(** [s.split('.')] *)
Definition split_dot (s : string) : list string :=
  LawDatabase.split_dots_aux s EmptyString.

(** [sectionNum.split('.').pop()]: the array [split] returns is never
    empty, and [|| ''] leaves a string as it is. *)
Definition section_num_of (sectionNum : string) : string :=
  last (split_dot sectionNum) EmptyString.

(** [SimpleRCWScraper.scrapeTitle], lines 70-74: the chapter a cite
    belongs to, when the cite has two parts at least. *)
Definition chapter_of_cite (cite : string) : option string :=
  match split_dot cite with
  | p0 :: p1 :: _ => Some (p0 ++ "." ++ p1)
  | _ => None
  end.

(** The write of [RCWScraper.scrapeSection] (lines 692-703): the section
    number is the citation, [x || ''] of a string is that string. *)
Definition scrapeSection_write (now : string)
    (titleNum titleName chapterNum chapterName sectionNum sectionName : string)
    (fullText : string) (effectiveDate : option string)
    (t : table (S := rcw)) : table (S := rcw) :=
  rcw_insertStmt now sectionNum titleNum chapterNum (section_num_of sectionNum)
    titleName chapterName sectionName fullText
    (if truthy effectiveDate then effectiveDate else None) None t.

(** [fullText.indexOf(marker)] *)
Definition indexOf (marker s : string) : Z :=
  match index 0 marker s with
  | Some i => Z.of_nat i
  | None => (-1)%Z
  end.

(** [SimpleRCWScraper.scrapeSection], lines 156-163: the text from the
    first marker on that occurs past the first character. *)
Definition startMarkers (sectionNum : string) : list string :=
  ["RCW " ++ sectionNum; sectionNum ++ " >>"; "PDF"].

Fixpoint cut_at_marker (markers : list string) (fullText : string) : string :=
  match markers with
  | [] => fullText
  | marker :: rest =>
      let idx := indexOf marker fullText in
      if (idx >? 0)%Z then substring_from idx fullText
      else cut_at_marker rest fullText
  end.

Definition law_text_start (sectionNum fullText : string) : string :=
  cut_at_marker (startMarkers sectionNum) fullText.

End Citation.

(** ** The scrape loops: discovery, order, storage *)
Module Pipeline.

Import Sqlite Schema Writer Lang Scraper.
Open Scope string_scope.

(** The loop over the rules found ([for (let i = 0; i < rules.length; i++)]):
    each rule is fetched and written; a rule whose fetch or parse throws is
    logged and skipped.  [page_of r] is what the fetch of [r] comes to:
    the time of the write, the name written (the PDF scrapers may draw a
    better one from the text) and the text, or nothing on an error. *)
Definition store_rules (page_of : Rule -> option (string * string * string))
    (rules : list Rule) (t : table (S := court_rules)) : table (S := court_rules) :=
  fold_left
    (fun t r =>
       match page_of r with
       | Some (now, name, fullText) =>
           court_rule_insertStmt now (ruleSet r) (ruleNumber r) name fullText t
       | None => t
       end)
    rules t.

(** [CourtRulesScraper.scrapeRuleSet] from the rules its anchors give:
    duplicates removed, each rule written under the name found on the
    listing page. *)
Definition scrapeRuleSet_store (page_of : Rule -> option (string * string))
    (rules : list Rule) (t : table (S := court_rules)) : table (S := court_rules) :=
  store_rules
    (fun r => match page_of r with
              | Some (now, fullText) => Some (now, ruleName r, fullText)
              | None => None
              end)
    (uniqueRules rules) t.

(** The comparator of [RALJScraper.scrapeRALJ], lines 121-131. *)
Definition part_or_zero (parts : list string) (i : nat) : string :=
  or_else (nth_error parts i) "0".

Fixpoint compare_parts (n i : nat) (aParts bParts : list string) : Z :=
  match n with
  | O => 0%Z
  | S n' =>
      let aNum := parseInt (part_or_zero aParts i) in
      let bNum := parseInt (part_or_zero bParts i) in
      if negb (aNum =? bNum)%Z then (aNum - bNum)%Z
      else compare_parts n' (S i) aParts bParts
  end.

Definition ralj_compare (a b : Rule) : Z :=
  let aParts := Citation.split_dot (ruleNumber a) in
  let bParts := Citation.split_dot (ruleNumber b) in
  compare_parts (Nat.max (List.length aParts) (List.length bParts)) 0 aParts bParts.

(** [rules.sort(...)] *)
Definition ralj_sort (rules : list Rule) : list Rule :=
  sort (fun a b => (ralj_compare a b <=? 0)%Z) rules.

(** A store every table of which the scrapers have produced. *)
Definition scraped (d : database) : Prop :=
  reachable (rcw_table d) /\ reachable (wac_table d)
  /\ match court_rules_table d with
     | Some t => reachable t
     | None => True
     end.

End Pipeline.

(** ** A small store and a stand-in for FTS5, for the worked examples *)
Module Fixture.

Import Sqlite Schema Writer LawDatabase Lang.
Open Scope string_scope.

(** A query selects the rows whose text contains it; longer texts rank
    worse (ranks are negative, the best match lowest). *)
Definition text_rank (s : string) : Q :=
  (- (1 # Pos.of_nat (String.length s)))%Q.

#[export] Instance rcw_fts5 : Fts5 rcw :=
  @Build_Fts5 rcw
    (fun q (d : Rcw.doc) => includes q (Rcw.d_full_text d))
    (fun _ _ (x : fts_row (S := rcw)) => text_rank (Rcw.d_full_text (document x)))
    (fun _ _ (d : Rcw.doc) => Rcw.d_full_text d).

#[export] Instance wac_fts5 : Fts5 wac :=
  @Build_Fts5 wac
    (fun q (d : Wac.doc) => includes q (Wac.d_full_text d))
    (fun _ _ (x : fts_row (S := wac)) => text_rank (Wac.d_full_text (document x)))
    (fun _ _ (d : Wac.doc) => Wac.d_full_text d).

#[export] Instance court_rules_fts5 : Fts5 court_rules :=
  @Build_Fts5 court_rules
    (fun q (d : CourtRules.doc) => includes q (CourtRules.d_full_text d))
    (fun _ _ (x : fts_row (S := court_rules)) => text_rank (CourtRules.d_full_text (document x)))
    (fun _ _ (d : CourtRules.doc) => CourtRules.d_full_text d).

Definition now : string := "2024-01-01 00:00:00".

Definition statutes : table (S := rcw) :=
  rcw_insertStmt now "46.61.5055" "46" "46.61" "5055" "Motor Vehicles"
    "Rules of the Road" "Alcohol violators" "firearm and alcohol" None None
  (rcw_insertStmt now "46.61.506" "46" "46.61" "506" "Motor Vehicles"
    "Rules of the Road" "Evidence" "evidence rules" None None
  (rcw_insertStmt now "9.100.010" "9" "9.100" "010" "Crimes and Punishments"
    "Agreement on detainers" "Agreement" "detainers and firearm possession" None None
  (rcw_insertStmt now "9.41.040" "9" "9.41" "040" "Crimes and Punishments"
    "Firearms and dangerous weapons" "Unlawful possession"
    "unlawful possession of a firearm" None None
  (rcw_insertStmt now "9.41.010" "9" "9.41" "010" "Crimes and Punishments"
    "Firearms and dangerous weapons" "Terms defined" "firearm" None None
    empty_table)))).

Definition rules : table (S := court_rules) :=
  court_rule_insertStmt now "CRLJ" "60.0" "Relief from judgment" "relief" 
  (court_rule_insertStmt now "CRLJ" "1.1.0" "Scope, first part" "scope"
  (court_rule_insertStmt now "IRLJ" "6.7" "Monetary penalty" "firearm penalty"
    empty_table)).

Definition store : database :=
  {| rcw_table := statutes;
     wac_table := empty_table;
     court_rules_table := Some rules;
     metadata := [("version", "1.0.0"); ("last_update", "2024-01-01")] |}.

End Fixture.

(* ================================================================== *)
(** * Part II. Properties *)
(* ================================================================== *)

(** ** General facts about lists used below *)
Module ListFacts.

Lemma NoDup_map_filter (X Y : Type) (image : X -> Y) (keep : X -> bool) (xs : list X) :
  NoDup (map image xs) -> NoDup (map image (filter keep xs)).
Proof.
  intros Hnd. induction xs as [| x xs IH]; simpl in *; [constructor |].
  apply NoDup_cons_iff in Hnd. destruct Hnd as [Hfresh Hrest].
  destruct (keep x); simpl; [| now apply IH].
  apply NoDup_cons_iff. split; [| now apply IH].
  intros Hin. apply Hfresh.
  apply in_map_iff in Hin. destruct Hin as [y [Hy Hin]].
  apply filter_In in Hin. apply in_map_iff. exists y. tauto.
Qed.

Lemma NoDup_map_snoc (A B : Type) (f : A -> B) (l : list A) (x : A) :
  NoDup (map f l) -> ~ In (f x) (map f l) -> NoDup (map f (l ++ [x])).
Proof.
  induction l as [| a l IH]; simpl; intros Hnd Hnotin.
  - constructor; [intros [] | constructor].
  - inversion Hnd as [| ? ? Ha Hl]; subst.
    constructor.
    + rewrite map_app, in_app_iff. simpl. intros [Hin | [Heq | []]]; [tauto |].
      apply Hnotin. left. congruence.
    + apply IH; auto.
Qed.

Lemma filter_nil_iff (A : Type) (p : A -> bool) (l : list A) :
  filter p l = [] <-> forall x, In x l -> p x = false.
Proof.
  induction l as [| a l IH]; simpl.
  - split; [intros _ x [] | reflexivity].
  - destruct (p a) eqn:E.
    + split; [discriminate |]. intros H. rewrite (H a (or_introl eq_refl)) in E.
      discriminate.
    + rewrite IH. split.
      * intros H x [-> | Hin]; auto.
      * intros H x Hin. apply H. now right.
Qed.

(** In a list whose images under [f] are pairwise distinct, the elements
    with a given image form a list of length at most one, and exactly one
    when such an element exists. *)
Lemma filter_unique (A : Type) (f : A -> Z) (l : list A) (x : A) :
  NoDup (map f l) -> In x l ->
  filter (fun y => (f y =? f x)%Z) l = [x].
Proof.
  induction l as [| a l IH]; simpl; intros Hnd Hin; [contradiction |].
  inversion Hnd as [| ? ? Ha Hl]; subst.
  destruct Hin as [-> | Hin].
  - rewrite Z.eqb_refl. f_equal.
    apply filter_nil_iff. intros y Hy.
    apply Z.eqb_neq. intros Heq. apply Ha. rewrite <- Heq.
    now apply in_map.
  - destruct (Z.eqb_spec (f a) (f x)) as [Heq | Hne].
    + exfalso. apply Ha. rewrite Heq. now apply in_map.
    + now apply IH.
Qed.

Lemma NoDup_map_inj (A B : Type) (f : A -> B) (l : list A) (a b : A) :
  NoDup (map f l) -> In a l -> In b l -> f a = f b -> a = b.
Proof.
  induction l as [| x l IH]; simpl; intros Hnd Ha Hb Heq; [contradiction |].
  inversion Hnd as [| ? ? Hx Hl]; subst.
  destruct Ha as [-> | Ha], Hb as [-> | Hb]; auto.
  - exfalso. apply Hx. rewrite Heq. now apply in_map.
  - exfalso. apply Hx. rewrite <- Heq. now apply in_map.
Qed.

End ListFacts.

(** ** The storage engine *)
Module SqliteFacts.

Import Sqlite ListFacts.

Section Engine.
Context {S : Schema}.

Lemma key_eqb_refl (k : key) : key_eqb k k = true.
Proof. destruct (key_eqb_spec k k); congruence. Qed.

Lemma max_rowid_ge (rs : list row) (r : row) :
  In r rs -> (id r <= max_rowid rs)%Z.
Proof.
  unfold max_rowid.
  induction rs as [| a rs IH]; simpl; intros Hin; [contradiction |].
  destruct Hin as [-> | Hin]; [lia |].
  specialize (IH Hin). lia.
Qed.

Lemma next_rowid_fresh (t : table) (r : row) :
  In r (rows t) -> (id r < next_rowid t)%Z.
Proof.
  intros Hin. apply max_rowid_ge in Hin. unfold next_rowid. lia.
Qed.

Lemma next_rowid_above_sequence (t : table) :
  (sqlite_sequence t < next_rowid t)%Z.
Proof. unfold next_rowid. lia. Qed.

(** What the delete triggers of the replaced rows leave of the index. *)
Lemma In_after_delete_triggers (victims : list row) (ix : list fts_row) (x : fts_row) :
  In x (fold_left (fun ix old => trigger_ad old ix) victims ix) <->
  In x ix /\ forall v, In v victims -> rowid x <> id v.
Proof.
  revert ix. induction victims as [| v vs IH]; simpl; intros ix.
  - split; [intros H; split; [exact H | intros v []] | tauto].
  - rewrite IH. unfold trigger_ad. rewrite filter_In, negb_true_iff, Z.eqb_neq.
    split.
    + intros [[Hin Hne] Hall]. split; [exact Hin |].
      intros w [<- | Hw]; auto.
    + intros [Hin Hall]. repeat split; auto.
Qed.

(** The index after the statement, whatever the connection: a part of
    the old index followed by the new row's entry. *)
Lemma fts_insert_or_replace (cn : connection) (c : cols) (t : table) :
  fts (insert_or_replace cn c t) =
  surviving_index cn c t
  ++ [ {| rowid := next_rowid t; document := fts_cols c |} ].
Proof. reflexivity. Qed.

Lemma surviving_index_incl (cn : connection) (c : cols) (t : table) (x : fts_row) :
  In x (surviving_index cn c t) -> In x (fts t).
Proof.
  unfold surviving_index. destruct (recursive_triggers cn); auto.
  intros H. now apply In_after_delete_triggers in H.
Qed.

Lemma rows_insert_or_replace (cn : connection) (c : cols) (t : table) :
  rows (insert_or_replace cn c t) =
  filter (fun r => negb (conflicts c r)) (rows t)
  ++ [ {| id := next_rowid t; fields := c |} ].
Proof. reflexivity. Qed.

(** After the statement the key is carried by the new row and by no
    other: the UNIQUE constraint at work. *)
Lemma rows_with_key_after (cn : connection) (c : cols) (t : table) :
  rows_with_key (unique_key c) (insert_or_replace cn c t) =
  [ {| id := next_rowid t; fields := c |} ].
Proof.
  unfold rows_with_key. rewrite rows_insert_or_replace, filter_app. simpl.
  rewrite key_eqb_refl.
  replace (filter _ (filter _ (rows t))) with (@nil row); [reflexivity |].
  symmetry. apply filter_nil_iff. intros x Hx.
  apply filter_In in Hx. destruct Hx as [_ Hx].
  apply negb_true_iff in Hx. exact Hx.
Qed.

Lemma surviving_index_NoDup (cn : connection) (c : cols) (t : table) :
  NoDup (map rowid (fts t)) -> NoDup (map rowid (surviving_index cn c t)).
Proof.
  unfold surviving_index. destruct (recursive_triggers cn); auto.
  generalize (filter (conflicts c) (rows t)) as victims.
  generalize (fts t) as ix.
  intros ix victims. revert ix.
  induction victims as [| v vs IH]; simpl; intros ix H; auto.
  apply IH. unfold trigger_ad. now apply NoDup_map_filter.
Qed.

Theorem insert_or_replace_wf (cn : connection) (c : cols) (t : table) :
  wf t -> wf (insert_or_replace cn c t).
Proof.
  intros [Hids Hkeys Hseq Hfseq Hfids Hnn].
  pose proof (next_rowid_above_sequence t) as Hnext.
  constructor.
  - rewrite rows_insert_or_replace. apply NoDup_map_snoc.
    + now apply NoDup_map_filter.
    + simpl. intros Hin. apply in_map_iff in Hin. destruct Hin as [r [Hr Hin]].
      apply filter_In in Hin. destruct Hin as [Hin _].
      apply next_rowid_fresh in Hin. lia.
  - rewrite rows_insert_or_replace.
    apply (NoDup_map_snoc (fun r => unique_key (fields r))).
    + now apply NoDup_map_filter.
    + simpl. intros Hin. apply in_map_iff in Hin. destruct Hin as [r [Hr Hin]].
      apply filter_In in Hin. destruct Hin as [_ Hc].
      apply negb_true_iff in Hc. unfold conflicts in Hc.
      rewrite Hr, key_eqb_refl in Hc. discriminate.
  - rewrite rows_insert_or_replace. apply Forall_app. split.
    + apply Forall_forall. intros r Hr. apply filter_In in Hr. destruct Hr as [Hr _].
      rewrite Forall_forall in Hseq. specialize (Hseq r Hr). simpl. lia.
    + constructor; [simpl; lia | constructor].
  - rewrite fts_insert_or_replace. apply Forall_app. split.
    + apply Forall_forall. intros x Hx. apply surviving_index_incl in Hx.
      rewrite Forall_forall in Hfseq. specialize (Hfseq x Hx). simpl. lia.
    + constructor; [simpl; lia | constructor].
  - rewrite fts_insert_or_replace. apply NoDup_map_snoc.
    + now apply surviving_index_NoDup.
    + simpl. intros Hin. apply in_map_iff in Hin. destruct Hin as [x [Hx Hin]].
      apply surviving_index_incl in Hin.
      rewrite Forall_forall in Hfseq. specialize (Hfseq x Hin). lia.
  - simpl. lia.
Qed.

(** Whatever the connection, the statement leaves every live row with
    an index row built from its own columns. *)
Theorem insert_or_replace_index_matches (cn : connection) (c : cols) (t : table) :
  wf t -> index_matches t -> index_matches (insert_or_replace cn c t).
Proof.
  intros Hwf Hm r Hin.
  rewrite rows_insert_or_replace in Hin. rewrite fts_insert_or_replace.
  apply in_app_iff in Hin. apply in_app_iff.
  destruct Hin as [Hin | [<- | []]]; [left | right; left; reflexivity].
  apply filter_In in Hin. destruct Hin as [Hin Hc].
  unfold surviving_index. destruct (recursive_triggers cn); [| now apply Hm].
  apply In_after_delete_triggers. split; [now apply Hm |].
  simpl. intros v Hv Heq. apply filter_In in Hv. destruct Hv as [Hv Hcv].
  assert (r = v) by (eapply NoDup_map_inj; eauto using wf_ids).
  subst v. rewrite Hcv in Hc. discriminate.
Qed.

(** With recursive triggers enabled the delete trigger runs for the
    replaced row, and no index row outlives its primary row. *)
Theorem insert_or_replace_index_live (cn : connection) (c : cols) (t : table) :
  recursive_triggers cn = true ->
  index_live t -> index_live (insert_or_replace cn c t).
Proof.
  intros Hrt Hl x Hin.
  rewrite fts_insert_or_replace in Hin. rewrite rows_insert_or_replace.
  apply in_app_iff in Hin. destruct Hin as [Hin | [<- | []]].
  - unfold surviving_index in Hin. rewrite Hrt in Hin.
    apply In_after_delete_triggers in Hin. destruct Hin as [Hin Hv].
    destruct (Hl x Hin) as [r [Hr Hid]].
    exists r. split; [| exact Hid].
    apply in_app_iff. left. apply filter_In. split; [exact Hr |].
    destruct (conflicts c r) eqn:E; [| reflexivity].
    exfalso. apply (Hv r); [| now symmetry].
    apply filter_In. now split.
  - eexists. split; [apply in_app_iff; right; left; reflexivity | reflexivity].
Qed.

(** On a connection opened with the defaults the row that REPLACE
    deletes keeps its index row, which then has no primary row. *)
Theorem replace_leaves_stale_row (c : cols) (t : table) (v : row) :
  wf t -> index_matches t ->
  In v (rows t) -> conflicts c v = true ->
  In {| rowid := id v; document := fts_cols (fields v) |} (fts (upsert c t))
  /\ forall r, In r (rows (upsert c t)) -> id r <> id v.
Proof.
  intros Hwf Hm Hv Hc. unfold upsert. split.
  - rewrite fts_insert_or_replace. apply in_app_iff. left. now apply Hm.
  - intros r Hr Heq. rewrite rows_insert_or_replace in Hr.
    apply in_app_iff in Hr. destruct Hr as [Hr | [<- | []]].
    + apply filter_In in Hr. destruct Hr as [Hr Hcr].
      assert (r = v) by (eapply NoDup_map_inj; eauto using wf_ids).
      subst r. rewrite Hc in Hcr. discriminate.
    + simpl in Heq. apply next_rowid_fresh in Hv. lia.
Qed.

(** The executable checks agree with the invariant. *)
Lemma in_sync_of_invariant (t : table) :
  wf t -> index_matches t -> index_live t -> in_sync t = true.
Proof.
  intros Hwf Hm Hl. unfold in_sync. apply andb_true_iff. split.
  - apply forallb_forall. intros r Hr. apply Nat.eqb_eq.
    unfold fts_with_rowid.
    pose proof (filter_unique rowid (fts t)
                  {| rowid := id r; document := fts_cols (fields r) |}
                  (wf_fts_ids Hwf) (Hm r Hr)) as H.
    simpl in H. rewrite H. reflexivity.
  - apply forallb_forall. intros x Hx. apply existsb_exists.
    destruct (Hl x Hx) as [r [Hr Hid]]. exists r. split; [exact Hr |].
    now apply Z.eqb_eq.
Qed.

Lemma out_of_sync_of_stale (t : table) (x : fts_row) :
  In x (fts t) -> (forall r, In r (rows t) -> id r <> rowid x) ->
  in_sync t = false.
Proof.
  intros Hx Hnone. unfold in_sync. apply andb_false_iff. right.
  destruct (every_index_row_live t) eqn:E; [| reflexivity].
  unfold every_index_row_live in E. rewrite forallb_forall in E.
  specialize (E x Hx). apply existsb_exists in E. destruct E as [r [Hr Hid]].
  apply Z.eqb_eq in Hid. now apply Hnone in Hr.
Qed.

(** Both directions of the invariant survive a statement run with
    recursive triggers on. *)
Corollary insert_or_replace_in_sync (cn : connection) (c : cols) (t : table) :
  recursive_triggers cn = true ->
  wf t -> index_matches t -> index_live t ->
  in_sync (insert_or_replace cn c t) = true.
Proof.
  intros Hrt Hwf Hm Hl. apply in_sync_of_invariant.
  - now apply insert_or_replace_wf.
  - now apply insert_or_replace_index_matches.
  - now apply insert_or_replace_index_live.
Qed.

(** An upsert that meets its key in the table breaks the invariant. *)
Corollary upsert_existing_out_of_sync (c : cols) (t : table) (v : row) :
  wf t -> index_matches t ->
  In v (rows t) -> conflicts c v = true ->
  in_sync (upsert c t) = false.
Proof.
  intros Hwf Hm Hv Hc.
  destruct (@replace_leaves_stale_row c t v Hwf Hm Hv Hc) as [Hin Hnone].
  eapply out_of_sync_of_stale; [exact Hin | exact Hnone].
Qed.

Lemma empty_table_wf : wf empty_table.
Proof. constructor; simpl; try constructor; lia. Qed.

(** On every store the scrapers can produce, each live primary row has
    exactly one index row, built from its columns. *)
Theorem reachable_invariant (t : table) :
  reachable t -> wf t /\ index_matches t.
Proof.
  induction 1 as [| c t Hr [Hwf Hm]].
  - split; [exact empty_table_wf | intros r []].
  - split; [now apply insert_or_replace_wf |
            now apply insert_or_replace_index_matches].
Qed.

Corollary reachable_every_row_indexed (t : table) :
  reachable t -> every_row_indexed t = true.
Proof.
  intros Hr. destruct (reachable_invariant Hr) as [Hwf Hm].
  apply forallb_forall. intros r Hin. apply Nat.eqb_eq.
  unfold fts_with_rowid.
  pose proof (filter_unique rowid (fts t)
                {| rowid := id r; document := fts_cols (fields r) |}
                (wf_fts_ids Hwf) (Hm r Hin)) as H.
  simpl in H. rewrite H. reflexivity.
Qed.

(** The first insertion of a key keeps a store in sync. *)
Theorem upsert_fresh_index_live (c : cols) (t : table) :
  (forall r, In r (rows t) -> conflicts c r = false) ->
  index_live t -> index_live (upsert c t).
Proof.
  intros Hfresh Hl x Hin. unfold upsert in *.
  rewrite fts_insert_or_replace in Hin. rewrite rows_insert_or_replace.
  apply in_app_iff in Hin. destruct Hin as [Hin | [<- | []]].
  - simpl in Hin. destruct (Hl x Hin) as [r [Hr Hid]].
    exists r. split; [| exact Hid].
    apply in_app_iff. left. apply filter_In. split; [exact Hr |].
    now rewrite (Hfresh r Hr).
  - eexists. split; [apply in_app_iff; right; left; reflexivity | reflexivity].
Qed.

End Engine.

End SqliteFacts.

(** ** The write path of the scrapers against the index invariant *)
Module StoreFacts.

Import Sqlite Schema Writer SqliteFacts.
Open Scope string_scope.

Section AnyFamily.
Context {S : Schema}.

Lemma max_rowid_le (rs : list row) (b : Z) :
  (0 <= b)%Z -> (forall r, In r rs -> (id r <= b)%Z) -> (max_rowid rs <= b)%Z.
Proof.
  unfold max_rowid. induction rs as [| a rs IH]; simpl; intros Hb H; [lia |].
  specialize (IH Hb (fun r Hr => H r (or_intror Hr))).
  specialize (H a (or_introl eq_refl)). lia.
Qed.

(** AUTOINCREMENT hands out consecutive rowids to consecutive writes. *)
Lemma next_rowid_after (cn : connection) (c : cols) (t : table) :
  (0 <= sqlite_sequence t)%Z ->
  next_rowid (insert_or_replace cn c t) = (next_rowid t + 1)%Z.
Proof.
  intros Hnn. unfold next_rowid at 1. simpl sqlite_sequence.
  assert (max_rowid (rows (insert_or_replace cn c t)) <= next_rowid t)%Z as H.
  { apply max_rowid_le.
    - unfold next_rowid. lia.
    - intros r Hr. rewrite rows_insert_or_replace in Hr.
      apply in_app_iff in Hr. destruct Hr as [Hr | [<- | []]]; [| simpl; lia].
      apply filter_In in Hr. destruct Hr as [Hr _].
      apply next_rowid_fresh in Hr. lia. }
  lia.
Qed.

(** Two upserts of one record, on any store: the index gains two rows
    that carry the same document under consecutive rowids, and the
    primary table holds the second row only. *)
Theorem upsert_twice (c : cols) (t : table) :
  (0 <= sqlite_sequence t)%Z ->
  let n := next_rowid t in
  fts (upsert c (upsert c t)) =
    (fts t ++ [ {| rowid := n; document := fts_cols c |};
                {| rowid := (n + 1)%Z; document := fts_cols c |} ])%list
  /\ rows_with_key (unique_key c) (upsert c (upsert c t)) =
       [ {| id := (n + 1)%Z; fields := c |} ].
Proof.
  intros Hnn n. unfold upsert. split.
  - rewrite fts_insert_or_replace. unfold surviving_index at 1. simpl recursive_triggers.
    cbv iota. rewrite fts_insert_or_replace. unfold surviving_index. simpl recursive_triggers.
    cbv iota. rewrite next_rowid_after by exact Hnn.
    rewrite <- app_assoc. reflexivity.
  - rewrite rows_with_key_after, next_rowid_after by exact Hnn. reflexivity.
Qed.
End AnyFamily.

(** Re-ingesting a rule overwrites its primary row: afterwards the key
    is carried by exactly one primary row, holding the new text. *)
Theorem reingest_overwrites (now ruleSet ruleNumber ruleName fullText : string)
    (t : table (S := court_rules)) :
  map (fun r : court_rules_row => CourtRules.full_text (fields r))
      (primary_rows_for ruleSet ruleNumber
         (court_rule_insertStmt now ruleSet ruleNumber ruleName fullText t))
  = [fullText].
Proof.
  unfold primary_rows_for, court_rule_insertStmt, upsert.
  pose proof (rows_with_key_after (S := court_rules) default_connection
                {| CourtRules.rule_set := ruleSet;
                   CourtRules.rule_number := ruleNumber;
                   CourtRules.rule_name := Some ruleName;
                   CourtRules.full_text := fullText;
                   CourtRules.effective_date := None;
                   CourtRules.created_at := now;
                   CourtRules.updated_at := now |} t) as H.
  simpl in H. unfold CourtRules.unique_key in H. simpl in H.
  rewrite H. reflexivity.
Qed.

(** The same for a statute section, keyed by its citation: the store is
    in sync after the first ingestion and not after the second. *)
Example rcw_reingest_out_of_sync :
  let ingest body :=
    rcw_insertStmt "2024-01-01 00:00:00" "46.61.502" "46" "46.61" "502"
      "Motor Vehicles" "Rules of the Road" "Driving under the influence"
      body None None in
  in_sync (S := rcw) (ingest "text" empty_table) = true
  /\ in_sync (S := rcw) (ingest "amended text" (ingest "text" empty_table)) = false.
Proof. vm_compute. split; reflexivity. Qed.

(** The example store was filled by first insertions only, and is in
    sync. *)
Example fixture_in_sync :
  in_sync Fixture.statutes = true /\ in_sync Fixture.rules = true
  /\ reachable Fixture.statutes /\ reachable Fixture.rules.
Proof.
  repeat split; try (vm_compute; reflexivity);
    unfold Fixture.statutes, Fixture.rules, rcw_insertStmt, court_rule_insertStmt;
    repeat apply reachable_upsert; apply reachable_empty.
Qed.

(** C1. Every upsert changes the primary row and its index row together,
    so that afterwards every live primary row has exactly one index row
    of its identity and every index row has a live primary row.

    The code at the failing input: rule CRLJ 1.1 is ingested, then
    ingested again with updated body text, through the scrapers'
    [INSERT OR REPLACE] statement on a default connection.  After the
    first statement the store is in sync.  After the second the primary
    table holds the one row with rowid 2, while the index holds rowids 1
    and 2: the index row of the replaced primary row was not removed, and
    it has no primary row. *)
Theorem C1_reingest_leaves_stale_index_row :
  let t1 := court_rule_insertStmt "2024-01-01 00:00:00"
              "CRLJ" "1.1" "Scope" "old body" empty_table in
  let t2 := court_rule_insertStmt "2024-02-01 00:00:00"
              "CRLJ" "1.1" "Scope" "new body" t1 in
  in_sync t1 = true
  /\ in_sync t2 = false
  /\ map id (rows t2) = [2%Z]
  /\ map rowid (fts t2) = [1%Z; 2%Z]
  /\ map rowid (stale t2) = [1%Z].
Proof. vm_compute. repeat split; reflexivity. Qed.

(** C2. Applying the same upsert twice leaves exactly one primary row and
    exactly one matching search-index row for that key.

    The code at the failing input: the same record for CRLJ 1.1 is
    upserted twice into an empty store.  One primary row carries the key
    afterwards, but two index rows do. *)
Theorem C2_same_upsert_twice_duplicates_index_row :
  let put := court_rule_insertStmt "2024-01-01 00:00:00"
               "CRLJ" "1.1" "Scope" "body" in
  let t2 := put (put empty_table) in
  List.length (primary_rows_for "CRLJ" "1.1" t2) = 1%nat
  /\ List.length (index_rows_for "CRLJ" "1.1" t2) = 2%nat.
Proof. vm_compute. split; reflexivity. Qed.

End StoreFacts.

(** ** Sorting *)
Module SortFacts.

Import Lang.

Section Sort.
Variable A : Type.
Variable le : A -> A -> bool.

Lemma insert_perm (x : A) (l : list A) : Permutation (insert le x l) (x :: l).
Proof.
  induction l as [| y l IH]; simpl; [apply Permutation_refl |].
  destruct (le x y); [apply Permutation_refl |].
  eapply perm_trans; [apply perm_skip, IH | apply perm_swap].
Qed.

Lemma sort_perm (l : list A) : Permutation (sort le l) l.
Proof.
  induction l as [| x l IH]; simpl; [constructor |].
  eapply perm_trans; [apply insert_perm | now apply perm_skip].
Qed.

Lemma sort_length (l : list A) : List.length (sort le l) = List.length l.
Proof. apply Permutation_length, sort_perm. Qed.

(** The order the sort establishes, for a comparison [le] that decides
    a total relation [R]. *)
Variable R : A -> A -> Prop.
Hypothesis le_true : forall a b, le a b = true -> R a b.
Hypothesis le_false : forall a b, le a b = false -> R b a.

Lemma insert_Sorted (x : A) (l : list A) :
  Sorted R l -> Sorted R (insert le x l).
Proof.
  induction l as [| y l IH]; simpl; intros Hs.
  - repeat constructor.
  - destruct (le x y) eqn:E.
    + constructor; [exact Hs | constructor; auto].
    + inversion Hs as [| ? ? Hl Hhd]; subst.
      constructor; [auto |].
      destruct l as [| z l]; simpl.
      * constructor. auto.
      * destruct (le x z); constructor; auto.
        inversion Hhd; auto.
Qed.

Lemma sort_Sorted (l : list A) : Sorted R (sort le l).
Proof.
  induction l as [| x l IH]; simpl; [constructor | now apply insert_Sorted].
Qed.
End Sort.


Lemma sql_limit_length (A : Type) (n : Z) (l : list A) :
  (0 <= n)%Z -> (Z.of_nat (List.length (sql_limit n l)) <= n)%Z.
Proof.
  intros Hn. unfold sql_limit.
  destruct (Z.ltb_spec n 0); [lia |].
  rewrite length_firstn. lia.
Qed.

Lemma slice0_nonneg (A : Type) (e : Z) (l : list A) :
  (0 <= e)%Z -> slice0 e l = firstn (Z.to_nat e) l.
Proof.
  intros He. unfold slice0. destruct (Z.ltb_spec e 0); [lia | reflexivity].
Qed.

End SortFacts.

(** ** Ranked search *)
Module SearchFacts.

Import Sqlite Schema LawDatabase Lang SortFacts.
Open Scope string_scope.





Lemma match_query_length {S : Schema} {F : Fts5 S}
    (t : table) (query : string) (lim : Z) :
  (0 <= lim)%Z ->
  (Z.of_nat (List.length (match_query t query lim)) <= lim)%Z.
Proof. intros H. unfold match_query. now apply sql_limit_length. Qed.

Lemma match_query_zero {S : Schema} {F : Fts5 S} (t : table) (query : string) :
  match_query t query 0 = [].
Proof. reflexivity. Qed.

Section Search.
Context {Frcw : Fts5 rcw} {Fwac : Fts5 wac} {Fcourt : Fts5 court_rules}.

Lemma perTypeLimit_nonneg (limit : Z) : (0 <= limit)%Z -> (0 <= perTypeLimit limit)%Z.
Proof. intros H. unfold perTypeLimit. apply Z.div_pos; lia. Qed.

Lemma rcwResults_length (d : database) (query : string) (limit : Z) :
  (0 <= limit)%Z ->
  (Z.of_nat (List.length (rcwResults d query limit)) <= perTypeLimit limit)%Z.
Proof.
  intros H. unfold rcwResults. rewrite length_map.
  now apply match_query_length, perTypeLimit_nonneg.
Qed.

Lemma wacResults_length (d : database) (query : string) (limit : Z) :
  (0 <= limit)%Z ->
  (Z.of_nat (List.length (wacResults d query limit)) <= perTypeLimit limit)%Z.
Proof.
  intros H. unfold wacResults. rewrite length_map.
  now apply match_query_length, perTypeLimit_nonneg.
Qed.

Lemma courtResults_length (d : database) (query : string) (limit : Z) :
  (0 <= limit)%Z ->
  (Z.of_nat (List.length (courtResults d query limit)) <= perTypeLimit limit)%Z.
Proof.
  intros H. unfold courtResults. destruct (court_rules_table d) as [t |].
  - rewrite length_map. now apply match_query_length, perTypeLimit_nonneg.
  - simpl. now apply perTypeLimit_nonneg.
Qed.


(** Three caps of [floor(limit / 3)] never add up to more than [limit]:
    for a limit that is not negative the final [slice] removes nothing. *)
Lemma search_slice_keeps_all (d : database) (query : string) (limit : Z) :
  (0 <= limit)%Z ->
  Permutation (searchLaws d query limit)
    (rcwResults d query limit ++ wacResults d query limit
     ++ courtResults d query limit)%list.
Proof.
  intros Hlimit.
  pose proof (rcwResults_length d query Hlimit) as H1.
  pose proof (wacResults_length d query Hlimit) as H2.
  pose proof (courtResults_length d query Hlimit) as H3.
  unfold perTypeLimit in H1, H2, H3.
  unfold searchLaws. rewrite slice0_nonneg by exact Hlimit.
  rewrite firstn_all2; [apply sort_perm |].
  rewrite sort_length, !length_app.
  pose proof (Z.mul_div_le limit 3 ltac:(lia)). lia.
Qed.

(** C10. With a requested limit of 1 or 2 the per-family cap is 0, each
    family's query runs with LIMIT 0, and the search returns the empty
    list whatever the store holds. *)
Theorem C10_limit_below_three_returns_nothing (d : database) (query : string) :
  perTypeLimit 1 = 0%Z /\ perTypeLimit 2 = 0%Z
  /\ searchLaws d query 1 = [] /\ searchLaws d query 2 = [].
Proof.
  assert (forall limit, perTypeLimit limit = 0%Z ->
            rcwResults d query limit = [] /\ wacResults d query limit = []
            /\ courtResults d query limit = []) as Hempty.
  { intros limit H. unfold rcwResults, wacResults, courtResults. rewrite H.
    rewrite !match_query_zero. destruct (court_rules_table d); [| auto].
    rewrite match_query_zero. auto. }
  assert (forall limit, perTypeLimit limit = 0%Z -> searchLaws d query limit = [])
    as Hsearch.
  { intros limit H. destruct (Hempty limit H) as [H1 [H2 H3]].
    unfold searchLaws. rewrite H1, H2, H3. simpl.
    unfold slice0. destruct (limit <? 0)%Z; apply firstn_nil. }
  repeat split; try reflexivity; apply Hsearch; reflexivity.
Qed.
End Search.

Import Fixture.



End SearchFacts.

(** ** Exact lookup of a court rule *)
Module LookupFacts.

Import Sqlite Schema LawDatabase Lang.
Open Scope string_scope.

(** The result of [getCourtRule], by cases on the exact probe. *)
Lemma getCourtRule_unfold (t : table (S := court_rules)) (rs rn : string) :
  getCourtRule t rs rn =
  match court_rule_get t rs rn with
  | Some r => Some r
  | None => if includes "." rn then None else court_rule_get t rs (rn ++ ".0")
  end.
Proof.
  unfold getCourtRule, getCourtRule_probes.
  destruct (court_rule_get t rs rn); [reflexivity |].
  destruct (includes "." rn); reflexivity.
Qed.

(** The row a successful probe returns is a row of the table with the
    key that was asked for. *)
Lemma court_rule_get_sound (t : table (S := court_rules)) (rs rn : string) (r : CourtRule) :
  court_rule_get t rs rn = Some r ->
  ruleSet r = rs /\ ruleNumber r = rn
  /\ exists row : court_rules_row, In row (rows t)
       /\ CourtRules.rule_set (fields row) = rs
       /\ CourtRules.rule_number (fields row) = rn
       /\ CourtRules.full_text (fields row) = fullText r.
Proof.
  unfold court_rule_get. intros H.
  match type of H with
  | option_map _ ?f = _ => destruct f as [row |] eqn:E; [| discriminate]
  end.
  apply find_some in E. destruct E as [Hin Hk].
  apply andb_true_iff in Hk. destruct Hk as [H1 H2].
  apply String.eqb_eq in H1. apply String.eqb_eq in H2.
  injection H as <-. simpl. repeat split; auto.
  exists row. auto.
Qed.

(** A key that some row carries is found. *)
Lemma court_rule_get_complete (t : table (S := court_rules)) (row : court_rules_row) :
  In row (rows t) ->
  court_rule_get t (CourtRules.rule_set (fields row))
                   (CourtRules.rule_number (fields row)) <> None.
Proof.
  intros Hin H. unfold court_rule_get in H.
  match type of H with
  | option_map _ ?f = _ => destruct f eqn:E; [discriminate |]
  end.
  apply (find_none _ _ E) in Hin. simpl in Hin.
  rewrite !String.eqb_refl in Hin. discriminate.
Qed.



(** The documented use: rule 60 is stored as 60.0 and found under both
    spellings. *)
Example getCourtRule_60 :
  option_map ruleNumber (getCourtRule Fixture.rules "CRLJ" "60") = Some "60.0"
  /\ option_map ruleNumber (getCourtRule Fixture.rules "CRLJ" "60.0") = Some "60.0"
  /\ getCourtRule_probes Fixture.rules "CRLJ" "7" = (["7"; "7.0"], None).
Proof. vm_compute. repeat split; reflexivity. Qed.

End LookupFacts.

(** ** Hierarchical browsing *)
Module BrowseFacts.

Import Sqlite Schema LawDatabase Lang SortFacts.
Open Scope string_scope.

Lemma Sorted_map (A B : Type) (f : A -> B) (R : B -> B -> Prop) (l : list A) :
  Sorted (fun a b => R (f a) (f b)) l -> Sorted R (map f l).
Proof.
  induction 1 as [| a l Hs IH Hhd]; simpl; constructor; auto.
  destruct Hhd; simpl; constructor; auto.
Qed.

Lemma leb_false_flip (a b : string) : String.leb a b = false -> String.leb b a = true.
Proof. destruct (String.leb_total a b) as [H | H]; congruence. Qed.

(** Titles come out in ascending order of the integer their number
    starts with: [CAST(title_num AS INTEGER)] is the first sort key. *)
Theorem listRCWTitles_numeric (t : table (S := rcw)) :
  StronglySorted
    (fun a b => (cast_integer (titleNum a) <= cast_integer (titleNum b))%Z)
    (listRCWTitles t).
Proof.
  apply Sorted_StronglySorted.
  - intros a b c Hab Hbc. lia.
  - unfold listRCWTitles. apply Sorted_map. simpl.
    apply sort_Sorted.
    + intros a b H. apply orb_true_iff in H. destruct H as [H | H].
      * apply Z.ltb_lt in H. lia.
      * apply andb_true_iff in H. destruct H as [H _]. apply Z.eqb_eq in H. lia.
    + intros a b H. apply orb_false_iff in H. destruct H as [H1 H2].
      apply Z.ltb_ge in H1. exact H1.
Qed.

(** Rules of one rule set come out in ascending order of
    (major, minor) read as integers. *)
Theorem listCourtRules_numeric (t : table (S := court_rules)) (rs : string) :
  rs <> EmptyString ->
  StronglySorted
    (fun a b =>
       (rule_major (l_ruleNumber a) < rule_major (l_ruleNumber b))%Z
       \/ (rule_major (l_ruleNumber a) = rule_major (l_ruleNumber b)
           /\ (rule_minor (l_ruleNumber a) <= rule_minor (l_ruleNumber b))%Z))
    (listCourtRules t (Some rs)).
Proof.
  intros Hrs. apply Sorted_StronglySorted.
  - intros a b c Hab Hbc. lia.
  - unfold listCourtRules. simpl truthy.
    destruct (String.eqb_spec rs EmptyString) as [-> | _]; [contradiction |].
    simpl negb. cbv iota. apply Sorted_map. simpl.
    apply sort_Sorted.
    + intros a b H. unfold rule_order in H.
      apply orb_true_iff in H. destruct H as [H | H].
      * apply Z.ltb_lt in H. now left.
      * apply andb_true_iff in H. destruct H as [H1 H2].
        apply Z.eqb_eq in H1. apply Z.leb_le in H2. now right.
    + intros a b H. unfold rule_order in H.
      apply orb_false_iff in H. destruct H as [H1 H2].
      apply Z.ltb_ge in H1. apply andb_false_iff in H2.
      destruct H2 as [H2 | H2].
      * apply Z.eqb_neq in H2. left. lia.
      * apply Z.leb_gt in H2.
        destruct (Z.eq_dec (rule_major (CourtRules.rule_number (fields a)))
                           (rule_major (CourtRules.rule_number (fields b))));
          [right; lia | left; lia].
Qed.

(** Chapters of a title and sections of a chapter come out in the byte
    order of their identifiers: each is at most its successor as text. *)
Theorem listRCWChapters_text_order (t : table (S := rcw)) (title : string) :
  Sorted (fun a b => String.leb (chapterNum a) (chapterNum b) = true)
         (listRCWChapters t title).
Proof.
  unfold listRCWChapters. apply Sorted_map. simpl.
  apply sort_Sorted; [auto | intros a b; apply leb_false_flip].
Qed.

Theorem listRCWSections_text_order (t : table (S := rcw)) (chapter : string) :
  Sorted (fun a b => String.leb (sectionCitation a) (sectionCitation b) = true)
         (listRCWSections t chapter).
Proof.
  unfold listRCWSections. apply Sorted_map. simpl.
  apply sort_Sorted; [auto | intros a b; apply leb_false_flip].
Qed.

(** C4. Hierarchical enumeration returns children in ascending numeric
    order of their parsed integer segments, not in text order.

    The code at the failing input: the example store holds chapters
    9.41 and 9.100 of title 9, and sections 46.61.506 and 46.61.5055 of
    chapter 46.61.  Titles are listed numerically (9 before 46), but
    chapter 9.100 is listed before 9.41 and section 46.61.5055 before
    46.61.506, which is text order and not the order of the integer
    segments. *)
Theorem C4_chapters_and_sections_listed_in_text_order :
  map titleNum (listRCWTitles Fixture.statutes) = ["9"; "46"]
  /\ map chapterNum (listRCWChapters Fixture.statutes "9") = ["9.100"; "9.41"]
  /\ ascending_numeric (map chapterNum (listRCWChapters Fixture.statutes "9")) = false
  /\ ascending_numeric ["9.41"; "9.100"] = true
  /\ map sectionCitation (listRCWSections Fixture.statutes "46.61")
     = ["46.61.5055"; "46.61.506"]
  /\ ascending_numeric
       (map sectionCitation (listRCWSections Fixture.statutes "46.61")) = false
  /\ ascending_numeric ["46.61.506"; "46.61.5055"] = true.
Proof. vm_compute. repeat split; reflexivity. Qed.

End BrowseFacts.

(** ** Discovery: which of several artifacts with one identifier is kept *)
Module DedupFacts.

Import Scraper Lang.
Open Scope string_scope.

(** *** The [find]-guarded push of the PDF scrapers *)

Lemma push_unless_found_unfold (rules : list Rule) (r : Rule) :
  push_unless_found rules r =
  if known (ruleNumber r) rules then rules else (rules ++ [r])%list.
Proof.
  unfold push_unless_found, find_first, known.
  destruct (find _ rules) as [a |] eqn:E.
  - apply find_some in E.
    replace (existsb _ rules) with true; [reflexivity |].
    symmetry. apply existsb_exists. exists a. exact E.
  - replace (existsb _ rules) with false; [reflexivity |].
    symmetry. destruct (existsb _ rules) eqn:X; [| reflexivity].
    apply existsb_exists in X. destruct X as [a [Ha Hk]].
    apply (find_none _ _ E) in Ha. congruence.
Qed.

Lemma known_app (n : string) (l1 l2 : list Rule) :
  known n (l1 ++ l2) = known n l1 || known n l2.
Proof. unfold known. apply existsb_app. Qed.

Lemma known_In (r : Rule) (rules : list Rule) :
  In r rules -> known (ruleNumber r) rules = true.
Proof.
  intros H. apply existsb_exists. exists r. split; [exact H | apply String.eqb_refl].
Qed.

(** A rule is in the list after the loop when it was there before, or
    when its number was not there before and it is the first candidate
    with that number. *)
Lemma fold_push_In (cs : list Rule) (acc : list Rule) (r : Rule) :
  In r (fold_left push_unless_found cs acc) <->
  In r acc
  \/ (known (ruleNumber r) acc = false
      /\ find (fun c => ruleNumber c =? ruleNumber r) cs = Some r).
Proof.
  revert acc. induction cs as [| c cs IH]; intros acc; simpl.
  - split; [auto | intros [H | [_ H]]; [exact H | discriminate]].
  - rewrite IH, push_unless_found_unfold.
    destruct (String.eqb_spec (ruleNumber c) (ruleNumber r)) as [Heq | Hne].
    + destruct (known (ruleNumber c) acc) eqn:K.
      * rewrite Heq in K. rewrite K.
        split; (intros [H | [H _]]; [now left | discriminate]).
      * rewrite Heq in K. rewrite K. rewrite known_app. simpl.
        rewrite Heq, String.eqb_refl, orb_true_r.
        split.
        -- intros [H | [H _]]; [| discriminate].
           apply in_app_iff in H. destruct H as [H | [<- | []]]; [now left |].
           right. split; reflexivity.
        -- intros [H | [_ H]]; left; apply in_app_iff; [now left |].
           injection H as <-. right. now left.
    + destruct (known (ruleNumber c) acc) eqn:K; [reflexivity |].
      rewrite known_app. simpl.
      apply String.eqb_neq in Hne. rewrite Hne. simpl. rewrite orb_false_r.
      apply String.eqb_neq in Hne.
      split.
      * intros [H | H]; [| now right].
        apply in_app_iff in H. destruct H as [H | [<- | []]]; [now left |].
        now contradiction Hne.
      * intros [H | H]; [left; apply in_app_iff; now left | now right].
Qed.

(** The PDF scrapers keep, of the candidates with one rule number, the
    first encountered, and only that one. *)
Theorem discover_keeps_first (cs : list Rule) (r : Rule) :
  In r (discover cs) <->
  find (fun c => ruleNumber c =? ruleNumber r) cs = Some r.
Proof.
  unfold discover. rewrite fold_push_In. simpl.
  split; [intros [[] | [_ H]]; exact H | intros H; right; now split].
Qed.

(** *** The [Map] of the HTML scraper *)

Lemma map_set_keys (V : Type) (k : string) (v : V) (m : list (string * V)) :
  map fst (map_set k v m) =
  if existsb (fun e => fst e =? k) m then map fst m else (map fst m ++ [k])%list.
Proof.
  induction m as [| [k' v'] m IH]; simpl; [reflexivity |].
  destruct (k' =? k); simpl; [reflexivity |].
  rewrite IH. destruct (existsb _ m); reflexivity.
Qed.

Lemma map_set_NoDup (V : Type) (k : string) (v : V) (m : list (string * V)) :
  NoDup (map fst m) -> NoDup (map fst (map_set k v m)).
Proof.
  intros H. rewrite map_set_keys.
  destruct (existsb _ m) eqn:E; [exact H |].
  change (map fst m ++ [k])%list with (map fst m ++ map fst [(k, v)])%list.
  rewrite <- map_app. apply ListFacts.NoDup_map_snoc; [exact H |].
  simpl. intros Hin. apply in_map_iff in Hin. destruct Hin as [e [He Hin]].
  assert (existsb (fun e => fst e =? k) m = true) as X.
  { apply existsb_exists. exists e. split; [exact Hin | now apply String.eqb_eq]. }
  congruence.
Qed.

Lemma map_set_In (V : Type) (k0 : string) (v0 : V) (m : list (string * V))
    (k : string) (v : V) :
  NoDup (map fst m) ->
  (In (k, v) (map_set k0 v0 m) <->
   (k = k0 /\ v = v0) \/ (k <> k0 /\ In (k, v) m)).
Proof.
  induction m as [| [k' v'] m IH]; simpl; intros Hnd.
  - split.
    + intros [H | []]. injection H as <- <-. now left.
    + intros [[-> ->] | [_ []]]. now left.
  - inversion Hnd as [| ? ? Hk' Hm]; subst.
    destruct (String.eqb_spec k' k0) as [-> | Hne]; simpl.
    + split.
      * intros [H | H]; [injection H as <- <-; now left |].
        right. split; [| now right].
        intros ->. apply Hk'. apply in_map_iff. exists (k0, v). now split.
      * intros [[-> ->] | [Hk [H | H]]]; [now left | | now right].
        injection H as -> _. contradiction.
    + rewrite (IH Hm). split.
      * intros [H | [[-> ->] | [Hk H]]].
        -- injection H as <- <-. right. split; [exact Hne | now left].
        -- now left.
        -- right. split; [exact Hk | now right].
      * intros [[-> ->] | [Hk [H | H]]].
        -- right. now left.
        -- now left.
        -- right. right. now split.
Qed.

Lemma new_Map_snoc (V : Type) (es : list (string * V)) (e : string * V) :
  new_Map (es ++ [e]) = map_set (fst e) (snd e) (new_Map es).
Proof. unfold new_Map. now rewrite fold_left_app. Qed.

Lemma new_Map_NoDup (V : Type) (es : list (string * V)) :
  NoDup (map fst (new_Map es)).
Proof.
  induction es as [| e es IH] using rev_ind; [constructor |].
  rewrite new_Map_snoc. now apply map_set_NoDup.
Qed.

(** An entry is in the map when it is the last one given for its key. *)
Lemma new_Map_In (V : Type) (es : list (string * V)) (k : string) (v : V) :
  In (k, v) (new_Map es) <->
  find (fun e => fst e =? k) (rev es) = Some (k, v).
Proof.
  induction es as [| e es IH] using rev_ind; simpl.
  - split; [intros [] | discriminate].
  - rewrite new_Map_snoc, rev_app_distr. simpl.
    rewrite map_set_In by apply new_Map_NoDup. rewrite IH.
    destruct e as [k0 v0]. simpl.
    destruct (String.eqb_spec k0 k) as [-> | Hne].
    + split.
      * intros [[_ ->] | [H _]]; [reflexivity | contradiction].
      * intros H. injection H as ->. now left.
    + split.
      * intros [[-> _] | [_ H]]; [contradiction | exact H].
      * intros H. right. split; [congruence | exact H].
Qed.

Lemma find_map (A B : Type) (f : A -> B) (p : B -> bool) (l : list A) :
  find p (map f l) = option_map f (find (fun a => p (f a)) l).
Proof.
  induction l as [| a l IH]; simpl; [reflexivity |].
  destruct (p (f a)); [reflexivity | exact IH].
Qed.

(** The HTML scraper keeps, of the rules with one key, the last
    encountered, and only that one. *)
Theorem uniqueRules_keeps_last (rules : list Rule) (r : Rule) :
  In r (uniqueRules rules) <->
  find (fun c => rule_key c =? rule_key r) (rev rules) = Some r.
Proof.
  unfold uniqueRules. rewrite in_map_iff. split.
  - intros [[k r'] [Hr Hin]]. simpl in Hr. subst r'.
    apply new_Map_In in Hin. rewrite <- map_rev, find_map in Hin. simpl in Hin.
    destruct (find (fun a => rule_key a =? k) (rev rules)) as [c |] eqn:E;
      [| discriminate].
    simpl in Hin. injection Hin as Hk Hc. subst c. subst k. exact E.
  - intros H. exists (rule_key r, r). split; [reflexivity |].
    apply new_Map_In. rewrite <- map_rev, find_map. simpl. now rewrite H.
Qed.

(** It keeps the entry at the place of the first one: the keys come
    out in order of first appearance. *)
Example uniqueRules_order :
  let mk n name := {| ruleSet := "IRLJ"; ruleNumber := n; ruleName := name;
                      url := EmptyString |} in
  map ruleName
    (uniqueRules [mk "1.1" "a"; mk "1.2" "b"; mk "1.1" "c"; mk "2.1" "d"])
  = ["c"; "b"; "d"].
Proof. reflexivity. Qed.

(** C6. When several anchors of a listing page normalise to the same
    identifier, only the first encountered is kept, on every listing page
    and for every rule set.

    The code at the failing input: a listing page of IRLJ on which rule
    1.1 is linked twice, with different link texts and targets, and rule
    1.2 once in between.  The PDF scrapers' loop keeps the first link for
    1.1; the HTML scraper's [Map] keeps the last one, its name and its
    address. *)
Theorem C6_html_scraper_keeps_last_duplicate :
  let first :=
    {| ruleSet := "IRLJ"; ruleNumber := "1.1";
       ruleName := "Scope and Purpose of Rules";
       url := "https://www.courts.wa.gov/court_rules/?fa=court_rules.display&set=IRLJ&ruleid=cljirlj1.1" |} in
  let other :=
    {| ruleSet := "IRLJ"; ruleNumber := "1.2";
       ruleName := "Definitions";
       url := "https://www.courts.wa.gov/court_rules/?fa=court_rules.display&set=IRLJ&ruleid=cljirlj1.2" |} in
  let second :=
    {| ruleSet := "IRLJ"; ruleNumber := "1.1";
       ruleName := "Scope (superseded)";
       url := "https://www.courts.wa.gov/court_rules/?fa=court_rules.display&set=IRLJ&ruleid=cljirlj01.1" |} in
  rule_key first = rule_key second
  /\ uniqueRules [first; other; second] = [second; other]
  /\ discover [first; other; second] = [first; other].
Proof. vm_compute. repeat split; reflexivity. Qed.

End DedupFacts.

(** ** Rule numbers from file names *)
Module NormalizeFacts.

Import Scraper Lang.
Open Scope string_scope.

(** RALJ: the rule number is a function of the integer triple the
    fields encode, whatever their padding. *)
Theorem ralj_ruleNumber_by_triple (f1 f2 f3 g1 g2 g3 : string) :
  parseInt f1 = parseInt g1 -> parseInt f2 = parseInt g2 ->
  parseInt f3 = parseInt g3 ->
  ralj_ruleNumber f1 f2 f3 = ralj_ruleNumber g1 g2 g3.
Proof.
  intros H1 H2 H3. unfold ralj_ruleNumber, major_minor. rewrite H1, H2.
  destruct (String.eqb_spec f3 "00") as [-> | _];
    destruct (String.eqb_spec g3 "00") as [-> | _]; simpl negb; cbv iota.
  - reflexivity.
  - rewrite <- H3. reflexivity.
  - rewrite H3. reflexivity.
  - rewrite H3. reflexivity.
Qed.

(** IRLJ and CRLJ: the rule number is a function of (major, minor). *)
Theorem v2_ruleNumber_by_pair (f1 f2 g1 g2 : string) :
  parseInt f1 = parseInt g1 -> parseInt f2 = parseInt g2 ->
  v2_ruleNumber f1 f2 = v2_ruleNumber g1 g2.
Proof. intros H1 H2. unfold v2_ruleNumber, major_minor. now rewrite H1, H2. Qed.

(** RPC: the same holds as long as both file names spell a zero
    sub-part the same way. *)
Theorem rpc_ruleNumber_by_triple (f1 f2 f3 g1 g2 g3 : string) :
  parseInt f1 = parseInt g1 -> parseInt f2 = parseInt g2 ->
  parseInt f3 = parseInt g3 ->
  (f3 =? "00") = (g3 =? "00") ->
  rpc_ruleNumber f1 f2 f3 = rpc_ruleNumber g1 g2 g3.
Proof.
  intros H1 H2 H3 H0. unfold rpc_ruleNumber, major_minor.
  now rewrite H1, H2, H3, H0.
Qed.

Lemma below_100 (P : Z -> bool) :
  forallb (fun k => P (Z.of_nat k)) (seq 0 100) = true ->
  forall n, (0 <= n < 100)%Z -> P n = true.
Proof.
  intros H n Hn. rewrite forallb_forall in H.
  specialize (H (Z.to_nat n)). rewrite Z2Nat.id in H by lia.
  apply H. apply in_seq. lia.
Qed.

(** The published, two-digit spelling of a field reads back as the
    number it stands for, and is "00" only for zero. *)
Lemma parseInt_pad2 (n : Z) : (0 <= n < 100)%Z -> parseInt (pad2 n) = n.
Proof.
  intros Hn. apply Z.eqb_eq.
  apply (below_100 (fun n => (parseInt (pad2 n) =? n)%Z)); [| exact Hn].
  vm_compute. reflexivity.
Qed.

Lemma pad2_zero (n : Z) : (0 <= n < 100)%Z -> (pad2 n =? "00") = (n =? 0)%Z.
Proof.
  intros Hn. apply Bool.eqb_prop.
  apply (below_100 (fun n => Bool.eqb (pad2 n =? "00") (n =? 0)%Z)); [| exact Hn].
  vm_compute. reflexivity.
Qed.

(** On published file names the three schemes read as follows. *)
Theorem published_rule_numbers (major minor sub : Z) :
  (0 <= major < 100)%Z -> (0 <= minor < 100)%Z -> (0 <= sub < 100)%Z ->
  let mm := Z_to_string major ++ "." ++ Z_to_string minor in
  ralj_ruleNumber (pad2 major) (pad2 minor) (pad2 sub)
    = (if (sub =? 0)%Z then mm else mm ++ "." ++ Z_to_string sub)
  /\ rpc_ruleNumber (pad2 major) (pad2 minor) (pad2 sub)
    = (if (sub =? 0)%Z then mm else mm ++ fromCharCode (96 + sub))
  /\ v2_ruleNumber (pad2 major) (pad2 minor) = mm.
Proof.
  intros Ha Hb Hc mm.
  unfold ralj_ruleNumber, rpc_ruleNumber, v2_ruleNumber, major_minor.
  rewrite !parseInt_pad2, pad2_zero by assumption.
  fold mm. repeat split.
  - destruct (Z.eqb_spec sub 0) as [-> | Hne]; simpl negb; cbv iota; [reflexivity |].
    destruct (Z.gtb_spec sub 0); [reflexivity | lia].
  - destruct (Z.eqb_spec sub 0); reflexivity.
Qed.

(** The CRLJ scenario: major 1, minor 1, sub 0 is rule "1.1"; rule 60
    is stored as "60.0". *)
Example crlj_1_1_0 :
  v2_href_ruleNumber ("../court_rules/pdf/CRLJ/" ++ file_name "CLJ_CRLJ_" 1 1 0)
    = Some "1.1"
  /\ v2_href_ruleNumber ("../court_rules/pdf/CRLJ/" ++ file_name "CLJ_CRLJ_" 60 0 0)
    = Some "60.0".
Proof. vm_compute. split; reflexivity. Qed.

(** C7. Two file names that encode the same (major, minor, sub) triple
    of zero-padded integer fields normalise to the same rule number, in
    every rule family whose numbers come from file names.

    The code at the failing input: two RPC file names for the triple
    (1, 7, 0), one with its fields padded to two digits and one with its
    fields padded to three.  The first gives rule number 1.7; the second
    gives 1.7 followed by the character of code 96, because the RPC
    scraper tests the text of the third field against "00" and not its
    value.  The RALJ scraper gives 1.7 for both paddings. *)
Theorem C7_rpc_same_triple_two_rule_numbers :
  let a := "/court_rules/pdf/RPC/GA_RPC_01_07_00.pdf" in
  let b := "/court_rules/pdf/RPC/GA_RPC_001_007_000.pdf" in
  file_triple "GA_RPC_" a = Some (1, 7, 0)%Z
  /\ file_triple "GA_RPC_" b = Some (1, 7, 0)%Z
  /\ rpc_href_ruleNumber a = Some "1.7"
  /\ rpc_href_ruleNumber b = Some ("1.7" ++ fromCharCode 96)
  /\ rpc_href_ruleNumber a <> rpc_href_ruleNumber b
  /\ ralj_href_ruleNumber "../court_rules/pdf/RALJ/CLJ_RALJ_01_07_00.pdf" = Some "1.7"
  /\ ralj_href_ruleNumber "../court_rules/pdf/RALJ/CLJ_RALJ_001_007_000.pdf" = Some "1.7".
Proof. vm_compute. repeat split; try reflexivity. discriminate. Qed.

End NormalizeFacts.

(** ** Locating the rule body in extracted text *)
Module ExtractFacts.

Import Scraper Lang.
Open Scope string_scope.

(** [search] returns -1 or the offset of a match. *)
Lemma search_from_found (at_head : string -> bool) (s : string) (i : Z) :
  (0 <= i)%Z -> search_from at_head s i <> (-1)%Z ->
  (i <= search_from at_head s i)%Z
  /\ at_head (drop (Z.to_nat (search_from at_head s i - i)) s) = true.
Proof.
  revert i. induction s as [| c s IH]; intros i Hi; simpl.
  - destruct (at_head EmptyString) eqn:E; [| congruence].
    intros _. rewrite Z.sub_diag. simpl. split; [lia | exact E].
  - destruct (at_head (String c s)) eqn:E.
    + intros _. rewrite Z.sub_diag. simpl. split; [lia | exact E].
    + intros Hp. destruct (IH (i + 1)%Z ltac:(lia) Hp) as [Hle Hat].
      split; [lia |].
      replace (Z.to_nat (search_from at_head s (i + 1) - i))
        with (S (Z.to_nat (search_from at_head s (i + 1) - (i + 1)))) by lia.
      simpl. exact Hat.
Qed.

(** No position before the one returned matches. *)
Lemma search_from_leftmost (at_head : string -> bool) (s : string) (i : Z) (k : nat) :
  (0 <= i)%Z -> search_from at_head s i <> (-1)%Z ->
  (Z.of_nat k < search_from at_head s i - i)%Z ->
  at_head (drop k s) = false.
Proof.
  revert i k. induction s as [| c s IH]; intros i k Hi; simpl.
  - destruct (at_head EmptyString); [lia | congruence].
  - destruct (at_head (String c s)) eqn:E; [lia |].
    intros Hp Hk. destruct k as [| k]; [exact E |].
    simpl. apply (IH (i + 1)%Z); [lia | exact Hp | lia].
Qed.

(** RALJ and RPC: the text is cut only at a match that lies after
    position 0 and before position 100, and then the result begins with
    the rule heading. *)
Theorem ralj_body_start_near_top (ruleNumber fullText : string) :
  let p := search (heading_at "RALJ" (escape_all ruleNumber)) fullText in
  ((0 < p < 100)%Z
   /\ ralj_body_start ruleNumber fullText = substring_from p fullText
   /\ heading_at "RALJ" (escape_all ruleNumber)
        (ralj_body_start ruleNumber fullText) = true)
  \/ (~ (0 < p < 100)%Z /\ ralj_body_start ruleNumber fullText = fullText).
Proof.
  intros p. unfold ralj_body_start. fold p.
  destruct (Z.gtb_spec p 0) as [Hpos | Hneg]; simpl;
    [destruct (Z.ltb_spec p 100) as [Hlt | Hge] |].
  - left. split; [lia |]. split; [reflexivity |].
    assert (p <> (-1)%Z) as Hfound by lia.
    destruct (@search_from_found (heading_at "RALJ" (escape_all ruleNumber))
                fullText 0%Z (Z.le_refl 0) Hfound) as [_ H].
    rewrite Z.sub_0_r in H. exact H.
  - right. split; [lia | reflexivity].
  - right. split; [lia | reflexivity].
Qed.

Theorem rpc_body_start_near_top (ruleNumber fullText : string) :
  let p := search (heading_at "RPC" (escape_first (list_ascii_of_string ruleNumber)))
                  fullText in
  ((0 < p < 100)%Z
   /\ rpc_body_start ruleNumber fullText = substring_from p fullText)
  \/ (~ (0 < p < 100)%Z /\ rpc_body_start ruleNumber fullText = fullText).
Proof.
  intros p. unfold rpc_body_start. fold p.
  destruct (Z.gtb_spec p 0) as [Hpos | Hneg]; simpl;
    [destruct (Z.ltb_spec p 100) as [Hlt | Hge] |].
  - left. split; [lia | reflexivity].
  - right. split; [lia | reflexivity].
  - right. split; [lia | reflexivity].
Qed.

(** IRLJ and CRLJ: the text is cut at any match after position 0. *)
Theorem v2_body_start_anywhere (ruleSet ruleNumber fullText : string) :
  let p := search (heading_at ruleSet (escape_none ruleNumber)) fullText in
  ((0 < p)%Z
   /\ v2_body_start ruleSet ruleNumber fullText = substring_from p fullText)
  \/ (~ (0 < p)%Z /\ v2_body_start ruleSet ruleNumber fullText = fullText).
Proof.
  intros p. unfold v2_body_start. fold p.
  destruct (Z.gtb_spec p 0) as [Hpos | Hneg].
  - left. split; [lia | reflexivity].
  - right. split; [lia | reflexivity].
Qed.

(** C8. The PDF extractors discard the text before the rule heading only
    when the heading is found after position 0 and within a bounded
    offset from the top; a match further down never cuts the text.

    The code at the failing input: a text of 120 characters of front
    matter followed by the heading.  The IRLJ/CRLJ extractor finds the
    heading at position 121 and discards the 121 characters before it;
    the RALJ extractor, given the same text with its own heading, leaves
    it whole. *)
Theorem C8_v2_extractor_cuts_at_late_match :
  let front := string_of_list_ascii (repeat "."%char 120) in
  let crlj := front ++ " CRLJ 1.1 Scope of rules" in
  let ralj := front ++ " RALJ 1.1 Scope of rules" in
  search (heading_at "CRLJ" (escape_none "1.1")) crlj = 121%Z
  /\ v2_body_start "CRLJ" "1.1" crlj = "CRLJ 1.1 Scope of rules"
  /\ search (heading_at "RALJ" (escape_all "1.1")) ralj = 121%Z
  /\ ralj_body_start "1.1" ralj = ralj.
Proof. vm_compute. repeat split; reflexivity. Qed.

End ExtractFacts.

(** ** The tool-call boundary *)
Module ServerFacts.

Import Lang LawDatabase Server.
Open Scope string_scope.

Section Handler.
Variable toLocaleString : Z -> string.
Variable db : LawDatabaseI.

(** Every arm of the [switch] that returns, returns one text item. *)
Lemma dispatch_returns_text (name : string) (args : arguments) (r : CallToolResult) :
  dispatch toLocaleString db name args = Ok r ->
  exists text, r = text_result text.
Proof.
  unfold dispatch, bind.
  repeat match goal with
         | |- context [if (name =? ?s) then _ else _] => destruct (name =? s)
         end;
    repeat match goal with
           | |- context [match ?x with _ => _ end] => destruct x
           end;
    intros H; try discriminate; injection H as <-; eexists; reflexivity.
Qed.

Lemma dispatch_unknown (name : string) (args : arguments) :
  existsb (String.eqb name) tool_names = false ->
  dispatch toLocaleString db name args = Throw ("Unknown tool: " ++ name).
Proof.
  unfold tool_names. simpl. intros H.
  repeat (apply orb_false_iff in H; destruct H as [?E H]).
  unfold dispatch.
  repeat match goal with
         | E : (name =? ?s) = false |- _ => rewrite E; clear E
         end.
  reflexivity.
Qed.

(** C9. Whatever the tool name, the arguments and the behaviour of the
    database layer, the handler returns: its result is one text item,
    namely what the [switch] arm produced (a found record, a listing,
    or a not-found message), or "Error: " followed by the message of
    whatever was thrown.  An unknown tool name yields the error text
    "Error: Unknown tool: <name>", and a lookup that finds nothing
    yields the not-found text of its tool.  Nothing is thrown past the
    handler. *)
Theorem C9_CallTool_never_throws (name : string) (args : arguments) :
  (exists text, CallTool toLocaleString db name args = Ok (text_result text))
  /\ (forall message,
        dispatch toLocaleString db name args = Throw message ->
        CallTool toLocaleString db name args
        = Ok (text_result ("Error: " ++ message)))
  /\ (existsb (String.eqb name) tool_names = false ->
      CallTool toLocaleString db name args
      = Ok (text_result ("Error: Unknown tool: " ++ name)))
  /\ (db_getRCW db (arg_citation args) = Ok None ->
      CallTool toLocaleString db "get_rcw" args
      = Ok (text_result ("RCW " ++ tpl (arg_citation args)
                         ++ " not found in database.")))
  /\ (db_getWAC db (arg_citation args) = Ok None ->
      CallTool toLocaleString db "get_wac" args
      = Ok (text_result ("WAC " ++ tpl (arg_citation args)
                         ++ " not found in database.")))
  /\ (db_getCourtRule db (arg_ruleSet args) (arg_ruleNumber args) = Ok None ->
      CallTool toLocaleString db "get_court_rule" args
      = Ok (text_result (tpl (arg_ruleSet args) ++ " " ++ tpl (arg_ruleNumber args)
                         ++ " not found in database."))).
Proof.
  repeat split.
  - unfold CallTool, try_catch.
    destruct (dispatch toLocaleString db name args) as [r | message] eqn:E.
    + destruct (dispatch_returns_text name args E) as [text ->]. now exists text.
    + eexists. reflexivity.
  - intros message H. unfold CallTool. now rewrite H.
  - intros H. unfold CallTool. now rewrite (dispatch_unknown name args H).
  - intros H. unfold CallTool, dispatch. simpl. now rewrite H.
  - intros H. unfold CallTool, dispatch. simpl. now rewrite H.
  - intros H. unfold CallTool, dispatch. simpl. now rewrite H.
Qed.
End Handler.

Import Fixture.

(** The handler over the example store: a rule found through the ".0"
    fallback, a citation that is not stored, a tool that does not exist,
    and a call that makes the database layer throw. *)
Example CallTool_examples :
  let db := law_database "cannot bind undefined" store in
  let call name args := CallTool Z_to_string db name args in
  call "get_court_rule"
       {| arg_citation := None; arg_ruleSet := Some "CRLJ";
          arg_ruleNumber := Some "60"; arg_query := None; arg_limit := None;
          arg_titleNum := None; arg_chapterNum := None |}
  = Ok (text_result
          ("# CRLJ 60.0: Relief from judgment" ++ nl ++ nl ++ "## Full Text"
           ++ nl ++ nl ++ "relief" ++ nl ++ nl ++ nl
           ++ "**Last Updated**: 2024-01-01 00:00:00"))
  /\ call "get_rcw"
        {| arg_citation := Some "1.04.010"; arg_ruleSet := None;
           arg_ruleNumber := None; arg_query := None; arg_limit := None;
           arg_titleNum := None; arg_chapterNum := None |}
     = Ok (text_result "RCW 1.04.010 not found in database.")
  /\ call "get_usc" no_arguments
     = Ok (text_result "Error: Unknown tool: get_usc")
  /\ call "get_rcw" no_arguments
     = Ok (text_result "Error: cannot bind undefined").
Proof. vm_compute. repeat split; reflexivity. Qed.

End ServerFacts.

(** From here on every argument of a lemma is written out. *)
Unset Implicit Arguments.

(** ** Ingestion followed by lookup *)
Module IngestFacts.

Import Sqlite Schema Writer LawDatabase Lang SqliteFacts ListFacts.
Open Scope string_scope.

Lemma find_app_cases (A : Type) (p : A -> bool) (l1 l2 : list A) :
  find p (l1 ++ l2)%list =
  match find p l1 with Some x => Some x | None => find p l2 end.
Proof.
  induction l1 as [| a l1 IH]; simpl; [reflexivity |].
  destruct (p a); [reflexivity | exact IH].
Qed.

Lemma find_filter_excluded (A : Type) (p q : A -> bool) (l : list A) :
  (forall x, p x = true -> q x = false) -> find p (filter q l) = None.
Proof.
  intros H. induction l as [| a l IH]; simpl; [reflexivity |].
  destruct (q a) eqn:Q; simpl; [| exact IH].
  destruct (p a) eqn:P; [| exact IH].
  rewrite (H a P) in Q. discriminate.
Qed.

Lemma find_filter_kept (A : Type) (p q : A -> bool) (l : list A) :
  (forall x, p x = true -> q x = true) -> find p (filter q l) = find p l.
Proof.
  intros H. induction l as [| a l IH]; simpl; [reflexivity |].
  destruct (q a) eqn:Q; simpl.
  - destruct (p a); [reflexivity | exact IH].
  - destruct (p a) eqn:P; [| exact IH].
    rewrite (H a P) in Q. discriminate.
Qed.

Section AnyFamily.
Context {S : Schema}.

Lemma key_eqb_true (a b : key) : key_eqb a b = true -> a = b.
Proof. destruct (key_eqb_spec a b); [auto | discriminate]. Qed.

Lemma key_eqb_false (a b : key) : a <> b -> key_eqb a b = false.
Proof. destruct (key_eqb_spec a b); [contradiction | reflexivity]. Qed.

(** The row found under the key just written is the row just written. *)
Lemma find_written (cn : connection) (c : cols) (t : table) :
  find (fun r => key_eqb (unique_key (fields r)) (unique_key c))
       (rows (insert_or_replace cn c t))
  = Some {| id := next_rowid t; fields := c |}.
Proof.
  rewrite rows_insert_or_replace, find_app_cases.
  rewrite find_filter_excluded.
  - simpl. now rewrite key_eqb_refl.
  - intros x Hx. unfold conflicts. now rewrite Hx.
Qed.

(** Under any other key the statement changes nothing. *)
Lemma find_other (cn : connection) (c : cols) (t : table) (k : key) :
  k <> unique_key c ->
  find (fun r => key_eqb (unique_key (fields r)) k)
       (rows (insert_or_replace cn c t))
  = find (fun r => key_eqb (unique_key (fields r)) k) (rows t).
Proof.
  intros Hk. rewrite rows_insert_or_replace, find_app_cases.
  rewrite find_filter_kept.
  - destruct (find _ (rows t)); [reflexivity |].
    simpl. rewrite key_eqb_false; [reflexivity | congruence].
  - intros x Hx. apply key_eqb_true in Hx. unfold conflicts.
    rewrite Hx, key_eqb_false; [reflexivity | exact Hk].
Qed.

(** Under the UNIQUE constraint at most one row carries a key. *)
Lemma conflicting_rows (c : cols) (rs : list row) :
  NoDup (map (fun r => unique_key (fields r)) rs) ->
  List.length (filter (conflicts c) rs)
  = if existsb (conflicts c) rs then 1%nat else 0%nat.
Proof.
  induction rs as [| r rs IH]; simpl; intros Hnd; [reflexivity |].
  apply NoDup_cons_iff in Hnd. destruct Hnd as [Hfresh Hnd].
  destruct (conflicts c r) eqn:E; simpl.
  - f_equal. apply length_zero_iff_nil, filter_nil_iff.
    intros x Hx. destruct (conflicts c x) eqn:Ex; [| reflexivity].
    exfalso. apply Hfresh. apply in_map_iff. exists x. split; [| exact Hx].
    apply key_eqb_true in E. apply key_eqb_true in Ex. congruence.
  - now apply IH.
Qed.

Lemma length_after (cn : connection) (c : cols) (t : table) :
  wf t ->
  List.length (rows (insert_or_replace cn c t))
  = if existsb (conflicts c) (rows t)
    then List.length (rows t) else Datatypes.S (List.length (rows t)).
Proof.
  intros Hwf. rewrite rows_insert_or_replace, length_app. simpl.
  pose proof (filter_length (conflicts c) (rows t)) as Hsplit.
  rewrite (conflicting_rows c (rows t) (wf_keys Hwf)) in Hsplit.
  destruct (existsb (conflicts c) (rows t)); lia.
Qed.

Lemma existsb_find (A : Type) (p : A -> bool) (l : list A) :
  existsb p l = match find p l with Some _ => true | None => false end.
Proof.
  induction l as [| a l IH]; simpl; [reflexivity |].
  destruct (p a); [reflexivity | exact IH].
Qed.

(** X4. The number of rows a table reports ([COUNT( * )] in
    [getStatistics]) grows by one when a key is written for the first time
    and stays the same when a key that is already stored is written again,
    on every store the scrapers can produce. *)
Theorem X4_count_after_upsert (c : cols) (t : table) :
  reachable t ->
  table_count (Some (upsert c t))
  = (table_count (Some t)
     + if existsb (conflicts c) (rows t) then 0 else 1)%Z.
Proof.
  intros Hr. destruct (reachable_invariant Hr) as [Hwf _].
  unfold table_count, upsert.
  rewrite (length_after default_connection c t Hwf).
  destruct (existsb (conflicts c) (rows t)); lia.
Qed.

(** X5. On every store the scrapers can produce: rowids are pairwise
    distinct, no two primary rows carry the same natural key, and every
    primary row has exactly one index row, which holds that row's own
    columns. *)
Theorem X5_reachable_store_invariant (t : table) :
  reachable t ->
  NoDup (map id (rows t))
  /\ NoDup (map (fun r => unique_key (fields r)) (rows t))
  /\ (forall r, In r (rows t) ->
        fts_with_rowid (id r) t
        = [ {| rowid := id r; document := fts_cols (fields r) |} ]).
Proof.
  intros Hr. destruct (reachable_invariant Hr) as [Hwf Hm].
  split; [exact (wf_ids Hwf) |]. split; [exact (wf_keys Hwf) |].
  intros r Hin. unfold fts_with_rowid.
  exact (filter_unique rowid (fts t)
           {| rowid := id r; document := fts_cols (fields r) |}
           (wf_fts_ids Hwf) (Hm r Hin)).
Qed.

End AnyFamily.

Ltac find_by H :=
  match type of H with
  | _ = ?found =>
      match goal with
      | |- context [find ?p ?l] =>
          replace (find p l) with found by (symmetry; exact H)
      end
  end.

(** X1. A statute section that has just been written is what [getRCW]
    returns for its citation, field by field; the lookup of every other
    citation is unchanged by the write. *)
Theorem X1_getRCW_after_ingest
    (now citation titleNum chapterNum sectionNum : string)
    (titleName chapterName sectionName fullText : string)
    (effectiveDate lastAmended : option string) (t : table (S := rcw)) :
  let t' := rcw_insertStmt now citation titleNum chapterNum sectionNum
              titleName chapterName sectionName fullText
              effectiveDate lastAmended t in
  getRCW t' citation
  = Some {| rcw_citation := citation;
            rcw_titleNum := titleNum;
            rcw_chapterNum := chapterNum;
            rcw_sectionNum := sectionNum;
            rcw_titleName := Some titleName;
            rcw_chapterName := Some chapterName;
            rcw_sectionName := Some sectionName;
            rcw_fullText := fullText;
            rcw_effectiveDate := effectiveDate;
            rcw_lastAmended := lastAmended |}
  /\ (forall other, other <> citation -> getRCW t' other = getRCW t other).
Proof.
  intros t'. unfold t', rcw_insertStmt, upsert, getRCW. split.
  - match goal with
    | |- context [insert_or_replace ?cn ?c t] =>
        pose proof (find_written (S := rcw) cn c t) as H
    end.
    find_by H. reflexivity.
  - intros other Hother.
    match goal with
    | |- context [insert_or_replace ?cn ?c t] =>
        pose proof (find_other (S := rcw) cn c t other Hother) as H
    end.
    find_by H. reflexivity.
Qed.

Lemma court_rule_get_written
    (now ruleSet ruleNumber ruleName fullText : string)
    (t : table (S := court_rules)) :
  court_rule_get (court_rule_insertStmt now ruleSet ruleNumber ruleName fullText t)
                 ruleSet ruleNumber
  = Some {| LawDatabase.ruleSet := ruleSet;
            LawDatabase.ruleNumber := ruleNumber;
            LawDatabase.ruleName := Some ruleName;
            LawDatabase.fullText := fullText;
            LawDatabase.updatedAt := now |}.
Proof.
  unfold court_rule_insertStmt, upsert, court_rule_get.
  match goal with
  | |- context [insert_or_replace ?cn ?c t] =>
      pose proof (find_written (S := court_rules) cn c t) as H
  end.
  find_by H. reflexivity.
Qed.

Lemma court_rule_get_other
    (now ruleSet ruleNumber ruleName fullText rs rn : string)
    (t : table (S := court_rules)) :
  (rs, rn) <> (ruleSet, ruleNumber) ->
  court_rule_get (court_rule_insertStmt now ruleSet ruleNumber ruleName fullText t)
                 rs rn
  = court_rule_get t rs rn.
Proof.
  intros Hne. unfold court_rule_insertStmt, upsert, court_rule_get.
  match goal with
  | |- context [insert_or_replace ?cn ?c t] =>
      pose proof (find_other (S := court_rules) cn c t (rs, rn) Hne) as H
  end.
  find_by H. reflexivity.
Qed.

(** X2. A court rule that has just been written is what [getCourtRule]
    returns for its rule set and number, after a single probe; the exact
    lookup of every other key is unchanged by the write. *)
Theorem X2_getCourtRule_after_ingest
    (now ruleSet ruleNumber ruleName fullText : string)
    (t : table (S := court_rules)) :
  let t' := court_rule_insertStmt now ruleSet ruleNumber ruleName fullText t in
  getCourtRule_probes t' ruleSet ruleNumber
  = ([ruleNumber],
     Some {| LawDatabase.ruleSet := ruleSet;
             LawDatabase.ruleNumber := ruleNumber;
             LawDatabase.ruleName := Some ruleName;
             LawDatabase.fullText := fullText;
             LawDatabase.updatedAt := now |})
  /\ (forall rs rn, (rs, rn) <> (ruleSet, ruleNumber) ->
        court_rule_get t' rs rn = court_rule_get t rs rn).
Proof.
  intros t'. unfold t'. split.
  - unfold getCourtRule_probes. rewrite court_rule_get_written. reflexivity.
  - intros rs rn Hne. now apply court_rule_get_other.
Qed.

Lemma append_length (a b : string) :
  String.length (a ++ b) = (String.length a + String.length b)%nat.
Proof. induction a as [| c a IH]; simpl; [reflexivity | now rewrite IH]. Qed.

(** X3. A rule stored under a number that ends in ".0" is found when it is
    asked for by the bare number, as long as the bare number has no dot and
    is not itself stored: the retry of [getCourtRule] closes the gap between
    the number a reader writes ("60") and the number the scrapers derive
    from the file name ("60.0"). *)
Theorem X3_bare_number_finds_zero_form
    (now ruleSet n ruleName fullText : string)
    (t : table (S := court_rules)) :
  includes "." n = false ->
  court_rule_get t ruleSet n = None ->
  getCourtRule (court_rule_insertStmt now ruleSet (n ++ ".0") ruleName fullText t)
               ruleSet n
  = Some {| LawDatabase.ruleSet := ruleSet;
            LawDatabase.ruleNumber := n ++ ".0";
            LawDatabase.ruleName := Some ruleName;
            LawDatabase.fullText := fullText;
            LawDatabase.updatedAt := now |}.
Proof.
  intros Hdot Hmiss.
  unfold getCourtRule, getCourtRule_probes.
  rewrite court_rule_get_other, Hmiss, Hdot; simpl.
  - apply court_rule_get_written.
  - intros Heq. injection Heq as Heq.
    apply (f_equal String.length) in Heq.
    rewrite append_length in Heq. simpl in Heq. lia.
Qed.

Import Fixture.

Lemma fixture_rules_reachable : reachable Fixture.rules.
Proof.
  unfold Fixture.rules, court_rule_insertStmt.
  repeat apply reachable_upsert. apply reachable_empty.
Defined.

Lemma X3_bare_number_finds_zero_form_witness :
  includes "." "7" = false
  /\ court_rule_get Fixture.rules "IRLJ" "7" = None
  /\ option_map LawDatabase.ruleNumber
       (getCourtRule
          (court_rule_insertStmt Fixture.now "IRLJ" ("7" ++ ".0") "Venue" "venue"
             Fixture.rules)
          "IRLJ" "7")
     = Some "7.0".
Proof.
  split; [reflexivity |]. split; [reflexivity |].
  rewrite (X3_bare_number_finds_zero_form Fixture.now "IRLJ" "7" "Venue" "venue"
             Fixture.rules eq_refl eq_refl).
  reflexivity.
Defined.

Lemma X4_count_after_upsert_witness :
  reachable Fixture.rules
  /\ table_count (Some (court_rule_insertStmt Fixture.now "CRLJ" "60.0"
                          "Relief" "amended" Fixture.rules)) = 3%Z
  /\ table_count (Some (court_rule_insertStmt Fixture.now "CRLJ" "61.0"
                          "Other" "new" Fixture.rules)) = 4%Z.
Proof.
  split; [exact fixture_rules_reachable |].
  unfold court_rule_insertStmt.
  split.
  - rewrite (X4_count_after_upsert (S := court_rules) _ _ fixture_rules_reachable).
    reflexivity.
  - rewrite (X4_count_after_upsert (S := court_rules) _ _ fixture_rules_reachable).
    reflexivity.
Defined.

Lemma X5_reachable_store_invariant_witness :
  reachable Fixture.rules
  /\ NoDup (map id (rows Fixture.rules))
  /\ NoDup (map (fun r : court_rules_row => unique_key (fields r)) (rows Fixture.rules)).
Proof.
  split; [exact fixture_rules_reachable |].
  pose proof (X5_reachable_store_invariant (S := court_rules) Fixture.rules
                fixture_rules_reachable) as H.
  split; [exact (proj1 H) | exact (proj1 (proj2 H))].
Defined.

End IngestFacts.

(** ** Text normalisation *)
Module CleanupFacts.

Import Lang Cleanup.
Open Scope string_scope.

Lemma space_white : is_white " " = true.
Proof. reflexivity. Qed.

Lemma LF_white : is_white LF = true.
Proof. reflexivity. Qed.

Lemma not_white_not_LF (c : ascii) : is_white c = false -> Ascii.eqb c LF = false.
Proof.
  intros Hc. destruct (Ascii.eqb_spec c LF) as [-> |]; [| reflexivity].
  rewrite LF_white in Hc. discriminate.
Qed.

Lemma collapse_step (c : ascii) (s : string) (b : bool) :
  collapse_whitespace_from b (String c s)
  = if is_white c
    then if b then collapse_whitespace_from true s
         else String " " (collapse_whitespace_from true s)
    else String c (collapse_whitespace_from false s).
Proof. reflexivity. Qed.

(** *** The steps before [\s+] change nothing it sees *)

Lemma collapse_after_crlf (s : string) :
  (forall b, collapse_whitespace_from b (replace_crlf s) = collapse_whitespace_from b s)
  /\ (forall c b, collapse_whitespace_from b (replace_crlf (String c s))
                  = collapse_whitespace_from b (String c s)).
Proof.
  induction s as [| d s [IH1 IH2]].
  - split; intros; reflexivity.
  - split; [intros b; apply IH2 |].
    intros c b.
    change (replace_crlf (String c (String d s)))
      with (if Ascii.eqb c CR && Ascii.eqb d LF
            then String LF (replace_crlf s)
            else String c (replace_crlf (String d s))).
    destruct (Ascii.eqb_spec c CR) as [-> | Hc]; simpl andb.
    + destruct (Ascii.eqb_spec d LF) as [-> | Hd].
      * change (collapse_whitespace_from b (String CR (String LF s)))
          with (if b then collapse_whitespace_from true s
                else String " " (collapse_whitespace_from true s)).
        change (collapse_whitespace_from b (String LF (replace_crlf s)))
          with (if b then collapse_whitespace_from true (replace_crlf s)
                else String " " (collapse_whitespace_from true (replace_crlf s))).
        now rewrite IH1.
      * change (collapse_whitespace_from b (String CR (replace_crlf (String d s))))
          with (if b then collapse_whitespace_from true (replace_crlf (String d s))
                else String " " (collapse_whitespace_from true (replace_crlf (String d s)))).
        rewrite IH2. reflexivity.
    + cbv iota.
      rewrite (collapse_step c (replace_crlf (String d s)) b).
      rewrite (collapse_step c (String d s) b).
      destruct (is_white c); [destruct b |]; now rewrite IH2.
Qed.

Lemma collapse_line_feeds (k : nat) (x : string) (b : bool) :
  collapse_whitespace_from b (string_of_list_ascii (repeat LF k) ++ x)
  = match k with
    | O => collapse_whitespace_from b x
    | S _ => (if b then EmptyString else " ") ++ collapse_whitespace_from true x
    end.
Proof.
  revert b. induction k as [| k IH]; intros b; [reflexivity |].
  change (string_of_list_ascii (repeat LF (S k)) ++ x)
    with (String LF (string_of_list_ascii (repeat LF k) ++ x)).
  change (collapse_whitespace_from b (String LF (string_of_list_ascii (repeat LF k) ++ x)))
    with (if b then collapse_whitespace_from true (string_of_list_ascii (repeat LF k) ++ x)
          else String " " (collapse_whitespace_from true (string_of_list_ascii (repeat LF k) ++ x))).
  rewrite IH. destruct k, b; reflexivity.
Qed.

Lemma flush_collapse (n : nat) (x : string) (b : bool) :
  collapse_whitespace_from b (flush n ++ x)
  = collapse_whitespace_from b (string_of_list_ascii (repeat LF n) ++ x).
Proof.
  unfold flush. rewrite !collapse_line_feeds.
  destruct n as [| [| [| n]]]; reflexivity.
Qed.

Lemma append_empty (s : string) : s ++ EmptyString = s.
Proof. induction s as [| c s IH]; simpl; [reflexivity | now rewrite IH]. Qed.

Lemma collapse_after_blank_lines (s : string) (n : nat) (b : bool) :
  collapse_whitespace_from b (collapse_blank_lines_from n s)
  = collapse_whitespace_from b (string_of_list_ascii (repeat LF n) ++ s).
Proof.
  revert n b. induction s as [| c s IH]; intros n b.
  - simpl collapse_blank_lines_from.
    rewrite <- (append_empty (flush n)). apply flush_collapse.
  - simpl collapse_blank_lines_from.
    destruct (Ascii.eqb_spec c LF) as [-> | Hc].
    + rewrite IH, !collapse_line_feeds.
      change (collapse_whitespace_from b (String LF s))
        with (if b then collapse_whitespace_from true s
              else String " " (collapse_whitespace_from true s)).
      change (collapse_whitespace_from true (String LF s))
        with (collapse_whitespace_from true s).
      destruct n, b; reflexivity.
    + rewrite flush_collapse, !collapse_line_feeds.
      simpl collapse_whitespace_from.
      destruct (is_white c).
      * rewrite (IH 0%nat true). simpl. destruct n; reflexivity.
      * rewrite (IH 0%nat false). simpl. destruct n; reflexivity.
Qed.

(** *** And nothing is left for [\n{3,}] after [\s+] *)

Lemma blank_lines_after_collapse (s : string) (b : bool) :
  collapse_blank_lines_from 0 (collapse_whitespace_from b s)
  = collapse_whitespace_from b s.
Proof.
  revert b. induction s as [| c s IH]; intros b; [reflexivity |].
  simpl collapse_whitespace_from.
  destruct (is_white c) eqn:Hc.
  - destruct b; [apply IH |].
    simpl. now rewrite IH.
  - simpl. rewrite (not_white_not_LF c Hc). simpl. now rewrite IH.
Qed.

Lemma clean_text_short (s : string) : clean_text s = trim (collapse_whitespace s).
Proof.
  unfold clean_text, collapse_whitespace, collapse_blank_lines.
  rewrite collapse_after_blank_lines. simpl.
  now rewrite (proj1 (collapse_after_crlf s)).
Qed.

Lemma clean_body_short (s : string) : clean_body s = trim (collapse_whitespace s).
Proof.
  unfold clean_body, collapse_whitespace, collapse_blank_lines.
  now rewrite blank_lines_after_collapse.
Qed.

(** X6. Of the clean-up chain, only the collapse of white-space runs and
    the trim have an effect: replacing CR LF and squeezing blank lines
    before it changes nothing, squeezing blank lines after it finds none.
    So the statute scraper, which runs the steps in another order, and
    the rule scrapers normalise a text to the same string. *)
Theorem X6_cleanup_chains_agree (fullText : string) :
  clean_text fullText = trim (collapse_whitespace fullText)
  /\ clean_body fullText = clean_text fullText
  /\ collapse_whitespace (collapse_blank_lines (replace_crlf fullText))
     = collapse_whitespace fullText
  /\ collapse_blank_lines (collapse_whitespace fullText)
     = collapse_whitespace fullText.
Proof.
  split; [apply clean_text_short |].
  split; [now rewrite clean_body_short, clean_text_short |].
  split.
  - unfold collapse_whitespace, collapse_blank_lines.
    rewrite collapse_after_blank_lines. simpl.
    apply (proj1 (collapse_after_crlf fullText)).
  - apply blank_lines_after_collapse.
Qed.

(** *** The shape of a cleaned text *)

Lemma trimStart_collapse (s : string) (b : bool) :
  trimStart (collapse_whitespace_from b s) = collapse_whitespace_from true s.
Proof.
  revert b. induction s as [| c s IH]; intros b; [reflexivity |].
  rewrite !collapse_step. destruct (is_white c) eqn:Hc.
  - destruct b; [apply IH |]. simpl. apply IH.
  - simpl. now rewrite Hc.
Qed.

Lemma clean_text_trimEnd (s : string) :
  clean_text s = trimEnd (collapse_whitespace_from true s).
Proof.
  rewrite clean_text_short. unfold trim, collapse_whitespace.
  now rewrite trimStart_collapse.
Qed.

Lemma trimEnd_step (c : ascii) (s : string) :
  trimEnd (String c s)
  = match trimEnd s with
    | EmptyString => if is_white c then EmptyString else String c EmptyString
    | kept => String c kept
    end.
Proof. reflexivity. Qed.

Lemma trimEnd_keeps (c : ascii) (s : string) :
  is_white c = false -> trimEnd (String c s) = String c (trimEnd s).
Proof.
  intros Hc. rewrite trimEnd_step, Hc. now destruct (trimEnd s).
Qed.

Lemma trimEnd_idempotent (s : string) : trimEnd (trimEnd s) = trimEnd s.
Proof.
  induction s as [| c s IH]; [reflexivity |].
  rewrite trimEnd_step.
  destruct (trimEnd s) as [| k ks] eqn:Hk.
  - destruct (is_white c) eqn:Hc; [reflexivity |].
    rewrite trimEnd_step. simpl. now rewrite Hc.
  - rewrite trimEnd_step, IH. reflexivity.
Qed.

Lemma collapse_fixes_trimEnd (s : string) (b : bool) :
  collapse_whitespace_from b (trimEnd (collapse_whitespace_from b s))
  = trimEnd (collapse_whitespace_from b s).
Proof.
  revert b. induction s as [| c s IH]; intros b; [reflexivity |].
  rewrite collapse_step. destruct (is_white c) eqn:Hc.
  - destruct b; [apply IH |].
    rewrite trimEnd_step.
    pose proof (IH true) as IHt.
    destruct (trimEnd (collapse_whitespace_from true s)) as [| k ks].
    + reflexivity.
    + rewrite collapse_step, space_white, IHt. reflexivity.
  - rewrite (trimEnd_keeps c _ Hc), collapse_step, Hc, IH. reflexivity.
Qed.

Lemma trimStart_trimEnd_collapse (s : string) :
  trimStart (trimEnd (collapse_whitespace_from true s))
  = trimEnd (collapse_whitespace_from true s).
Proof.
  induction s as [| c s IH]; [reflexivity |].
  rewrite collapse_step. destruct (is_white c) eqn:Hc; [exact IH |].
  rewrite (trimEnd_keeps c _ Hc). simpl. now rewrite Hc.
Qed.

(** Every white character of a collapsed text is a space. *)
Lemma collapse_only_spaces (s : string) (b : bool) (c : ascii) :
  In c (list_ascii_of_string (collapse_whitespace_from b s)) ->
  is_white c = true -> c = " "%char.
Proof.
  revert b. induction s as [| d s IH]; intros b; [intros [] |].
  rewrite collapse_step. destruct (is_white d) eqn:Hd.
  - destruct b; [apply IH |].
    simpl. intros [<- | Hin] Hc; [reflexivity | now apply (IH true)].
  - simpl. intros [<- | Hin] Hc; [congruence | now apply (IH false)].
Qed.

Lemma trimEnd_chars (s : string) (c : ascii) :
  In c (list_ascii_of_string (trimEnd s)) -> In c (list_ascii_of_string s).
Proof.
  induction s as [| d s IH]; [intros [] |].
  rewrite trimEnd_step.
  destruct (trimEnd s) as [| k ks].
  - destruct (is_white d); [intros [] |].
    simpl. intros [<- | []]. now left.
  - simpl. intros [<- | Hin]; [now left | right; apply IH; exact Hin].
Qed.

(** What [trimEnd] keeps sits where it sat. *)
Lemma trimEnd_get (s : string) (i : nat) (c : ascii) :
  get i (trimEnd s) = Some c -> get i s = Some c.
Proof.
  revert i. induction s as [| d s IH]; intros i; [discriminate |].
  rewrite trimEnd_step.
  destruct (trimEnd s) as [| k ks].
  - destruct (is_white d); [discriminate |].
    destruct i; simpl; [auto | discriminate].
  - destruct i; simpl; [auto | apply IH].
Qed.

(** No two spaces in a row, and none in front after a white character. *)
Lemma collapse_single_spaces (s : string) (b : bool) :
  let r := collapse_whitespace_from b s in
  (forall i, get i r = Some " "%char -> get (S i) r <> Some " "%char)
  /\ (b = true -> get 0 r <> Some " "%char).
Proof.
  revert b. induction s as [| d s IH]; intros b; simpl.
  - split; [discriminate | discriminate].
  - destruct (is_white d) eqn:Hd.
    + destruct b.
      * apply (IH true).
      * destruct (IH true) as [IH1 IH2]. split; [| discriminate].
        intros [| i]; simpl.
        -- intros _. now apply IH2.
        -- apply IH1.
    + destruct (IH false) as [IH1 _]. split.
      * intros [| i]; simpl.
        -- intros H. injection H as ->. discriminate.
        -- apply IH1.
      * intros _ H. injection H as ->. discriminate.
Qed.

(** X7. A cleaned text is in normal form: cleaning it again changes
    nothing, its only white-space characters are single spaces, no two of
    them are adjacent, and it neither starts nor ends with one. *)
Theorem X7_clean_text_normal_form (fullText : string) :
  let r := clean_text fullText in
  clean_text r = r
  /\ (forall c, In c (list_ascii_of_string r) -> is_white c = true -> c = " "%char)
  /\ (forall i, get i r = Some " "%char -> get (S i) r <> Some " "%char)
  /\ trimStart r = r
  /\ trimEnd r = r.
Proof.
  intros r. unfold r. rewrite !clean_text_trimEnd.
  repeat split.
  - rewrite collapse_fixes_trimEnd. apply trimEnd_idempotent.
  - intros c Hin. apply trimEnd_chars in Hin.
    now apply (collapse_only_spaces fullText true).
  - intros i H1 H2.
    apply trimEnd_get in H1. apply trimEnd_get in H2.
    now apply (proj1 (collapse_single_spaces fullText true) i).
  - apply trimStart_trimEnd_collapse.
  - apply trimEnd_idempotent.
Qed.

(** *** What cleaning keeps *)

Lemma collapse_keeps_ink (s : string) (b : bool) :
  filter (fun c => negb (is_white c)) (list_ascii_of_string (collapse_whitespace_from b s))
  = filter (fun c => negb (is_white c)) (list_ascii_of_string s).
Proof.
  revert b. induction s as [| d s IH]; intros b; [reflexivity |].
  rewrite collapse_step. simpl. destruct (is_white d) eqn:Hd; simpl.
  - destruct b; [apply IH |]. simpl. apply IH.
  - rewrite Hd. simpl. now rewrite IH.
Qed.

Lemma trimEnd_keeps_ink (s : string) :
  filter (fun c => negb (is_white c)) (list_ascii_of_string (trimEnd s))
  = filter (fun c => negb (is_white c)) (list_ascii_of_string s).
Proof.
  induction s as [| d s IH]; [reflexivity |].
  rewrite trimEnd_step. simpl. rewrite <- IH.
  destruct (trimEnd s) as [| k ks].
  - destruct (is_white d) eqn:Hd; simpl; [reflexivity | now rewrite Hd].
  - reflexivity.
Qed.

Lemma chars_append (a b : string) :
  list_ascii_of_string (a ++ b)
  = (list_ascii_of_string a ++ list_ascii_of_string b)%list.
Proof. induction a as [| c a IH]; simpl; [reflexivity | now rewrite IH]. Qed.

Lemma ink_append (a b : string) :
  filter (fun c => negb (is_white c)) (list_ascii_of_string (a ++ b))
  = (filter (fun c => negb (is_white c)) (list_ascii_of_string a)
     ++ filter (fun c => negb (is_white c)) (list_ascii_of_string b))%list.
Proof. now rewrite chars_append, filter_app. Qed.

Lemma ink_of_items (items : list string) :
  filter (fun c => negb (is_white c)) (list_ascii_of_string (String.concat " " items))
  = flat_map (fun item => filter (fun c => negb (is_white c)) (list_ascii_of_string item))
             items.
Proof.
  induction items as [| item items IH]; [reflexivity |].
  destruct items as [| item' items].
  - simpl. now rewrite app_nil_r.
  - change (String.concat " " (item :: item' :: items))
      with (item ++ " " ++ String.concat " " (item' :: items)).
    rewrite !ink_append, IH. reflexivity.
Qed.

Lemma ink_of_pages (pages : list (list string)) (sofar : string) :
  filter (fun c => negb (is_white c))
    (list_ascii_of_string
       (fold_left (fun fullText items => fullText ++ String.concat " " items ++ nl)
                  pages sofar))
  = (filter (fun c => negb (is_white c)) (list_ascii_of_string sofar)
     ++ flat_map
          (flat_map (fun item =>
             filter (fun c => negb (is_white c)) (list_ascii_of_string item)))
          pages)%list.
Proof.
  revert sofar. induction pages as [| items pages IH]; intros sofar; simpl.
  - now rewrite app_nil_r.
  - rewrite IH, !ink_append, ink_of_items, <- app_assoc.
    f_equal. f_equal. simpl. now rewrite app_nil_r.
Qed.

(** X8. Cleaning only touches white space: the characters of the text
    that are not white space come out unchanged, all of them and in the
    same order, from either clean-up chain.  For a PDF this is every such
    character of every text item, page after page. *)
Theorem X8_cleaning_keeps_every_other_character
    (fullText : string) (pages : list (list string)) :
  let ink s := filter (fun c => negb (is_white c)) (list_ascii_of_string s) in
  ink (clean_text fullText) = ink fullText
  /\ ink (clean_body fullText) = ink fullText
  /\ ink (clean_text (pages_text pages)) = flat_map (flat_map ink) pages.
Proof.
  intros ink. unfold ink.
  assert (H : forall s,
             filter (fun c => negb (is_white c)) (list_ascii_of_string (clean_text s))
             = filter (fun c => negb (is_white c)) (list_ascii_of_string s)).
  { intros s. now rewrite clean_text_trimEnd, trimEnd_keeps_ink, collapse_keeps_ink. }
  split; [apply H |]. split.
  - rewrite clean_body_short, <- clean_text_short. apply H.
  - rewrite H. unfold pages_text. now rewrite ink_of_pages.
Qed.

End CleanupFacts.

(** ** Citations *)
Module CitationFacts.

Import Sqlite Schema Writer LawDatabase Lang Citation.
Open Scope string_scope.

Lemma append_assoc (a b c : string) : (a ++ b) ++ c = a ++ (b ++ c).
Proof. induction a as [| x a IH]; simpl; [reflexivity | now rewrite IH]. Qed.

(** [split] never returns an empty array. *)
Lemma split_dots_aux_cons (s cur : string) :
  exists h t, split_dots_aux s cur = h :: t.
Proof.
  revert cur. induction s as [| c s IH]; intros cur; simpl.
  - now exists cur, [].
  - destruct (Ascii.eqb c "."); [now exists cur, (split_dots_aux s EmptyString) |].
    apply IH.
Qed.

(** [parts.join('.')] undoes [s.split('.')]. *)
Lemma join_split_aux (s cur : string) :
  String.concat "." (split_dots_aux s cur) = cur ++ s.
Proof.
  revert cur. induction s as [| c s IH]; intros cur; simpl.
  - now rewrite CleanupFacts.append_empty.
  - destruct (Ascii.eqb_spec c ".") as [-> | Hc].
    + destruct (split_dots_aux_cons s EmptyString) as [h [t Hs]].
      specialize (IH EmptyString). rewrite Hs in *. simpl in *.
      now rewrite IH.
    + rewrite IH, append_assoc. reflexivity.
Qed.

Lemma dot_free_step (c : ascii) (s : string) :
  includes "." (String c s) = false ->
  Ascii.eqb c "." = false /\ includes "." s = false.
Proof.
  unfold includes.
  change (index 0 "." (String c s))
    with (if (if ascii_dec "." c then prefix EmptyString s else false) then Some 0%nat
          else match index 0 "." s with
               | Some n => Some (S n)
               | None => None
               end).
  destruct (ascii_dec "." c) as [<- | Hc]; [now destruct s |].
  intros H. split.
  - destruct (Ascii.eqb_spec c "."); [congruence | reflexivity].
  - destruct (index 0 "." s); [discriminate | reflexivity].
Qed.

Lemma split_dot_free_prefix (a rest cur : string) :
  includes "." a = false ->
  split_dots_aux (a ++ "." ++ rest) cur
  = (cur ++ a) :: split_dots_aux rest EmptyString.
Proof.
  revert cur. induction a as [| c a IH]; intros cur Ha.
  - simpl. now rewrite CleanupFacts.append_empty.
  - apply dot_free_step in Ha. destruct Ha as [Hc Ha].
    simpl. rewrite Hc, (IH _ Ha), append_assoc. reflexivity.
Qed.

Lemma split_dot_free (a cur : string) :
  includes "." a = false -> split_dots_aux a cur = [cur ++ a].
Proof.
  revert cur. induction a as [| c a IH]; intros cur Ha.
  - simpl. now rewrite CleanupFacts.append_empty.
  - apply dot_free_step in Ha. destruct Ha as [Hc Ha].
    simpl. rewrite Hc, (IH _ Ha), append_assoc. reflexivity.
Qed.

Lemma last_of_split (x sec cur : string) :
  includes "." sec = false ->
  last (split_dots_aux (x ++ String "." sec) cur) EmptyString = sec.
Proof.
  intros Hsec. revert cur. induction x as [| c x IH]; intros cur.
  - simpl. now rewrite (split_dot_free sec EmptyString Hsec).
  - simpl. destruct (Ascii.eqb c ".").
    + specialize (IH EmptyString).
      destruct (split_dots_aux_cons (x ++ String "." sec) EmptyString) as [h [t Hs]].
      rewrite Hs in *. exact IH.
    + apply IH.
Qed.

(** X9. For a section whose citation is its chapter number, a dot and a
    section part without a dot, the statute scraper stores that section
    part as [section_num]: the row it writes satisfies
    citation = chapter_num + "." + section_num, whatever the chapter
    number looks like. *)
Theorem X9_section_number_is_last_part
    (now titleNum titleName chapterNum chapterName sec sectionName fullText : string)
    (effectiveDate : option string) (t : table (S := rcw)) :
  includes "." sec = false ->
  let sectionNum := chapterNum ++ "." ++ sec in
  section_num_of sectionNum = sec
  /\ exists r,
       getRCW (scrapeSection_write now titleNum titleName chapterNum chapterName
                 sectionNum sectionName fullText effectiveDate t) sectionNum
       = Some r
       /\ rcw_citation r = rcw_chapterNum r ++ "." ++ rcw_sectionNum r
       /\ rcw_chapterNum r = chapterNum
       /\ rcw_sectionNum r = sec.
Proof.
  intros Hsec sectionNum.
  assert (Hlast : section_num_of sectionNum = sec).
  { unfold section_num_of, split_dot, sectionNum. now apply last_of_split. }
  split; [exact Hlast |].
  unfold scrapeSection_write, rcw_insertStmt, upsert, getRCW.
  match goal with
  | |- context [insert_or_replace ?cn ?c t] =>
      pose proof (IngestFacts.find_written (S := rcw) cn c t) as H
  end.
  match type of H with
  | _ = ?found =>
      match goal with
      | |- context [find ?p ?l] =>
          replace (find p l) with found by (symmetry; exact H)
      end
  end.
  simpl. eexists. split; [reflexivity |]. simpl.
  rewrite Hlast. repeat split; reflexivity.
Qed.

Lemma X9_section_number_is_last_part_witness :
  includes "." "506" = false
  /\ section_num_of ("46.61" ++ "." ++ "506") = "506".
Proof.
  split; [reflexivity |].
  exact (proj1 (X9_section_number_is_last_part "2024-01-01 00:00:00" "46"
                  "Motor Vehicles" "46.61" "Rules of the Road" "506" "Evidence"
                  "evidence rules" None empty_table eq_refl)).
Defined.

(** X10. The chapter the simple statute scraper derives from a cite: for
    a title part and a chapter part without dots, every cite under the
    chapter, and the chapter's own cite, give title + "." + chapter; a
    cite without a dot gives no chapter. *)
Theorem X10_chapter_of_cite (title chapter rest : string) :
  includes "." title = false -> includes "." chapter = false ->
  chapter_of_cite (title ++ "." ++ chapter ++ "." ++ rest)
  = Some (title ++ "." ++ chapter)
  /\ chapter_of_cite (title ++ "." ++ chapter) = Some (title ++ "." ++ chapter)
  /\ chapter_of_cite title = None.
Proof.
  intros Ht Hc. unfold chapter_of_cite, split_dot. repeat split.
  - rewrite (split_dot_free_prefix title _ EmptyString Ht).
    rewrite (split_dot_free_prefix chapter _ EmptyString Hc).
    reflexivity.
  - rewrite (split_dot_free_prefix title _ EmptyString Ht).
    rewrite (split_dot_free chapter EmptyString Hc). reflexivity.
  - rewrite (split_dot_free title EmptyString Ht). reflexivity.
Qed.

Lemma X10_chapter_of_cite_witness :
  includes "." "46" = false /\ includes "." "61" = false
  /\ chapter_of_cite "46.61.502" = Some "46.61"
  /\ chapter_of_cite "46" = None.
Proof.
  split; [reflexivity |]. split; [reflexivity |].
  pose proof (X10_chapter_of_cite "46" "61" "502" eq_refl eq_refl) as H.
  split; [exact (proj1 H) | exact (proj2 (proj2 H))].
Defined.

(** *** Where the law text starts *)

Lemma substring_drop (i n : nat) (s : string) :
  substring i n s = substring 0 n (drop i s).
Proof.
  revert s. induction i as [| i IH]; intros s; [reflexivity |].
  destruct s as [| c s]; simpl.
  - now destruct n.
  - apply IH.
Qed.

Lemma indexOf_found (marker s : string) :
  (0 <= indexOf marker s)%Z ->
  prefix marker (substring_from (indexOf marker s) s) = true.
Proof.
  unfold indexOf, substring_from.
  destruct (index 0 marker s) as [i |] eqn:Hi; [intros _ | lia].
  rewrite Nat2Z.id. apply prefix_correct.
  rewrite <- substring_drop. exact (index_correct1 _ _ _ _ Hi).
Qed.

Lemma indexOf_at_head (marker s : string) :
  marker <> EmptyString -> prefix marker s = true -> indexOf marker s = 0%Z.
Proof.
  intros Hm Hp. unfold indexOf.
  destruct s as [| c s].
  - destruct marker; [congruence | discriminate].
  - change (index 0 marker (String c s))
      with (if prefix marker (String c s) then Some 0%nat
            else match index 0 marker s with
                 | Some n => Some (S n)
                 | None => None
                 end).
    now rewrite Hp.
Qed.

Lemma cut_at_marker_cases (markers : list string) (fullText : string) :
  (cut_at_marker markers fullText = fullText
   /\ forall marker, In marker markers -> (indexOf marker fullText <= 0)%Z)
  \/ exists marker,
       In marker markers
       /\ (0 < indexOf marker fullText)%Z
       /\ cut_at_marker markers fullText
          = substring_from (indexOf marker fullText) fullText.
Proof.
  induction markers as [| m markers IH]; simpl.
  - left. split; [reflexivity | intros ? []].
  - destruct (indexOf m fullText >? 0)%Z eqn:Hm.
    + right. exists m. split; [now left |]. split; [lia | reflexivity].
    + destruct IH as [[Heq Hall] | [m' [Hin [Hpos Heq]]]].
      * left. split; [exact Heq |].
        intros m' [<- | Hin]; [lia | now apply Hall].
      * right. exists m'. split; [now right |]. now split.
Qed.

(** X11. The start of the law text in the simple statute scraper: what is
    kept is always a suffix of the page text.  Either no marker occurs
    past the first character and the text is kept whole, or the text kept
    begins with one of the markers.  A marker at the very start of the
    text does not end the search: a text that already begins with
    "RCW <number>" is still cut at a later marker. *)
Theorem X11_law_text_starts_at_a_marker (sectionNum fullText : string) :
  let r := law_text_start sectionNum fullText in
  (exists k, r = drop k fullText)
  /\ ((r = fullText
       /\ forall marker, In marker (startMarkers sectionNum) ->
            (indexOf marker fullText <= 0)%Z)
      \/ exists marker, In marker (startMarkers sectionNum)
                        /\ (0 < indexOf marker fullText)%Z
                        /\ prefix marker r = true)
  /\ (prefix ("RCW " ++ sectionNum) fullText = true ->
      r = cut_at_marker [sectionNum ++ " >>"; "PDF"] fullText).
Proof.
  intros r. unfold r, law_text_start.
  destruct (cut_at_marker_cases (startMarkers sectionNum) fullText)
    as [[Heq Hall] | [m [Hin [Hpos Heq]]]].
  - split; [exists 0%nat; now rewrite Heq |].
    split; [left; now split |].
    intros Hp. unfold startMarkers. simpl cut_at_marker at 1.
    rewrite (indexOf_at_head _ fullText) by (try discriminate; exact Hp).
    reflexivity.
  - split; [exists (Z.to_nat (indexOf m fullText)); now rewrite Heq |].
    split.
    + right. exists m. split; [exact Hin |]. split; [exact Hpos |].
      rewrite Heq. apply indexOf_found. lia.
    + intros Hp. unfold startMarkers. simpl cut_at_marker at 1.
      rewrite (indexOf_at_head _ fullText) by (try discriminate; exact Hp).
      reflexivity.
Qed.

End CitationFacts.

(** ** What discovery hands to the scrape loop *)
Module DiscoverFacts.

Import Lang Scraper ListFacts DedupFacts.
Open Scope string_scope.

Lemma known_false (n : string) (rules : list Rule) :
  known n rules = false -> ~ In n (map ruleNumber rules).
Proof.
  unfold known. intros Hk Hin.
  apply in_map_iff in Hin. destruct Hin as [r [<- Hin]].
  assert (H : existsb (fun r' => ruleNumber r' =? ruleNumber r) rules = true).
  { apply existsb_exists. exists r. split; [exact Hin | apply String.eqb_refl]. }
  congruence.
Qed.

Lemma known_true (n : string) (rules : list Rule) :
  known n rules = true -> In n (map ruleNumber rules).
Proof.
  unfold known. intros Hk. apply existsb_exists in Hk.
  destruct Hk as [r [Hin Heq]]. apply String.eqb_eq in Heq. subst n.
  now apply in_map.
Qed.

Lemma fold_push_NoDup (cs acc : list Rule) :
  NoDup (map ruleNumber acc) ->
  NoDup (map ruleNumber (fold_left push_unless_found cs acc)).
Proof.
  revert acc. induction cs as [| c cs IH]; intros acc Hnd; [exact Hnd |].
  simpl. apply IH. rewrite push_unless_found_unfold.
  destruct (known (ruleNumber c) acc) eqn:Hk; [exact Hnd |].
  apply NoDup_map_snoc; [exact Hnd | now apply known_false].
Qed.

Lemma discover_NoDup (cs : list Rule) : NoDup (map ruleNumber (discover cs)).
Proof. apply fold_push_NoDup. constructor. Qed.

Lemma fold_push_known (cs acc : list Rule) (n : string) :
  known n (fold_left push_unless_found cs acc) = known n acc || known n cs.
Proof.
  revert acc. induction cs as [| c cs IH]; intros acc; simpl.
  - unfold known. simpl. now rewrite orb_false_r.
  - rewrite IH, push_unless_found_unfold.
    change (known n (c :: cs)) with ((ruleNumber c =? n) || known n cs).
    destruct (known (ruleNumber c) acc) eqn:Hk.
    + destruct (String.eqb_spec (ruleNumber c) n) as [<- | Hne].
      * rewrite Hk. reflexivity.
      * reflexivity.
    + rewrite known_app. unfold known at 2. simpl.
      rewrite orb_false_r, orb_assoc. reflexivity.
Qed.

(** Nothing is dropped from a list without duplicates. *)
Lemma fold_push_all (cs acc : list Rule) :
  NoDup (map ruleNumber cs) ->
  (forall c, In c cs -> known (ruleNumber c) acc = false) ->
  fold_left push_unless_found cs acc = (acc ++ cs)%list.
Proof.
  revert acc. induction cs as [| c cs IH]; intros acc Hnd Hfresh; simpl.
  - now rewrite app_nil_r.
  - simpl in Hnd. apply NoDup_cons_iff in Hnd. destruct Hnd as [Hc Hnd].
    rewrite push_unless_found_unfold, (Hfresh c (or_introl eq_refl)).
    rewrite IH; [now rewrite <- app_assoc | exact Hnd |].
    intros c' Hin. rewrite known_app.
    rewrite (Hfresh c' (or_intror Hin)). unfold known. simpl.
    rewrite orb_false_r.
    destruct (String.eqb_spec (ruleNumber c) (ruleNumber c')) as [Heq |]; [| reflexivity].
    exfalso. apply Hc. rewrite Heq. now apply in_map.
Qed.

(** X12. Discovery in the PDF scrapers: the rules kept have pairwise
    distinct rule numbers, every rule number among the candidates is
    still there, every rule kept is one of the candidates, a list without
    duplicates is kept whole and in order, and running the filter again
    changes nothing. *)
Theorem X12_discover_contract (cs : list Rule) :
  NoDup (map ruleNumber (discover cs))
  /\ (forall n, known n (discover cs) = known n cs)
  /\ (forall r, In r (discover cs) -> In r cs)
  /\ (NoDup (map ruleNumber cs) -> discover cs = cs)
  /\ discover (discover cs) = discover cs.
Proof.
  assert (Hall : forall l, NoDup (map ruleNumber l) -> discover l = l).
  { intros l Hl. unfold discover. now rewrite fold_push_all. }
  split; [apply discover_NoDup |].
  split; [intros n; unfold discover; now rewrite fold_push_known |].
  split.
  - intros r Hin. apply discover_keeps_first in Hin.
    now apply find_some in Hin.
  - split; [apply Hall | apply Hall, discover_NoDup].
Qed.

(** *** The [Map] of the HTML scraper *)

Lemma uniqueRules_In (rules : list Rule) (r : Rule) :
  In r (uniqueRules rules) -> In r rules.
Proof.
  intros Hin. apply uniqueRules_keeps_last in Hin.
  apply find_some in Hin. apply in_rev. tauto.
Qed.

Lemma new_Map_keys (rules : list Rule) :
  map fst (new_Map (map (fun r => (rule_key r, r)) rules))
  = map rule_key (uniqueRules rules).
Proof.
  unfold uniqueRules. rewrite map_map.
  apply map_ext_in. intros [k v] Hin. simpl.
  apply new_Map_In in Hin. apply find_some in Hin. destruct Hin as [Hin _].
  apply in_rev in Hin. apply in_map_iff in Hin.
  destruct Hin as [r [Heq _]]. now injection Heq as <- <-.
Qed.

Lemma uniqueRules_NoDup (rules : list Rule) :
  NoDup (map rule_key (uniqueRules rules)).
Proof. rewrite <- new_Map_keys. apply new_Map_NoDup. Qed.

Lemma map_set_absent (V : Type) (k : string) (v : V) (m : list (string * V)) :
  ~ In k (map fst m) -> map_set k v m = (m ++ [(k, v)])%list.
Proof.
  induction m as [| [k' v'] m IH]; simpl; intros Hk; [reflexivity |].
  destruct (String.eqb_spec k' k) as [-> | Hne]; [tauto |].
  rewrite IH; [reflexivity | tauto].
Qed.

Lemma new_Map_all (V : Type) (es acc : list (string * V)) :
  NoDup (map fst (acc ++ es)) ->
  fold_left (fun m e => map_set (fst e) (snd e) m) es acc = (acc ++ es)%list.
Proof.
  revert acc. induction es as [| [k v] es IH]; intros acc Hnd; simpl.
  - now rewrite app_nil_r.
  - assert (Habs : ~ In k (map fst acc)).
    { rewrite map_app in Hnd. simpl in Hnd.
      apply NoDup_remove_2 in Hnd. intros Hin. apply Hnd.
      apply in_or_app. now left. }
    rewrite (map_set_absent V k v acc Habs), IH; rewrite <- app_assoc; [reflexivity | exact Hnd].
Qed.

Lemma uniqueRules_all (rules : list Rule) :
  NoDup (map rule_key rules) -> uniqueRules rules = rules.
Proof.
  intros Hnd. unfold uniqueRules, new_Map.
  rewrite new_Map_all.
  - simpl. rewrite map_map. simpl. apply map_id.
  - simpl. rewrite map_map. exact Hnd.
Qed.

Lemma uniqueRules_covers (rules : list Rule) (r : Rule) :
  In r rules ->
  exists r', In r' (uniqueRules rules) /\ rule_key r' = rule_key r.
Proof.
  intros Hin.
  destruct (find (fun c => rule_key c =? rule_key r) (rev rules)) as [r' |] eqn:Hf.
  - exists r'. pose proof (find_some _ _ Hf) as [_ Hk].
    apply String.eqb_eq in Hk. split; [| exact Hk].
    apply uniqueRules_keeps_last. now rewrite Hk.
  - apply in_rev in Hin. pose proof (find_none _ _ Hf r Hin) as Hk.
    simpl in Hk. rewrite String.eqb_refl in Hk. discriminate.
Qed.

(** X13. De-duplication in the HTML scraper: the rules kept have pairwise
    distinct keys, every key among the rules found is still there, every
    rule kept is one of the rules found, a list without duplicates is kept
    whole and in order, and de-duplicating again changes nothing. *)
Theorem X13_uniqueRules_contract (rules : list Rule) :
  NoDup (map rule_key (uniqueRules rules))
  /\ (forall r, In r rules ->
        exists r', In r' (uniqueRules rules) /\ rule_key r' = rule_key r)
  /\ (forall r, In r (uniqueRules rules) -> In r rules)
  /\ (NoDup (map rule_key rules) -> uniqueRules rules = rules)
  /\ uniqueRules (uniqueRules rules) = uniqueRules rules.
Proof.
  split; [apply uniqueRules_NoDup |].
  split; [apply uniqueRules_covers |].
  split; [apply uniqueRules_In |].
  split; [apply uniqueRules_all | apply uniqueRules_all, uniqueRules_NoDup].
Qed.

(** *** Absolute URLs *)

Lemma pdf_url_absolute (h : string) : prefix "http" (pdf_url h) = true.
Proof.
  unfold pdf_url. destruct (prefix "../" h); [reflexivity |].
  destruct (prefix "http" h) eqn:Hh; simpl negb; cbv iota; [exact Hh |].
  reflexivity.
Qed.

Lemma pdf_url_of_absolute (h : string) :
  prefix "http" h = true -> pdf_url h = h.
Proof.
  intros Hh. destruct h as [| c h]; [discriminate |].
  change (prefix "http" (String c h))
    with (match ascii_dec "h" c with
          | left _ => prefix "ttp" h
          | right _ => false
          end) in Hh.
  destruct (ascii_dec "h" c) as [<- |]; [| discriminate].
  unfold pdf_url.
  change (prefix "../" (String "h" h)) with false.
  change (prefix "http" (String "h" h)) with (prefix "ttp" h).
  now rewrite Hh.
Qed.

(** X14. The URL a PDF scraper fetches is always absolute, whatever the
    link looks like; an absolute link is left as it is, so resolving twice
    is resolving once; and a link relative to the parent directory and a
    link from the site root name the same document. *)
Theorem X14_pdf_url_is_absolute (h : string) :
  prefix "http" (pdf_url h) = true
  /\ pdf_url (pdf_url h) = pdf_url h
  /\ (prefix "http" h = true -> pdf_url h = h)
  /\ pdf_url ("../" ++ h) = BASE_URL ++ "/" ++ h
  /\ pdf_url ("/" ++ h) = BASE_URL ++ "/" ++ h.
Proof.
  split; [apply pdf_url_absolute |].
  split; [apply pdf_url_of_absolute, pdf_url_absolute |].
  split; [apply pdf_url_of_absolute |].
  split; destruct h; reflexivity.
Qed.

(** *** From the anchors of a listing page to the rules scraped *)

Lemma candidates_In (c : anchor -> option Rule) (page : list anchor) (r : Rule) :
  In r (candidates c page) <-> exists a, In a page /\ c a = Some r.
Proof.
  unfold candidates. rewrite in_flat_map. split.
  - intros [a [Hin Hr]]. exists a. split; [exact Hin |].
    destruct (c a) as [r' |]; [| destruct Hr].
    destruct Hr as [<- | []]. reflexivity.
  - intros [a [Hin Hr]]. exists a. split; [exact Hin |].
    rewrite Hr. now left.
Qed.

Lemma discovered (c : anchor -> option Rule) (page : list anchor) :
  NoDup (map ruleNumber (discover (candidates c page)))
  /\ (forall r, In r (discover (candidates c page)) ->
        exists a, In a page /\ c a = Some r)
  /\ (forall a r, In a page -> c a = Some r ->
        known (ruleNumber r) (discover (candidates c page)) = true).
Proof.
  split; [apply discover_NoDup |]. split.
  - intros r Hin. apply candidates_In.
    apply discover_keeps_first in Hin. now apply find_some in Hin.
  - intros a r Hin Hr. unfold discover. rewrite fold_push_known. simpl.
    apply known_In. apply candidates_In. now exists a.
Qed.

Lemma pdf_rules_shape (name_of : string -> string -> string)
    (tag : string) (number_of : string -> option string) (page : list anchor) :
  let c := fun a : anchor =>
    if includes ".pdf" (href a) && includes tag (href a) then
      match number_of (href a) with
      | Some n => Some {| ruleSet := tag; ruleNumber := n;
                          ruleName := name_of (text a) n;
                          url := pdf_url (href a) |}
      | None => None
      end
    else None in
  let rules := discover (candidates c page) in
  NoDup (map ruleNumber rules)
  /\ (forall r, In r rules ->
        ruleSet r = tag
        /\ prefix "http" (url r) = true
        /\ exists a, In a page
             /\ includes ".pdf" (href a) = true
             /\ includes tag (href a) = true
             /\ number_of (href a) = Some (ruleNumber r)
             /\ url r = pdf_url (href a)
             /\ ruleName r = name_of (text a) (ruleNumber r))
  /\ (forall a n, In a page ->
        includes ".pdf" (href a) = true -> includes tag (href a) = true ->
        number_of (href a) = Some n -> known n rules = true).
Proof.
  intros c rules. unfold rules.
  destruct (discovered c page) as [Hnd [Hfrom Hto]].
  split; [exact Hnd |]. split.
  - intros r Hin. destruct (Hfrom r Hin) as [a [Ha Hc]].
    unfold c in Hc.
    destruct (includes ".pdf" (href a)) eqn:H1; [| discriminate].
    destruct (includes tag (href a)) eqn:H2; [| discriminate].
    destruct (number_of (href a)) as [n |] eqn:H3; [| discriminate].
    simpl in Hc. injection Hc as <-. simpl.
    split; [reflexivity |]. split; [apply pdf_url_absolute |].
    exists a. repeat split; assumption.
  - intros a n Ha H1 H2 H3.
    apply (Hto a {| ruleSet := tag; ruleNumber := n;
                    ruleName := name_of (text a) n; url := pdf_url (href a) |} Ha).
    unfold c. now rewrite H1, H2, H3.
Qed.

(** X15. What the PDF scrapers hand to their download loop, for RALJ, RPC
    and the IRLJ/CRLJ scraper alike: the rules have pairwise distinct
    numbers; each carries the rule set's name and an absolute URL and was
    read off an anchor of the page whose link names a PDF and the rule
    set and whose file name gives the rule's number; and no such anchor
    is lost, its rule number is among the rules. *)
Theorem X15_pdf_rules_contract (name_of : string -> string -> string)
    (page : list anchor) (set : string) :
  let contract (tag : string) (number_of : string -> option string)
               (rules : list Rule) :=
    NoDup (map ruleNumber rules)
    /\ (forall r, In r rules ->
          ruleSet r = tag
          /\ prefix "http" (url r) = true
          /\ exists a, In a page
               /\ includes ".pdf" (href a) = true
               /\ includes tag (href a) = true
               /\ number_of (href a) = Some (ruleNumber r)
               /\ url r = pdf_url (href a)
               /\ ruleName r = name_of (text a) (ruleNumber r))
    /\ (forall a n, In a page ->
          includes ".pdf" (href a) = true -> includes tag (href a) = true ->
          number_of (href a) = Some n -> known n rules = true) in
  contract "RALJ" ralj_href_ruleNumber (scrapeRALJ_rules name_of page)
  /\ contract "RPC" rpc_href_ruleNumber (scrapeRPC_rules name_of page)
  /\ contract set v2_href_ruleNumber (scrapeRuleSet_pdf_rules name_of set page).
Proof.
  intros contract.
  split; [exact (pdf_rules_shape name_of "RALJ" ralj_href_ruleNumber page) |].
  split; [exact (pdf_rules_shape name_of "RPC" rpc_href_ruleNumber page) |].
  exact (pdf_rules_shape name_of set v2_href_ruleNumber page).
Qed.

End DiscoverFacts.

(** ** The scrape loops against the store *)
Module PipelineFacts.

Import Sqlite Schema Writer LawDatabase Lang Scraper Pipeline.
Import ListFacts SqliteFacts SortFacts DedupFacts IngestFacts DiscoverFacts.
Open Scope string_scope.

Section AnyFamily.
Context {S : Schema}.

Lemma in_sync_live (t : table) : in_sync t = true -> index_live t.
Proof.
  unfold in_sync, every_index_row_live. intros H.
  apply andb_true_iff in H. destruct H as [_ H].
  intros x Hx. rewrite forallb_forall in H.
  specialize (H x Hx). apply existsb_exists in H.
  destruct H as [r [Hr Heq]]. exists r. split; [exact Hr |].
  now apply Z.eqb_eq.
Qed.

(** A write under a key that is not stored keeps all of the invariant. *)
Lemma upsert_new_key (c : cols) (t : table) :
  wf t -> index_matches t -> index_live t ->
  (forall r, In r (rows t) -> conflicts c r = false) ->
  wf (upsert c t) /\ index_matches (upsert c t) /\ index_live (upsert c t)
  /\ List.length (rows (upsert c t)) = Datatypes.S (List.length (rows t)).
Proof.
  intros Hwf Hm Hl Hnew.
  split; [now apply insert_or_replace_wf |].
  split; [now apply insert_or_replace_index_matches |].
  split; [now apply upsert_fresh_index_live |].
  unfold upsert. rewrite (length_after default_connection c t Hwf).
  destruct (existsb (conflicts c) (rows t)) eqn:He; [| reflexivity].
  apply existsb_exists in He. destruct He as [r [Hr Hc]].
  rewrite (Hnew r Hr) in Hc. discriminate.
Qed.

End AnyFamily.

Lemma NoDup_map_coarser (A B C : Type) (f : A -> B) (g : A -> C) (l : list A) :
  (forall a b, g a = g b -> f a = f b) ->
  NoDup (map f l) -> NoDup (map g l).
Proof.
  intros Hfg. induction l as [| a l IH]; simpl; intros Hnd; [constructor |].
  apply NoDup_cons_iff in Hnd. destruct Hnd as [Ha Hnd].
  apply NoDup_cons_iff. split; [| now apply IH].
  intros Hin. apply Ha. apply in_map_iff in Hin.
  destruct Hin as [b [Hb Hin]]. apply in_map_iff. exists b.
  split; [now apply Hfg | exact Hin].
Qed.

Lemma store_rules_new_keys (page_of : Rule -> option (string * string * string))
    (rules : list Rule) (t : table (S := court_rules)) :
  reachable t -> index_live t ->
  NoDup (map (fun r => (ruleSet r, ruleNumber r)) rules) ->
  (forall r row, In r rules -> In row (rows t) ->
     unique_key (fields row) <> (ruleSet r, ruleNumber r)) ->
  let t' := store_rules page_of rules t in
  reachable t' /\ index_live t'
  /\ List.length (rows t')
     = (List.length (rows t)
        + List.length (filter (fun r => match page_of r with
                                        | Some _ => true
                                        | None => false
                                        end) rules))%nat.
Proof.
  revert t. induction rules as [| r rules IH]; intros t Hr Hl Hnd Hnew; simpl.
  - repeat split; [exact Hr | exact Hl | lia].
  - apply NoDup_cons_iff in Hnd. destruct Hnd as [Hfirst Hnd].
    destruct (page_of r) as [[[now name] fullText] |] eqn:Hp.
    + unfold court_rule_insertStmt.
      match goal with
      | |- context [upsert ?c t] => set (c0 := c)
      end.
      destruct (reachable_invariant Hr) as [Hwf Hm].
      assert (Hfresh : forall row, In row (rows t) -> conflicts c0 row = false).
      { intros row Hrow. unfold conflicts.
        apply key_eqb_false. apply (Hnew r row); [now left | exact Hrow]. }
      destruct (upsert_new_key (S := court_rules) c0 t Hwf Hm Hl Hfresh)
        as [_ [_ [Hl' Hlen]]].
      destruct (IH (upsert (S := court_rules) c0 t)) as [Hr2 [Hl2 Hlen2]].
      * now apply reachable_upsert.
      * exact Hl'.
      * exact Hnd.
      * intros r' row Hr' Hrow. unfold upsert in Hrow.
        rewrite rows_insert_or_replace in Hrow.
        apply in_app_or in Hrow. destruct Hrow as [Hrow | [<- | []]].
        -- apply filter_In in Hrow. apply (Hnew r' row); [now right | tauto].
        -- simpl. intros Heq. apply Hfirst.
           apply in_map_iff. exists r'. split; [now symmetry | exact Hr'].
      * repeat split; [exact Hr2 | exact Hl2 |].
        rewrite Hlen2, Hlen. simpl. lia.
    + destruct (IH t Hr Hl Hnd) as [Hr2 [Hl2 Hlen2]].
      * intros r' row Hr' Hrow. apply (Hnew r' row); [now right | exact Hrow].
      * repeat split; [exact Hr2 | exact Hl2 | exact Hlen2].
Qed.

Lemma reachable_in_sync (t : table (S := court_rules)) :
  reachable t -> index_live t -> in_sync t = true.
Proof.
  intros Hr Hl. destruct (reachable_invariant Hr) as [Hwf Hm].
  now apply in_sync_of_invariant.
Qed.

(** X16. Rules whose keys are pairwise distinct and not yet stored can be
    written to a table that is in sync without harm: afterwards the index
    is still in sync, and the table has grown by one row for every rule
    whose fetch succeeded.  (A stale index row needs a second write under
    a key that is already stored.) *)
Theorem X16_new_rules_keep_index_in_sync
    (page_of : Rule -> option (string * string * string))
    (rules : list Rule) (t : table (S := court_rules)) :
  reachable t -> in_sync t = true ->
  NoDup (map (fun r => (ruleSet r, ruleNumber r)) rules) ->
  (forall r, In r rules -> court_rule_get t (ruleSet r) (ruleNumber r) = None) ->
  let t' := store_rules page_of rules t in
  in_sync t' = true
  /\ table_count (Some t')
     = (table_count (Some t)
        + Z.of_nat (List.length (filter (fun r => match page_of r with
                                                  | Some _ => true
                                                  | None => false
                                                  end) rules)))%Z.
Proof.
  intros Hr Hs Hnd Hnone t'.
  destruct (store_rules_new_keys page_of rules t Hr (in_sync_live t Hs) Hnd)
    as [Hr' [Hl' Hlen]].
  - intros r row Hin Hrow Hkey.
    apply (LookupFacts.court_rule_get_complete t row Hrow).
    simpl in Hkey. unfold CourtRules.unique_key in Hkey.
    injection Hkey as -> ->. now apply Hnone.
  - split; [now apply reachable_in_sync |].
    unfold table_count, t'. rewrite Hlen. lia.
Qed.

Lemma X16_new_rules_keep_index_in_sync_witness :
  let rules :=
    [ {| ruleSet := "RALJ"; ruleNumber := "1.1"; ruleName := "Scope";
         url := "https://www.courts.wa.gov/court_rules/pdf/RALJ/CLJ_RALJ_01_01_00.pdf" |};
      {| ruleSet := "RALJ"; ruleNumber := "1.2"; ruleName := "Interpretation";
         url := "https://www.courts.wa.gov/court_rules/pdf/RALJ/CLJ_RALJ_01_02_00.pdf" |} ] in
  let page_of := fun r : Rule => Some (Fixture.now, ruleName r, "text of " ++ ruleNumber r) in
  in_sync (store_rules page_of rules Fixture.rules) = true
  /\ table_count (Some (store_rules page_of rules Fixture.rules)) = 5%Z.
Proof.
  intros rules page_of.
  refine (X16_new_rules_keep_index_in_sync page_of rules Fixture.rules
            fixture_rules_reachable eq_refl _ _).
  - repeat constructor; simpl; intuition discriminate.
  - intros r [<- | [<- | []]]; reflexivity.
Defined.

(** X17. A first scrape into an empty table leaves the index in sync,
    through every one of the scrape loops: the HTML scraper's (rules
    de-duplicated by [Map]), the PDF scrapers' (rules kept by the
    [find] guard), and the RALJ scraper's, which sorts them first. *)
Theorem X17_first_scrape_is_in_sync
    (html_page_of : Rule -> option (string * string))
    (page_of : Rule -> option (string * string * string))
    (found : list Rule) :
  in_sync (scrapeRuleSet_store html_page_of found empty_table) = true
  /\ in_sync (store_rules page_of (discover found) empty_table) = true
  /\ in_sync (store_rules page_of (ralj_sort (discover found)) empty_table) = true.
Proof.
  assert (Hgo : forall p rules,
            NoDup (map (fun r => (ruleSet r, ruleNumber r)) rules) ->
            in_sync (store_rules p rules empty_table) = true).
  { intros p rules Hnd.
    destruct (store_rules_new_keys p rules empty_table) as [Hr [Hl _]].
    - apply reachable_empty.
    - intros x [].
    - exact Hnd.
    - intros r row _ [].
    - now apply reachable_in_sync. }
  split; [| split].
  - unfold scrapeRuleSet_store. apply Hgo.
    apply (NoDup_map_coarser _ _ _ rule_key); [| apply uniqueRules_NoDup].
    intros a b Heq. injection Heq as Hs Hn. unfold rule_key. now rewrite Hs, Hn.
  - apply Hgo.
    apply (NoDup_map_coarser _ _ _ ruleNumber); [| apply discover_NoDup].
    intros a b Heq. now injection Heq.
  - apply Hgo.
    apply (NoDup_map_coarser _ _ _ ruleNumber); [now intros a b Heq; injection Heq |].
    apply (Permutation_NoDup (l := map ruleNumber (discover found))).
    + apply Permutation_map, Permutation_sym. apply sort_perm.
    + apply discover_NoDup.
Qed.

End PipelineFacts.

(** ** The order of the RALJ scrape *)
Module OrderFacts.

Import Lang Scraper Pipeline SortFacts.
Open Scope string_scope.

Lemma part_past_the_end (parts : list string) (i : nat) :
  (List.length parts <= i)%nat -> parseInt (part_or_zero parts i) = 0%Z.
Proof.
  intros Hi. unfold part_or_zero.
  now rewrite (proj2 (nth_error_None parts i) Hi).
Qed.

(** The loop returns at the first index where the parts differ. *)
Lemma compare_parts_spec (aParts bParts : list string) (n i : nat) :
  let va j := parseInt (part_or_zero aParts j) in
  let vb j := parseInt (part_or_zero bParts j) in
  (compare_parts n i aParts bParts = 0%Z
   /\ forall j, (i <= j < i + n)%nat -> va j = vb j)
  \/ exists k, (i <= k < i + n)%nat
       /\ (forall j, (i <= j < k)%nat -> va j = vb j)
       /\ va k <> vb k
       /\ compare_parts n i aParts bParts = (va k - vb k)%Z.
Proof.
  intros va vb. revert i. induction n as [| n IH]; intros i.
  - left. split; [reflexivity | intros j Hj; lia].
  - simpl. fold (va i) (vb i).
    destruct (va i =? vb i)%Z eqn:He; simpl.
    + apply Z.eqb_eq in He.
      destruct (IH (S i)) as [[H0 Hall] | [k [Hk [Hpre [Hne Hc]]]]].
      * left. split; [exact H0 |].
        intros j Hj. destruct (Nat.eq_dec j i) as [-> |]; [exact He |].
        apply Hall. lia.
      * right. exists k. split; [lia |]. split; [| now split].
        intros j Hj. destruct (Nat.eq_dec j i) as [-> |]; [exact He |].
        apply Hpre. lia.
    + apply Z.eqb_neq in He. right. exists i.
      split; [lia |]. split; [intros j Hj; lia |]. now split.
Qed.

(** Order by the first segment that differs is transitive. *)
Lemma before_transitive (seg : Rule -> nat -> Z) (a b c : Rule) :
  let before x y :=
    (forall i, seg x i = seg y i)
    \/ exists k, (forall j, (j < k)%nat -> seg x j = seg y j)
                 /\ (seg x k < seg y k)%Z in
  before a b -> before b c -> before a c.
Proof.
  intros before [Hab | [k1 [Hp1 Hlt1]]] [Hbc | [k2 [Hp2 Hlt2]]].
  - left. intros i. now rewrite Hab.
  - right. exists k2. split.
    + intros j Hj. rewrite Hab. now apply Hp2.
    + now rewrite Hab.
  - right. exists k1. split.
    + intros j Hj. rewrite <- Hbc. now apply Hp1.
    + now rewrite <- Hbc.
  - right. destruct (lt_eq_lt_dec k1 k2) as [[Hlt | ->] | Hgt].
    + exists k1. split.
      * intros j Hj. rewrite (Hp1 j Hj). apply Hp2. lia.
      * rewrite <- (Hp2 k1 Hlt). exact Hlt1.
    + exists k2. split.
      * intros j Hj. rewrite (Hp1 j Hj). now apply Hp2.
      * lia.
    + exists k2. split.
      * intros j Hj. rewrite (Hp1 j) by lia. now apply Hp2.
      * rewrite (Hp1 k2 Hgt). exact Hlt2.
Qed.

Lemma ralj_sort_ordered (rules : list Rule) :
  let seg r i := parseInt (part_or_zero (Citation.split_dot (ruleNumber r)) i) in
  let before a b :=
    (forall i, seg a i = seg b i)
    \/ exists k, (forall j, (j < k)%nat -> seg a j = seg b j)
                 /\ (seg a k < seg b k)%Z in
  StronglySorted before (ralj_sort rules).
Proof.
  intros seg before.
  apply Sorted_StronglySorted.
  - intros a b c. apply (before_transitive seg).
  - unfold ralj_sort.
    apply (@sort_Sorted Rule (fun a b => (ralj_compare a b <=? 0)%Z) before).
    + intros a b Hle. apply Z.leb_le in Hle. unfold ralj_compare in Hle.
      destruct (compare_parts_spec (Citation.split_dot (ruleNumber a))
                  (Citation.split_dot (ruleNumber b))
                  (Nat.max (List.length (Citation.split_dot (ruleNumber a)))
                           (List.length (Citation.split_dot (ruleNumber b)))) 0)
        as [[_ Hall] | [k [Hk [Hpre [Hne Hc]]]]].
      * left. intros i. unfold seg.
        destruct (Nat.lt_ge_cases i
                    (Nat.max (List.length (Citation.split_dot (ruleNumber a)))
                             (List.length (Citation.split_dot (ruleNumber b)))))
          as [Hi | Hi].
        -- apply Hall. lia.
        -- rewrite !part_past_the_end by lia. reflexivity.
      * right. exists k. split.
        -- intros j Hj. apply Hpre. lia.
        -- unfold seg. rewrite Hc in Hle. lia.
    + intros a b Hle. apply Z.leb_gt in Hle. unfold ralj_compare in Hle.
      destruct (compare_parts_spec (Citation.split_dot (ruleNumber a))
                  (Citation.split_dot (ruleNumber b))
                  (Nat.max (List.length (Citation.split_dot (ruleNumber a)))
                           (List.length (Citation.split_dot (ruleNumber b)))) 0)
        as [[H0 _] | [k [Hk [Hpre [Hne Hc]]]]].
      * rewrite H0 in Hle. lia.
      * right. exists k. split.
        -- intros j Hj. symmetry. apply Hpre. lia.
        -- unfold seg. rewrite Hc in Hle. lia.
Qed.

(** X18. The RALJ scraper downloads its rules in numeric order of their
    dotted numbers: the sorted list holds the rules found, each once, and
    any rule in it precedes any later one in the lexicographic order of
    the integer segments, a missing segment counting as 0 (so 1.2 comes
    before 1.10, and 1.1 before 1.1.1). *)
Theorem X18_ralj_rules_in_numeric_order
    (name_of : string -> string -> string) (page : list anchor) :
  let rules := ralj_sort (scrapeRALJ_rules name_of page) in
  let seg r i := parseInt (part_or_zero (Citation.split_dot (ruleNumber r)) i) in
  let before a b :=
    (forall i, seg a i = seg b i)
    \/ exists k, (forall j, (j < k)%nat -> seg a j = seg b j)
                 /\ (seg a k < seg b k)%Z in
  Permutation rules (scrapeRALJ_rules name_of page)
  /\ NoDup (map ruleNumber rules)
  /\ StronglySorted before rules.
Proof.
  intros rules seg before. unfold rules.
  split; [apply sort_perm |]. split.
  - apply (Permutation_NoDup (l := map ruleNumber (scrapeRALJ_rules name_of page))).
    + apply Permutation_map, Permutation_sym, sort_perm.
    + apply DiscoverFacts.discover_NoDup.
  - apply ralj_sort_ordered.
Qed.

(** The order at work on rule numbers of the RALJ file-name scheme. *)
Example ralj_sort_example :
  let mk n := {| ruleSet := "RALJ"; ruleNumber := n; ruleName := n;
                 url := EmptyString |} in
  map ruleNumber (ralj_sort [mk "1.10"; mk "10.1"; mk "1.2"; mk "1.1.1"; mk "1.1"])
  = ["1.1"; "1.1.1"; "1.2"; "1.10"; "10.1"].
Proof. reflexivity. Qed.

End OrderFacts.

(** ** What a search can return *)
Module SearchHitFacts.

Import Sqlite Schema Writer LawDatabase Lang Pipeline.
Import ListFacts SqliteFacts SortFacts SearchFacts.
Open Scope string_scope.

Lemma In_firstn (A : Type) (n : nat) (l : list A) (x : A) :
  In x (firstn n l) -> In x l.
Proof.
  revert l. induction n as [| n IH]; intros l; [intros [] |].
  destruct l as [| y l]; [intros [] |].
  simpl. intros [-> | Hin]; [now left | right; now apply IH].
Qed.

Lemma In_sql_limit (A : Type) (n : Z) (l : list A) (x : A) :
  In x (sql_limit n l) -> In x l.
Proof.
  unfold sql_limit. destruct (n <? 0)%Z; [auto | apply In_firstn].
Qed.

Lemma In_slice0 (A : Type) (e : Z) (l : list A) (x : A) :
  In x (slice0 e l) -> In x l.
Proof.
  unfold slice0. destruct (e <? 0)%Z; apply In_firstn.
Qed.

(** A hit pairs a live primary row with the index row built from that
    row's current columns, and the query matches those columns. *)
Lemma match_query_hit {S : Schema} {F : Fts5 S}
    (t : table) (query : string) (lim : Z) (h : fts_row * row) :
  reachable t -> In h (match_query t query lim) ->
  In (snd h) (rows t)
  /\ fst h = {| rowid := id (snd h); document := fts_cols (fields (snd h)) |}
  /\ fts5_match query (fts_cols (fields (snd h))) = true.
Proof.
  intros Hr Hin. destruct (reachable_invariant Hr) as [Hwf Hm].
  unfold match_query in Hin. apply In_sql_limit in Hin.
  apply (Permutation_in _ (sort_perm _ _)) in Hin.
  unfold join in Hin. apply in_flat_map in Hin.
  destruct Hin as [x [Hx Hin]].
  apply in_map_iff in Hin. destruct Hin as [r [<- Hr']].
  apply filter_In in Hr'. destruct Hr' as [Hrow Hid].
  apply filter_In in Hx. destruct Hx as [Hx Hmatch].
  apply Z.eqb_eq in Hid. simpl.
  assert (Hsame : x = {| rowid := id r; document := fts_cols (fields r) |}).
  { apply (NoDup_map_inj rowid (fts t)).
    - exact (wf_fts_ids Hwf).
    - exact Hx.
    - now apply Hm.
    - simpl. now symmetry. }
  split; [exact Hrow |]. split; [exact Hsame |].
  rewrite Hsame in Hmatch. exact Hmatch.
Qed.

Section Search.
Context {Frcw : Fts5 rcw} {Fwac : Fts5 wac} {Fcourt : Fts5 court_rules}.

(** X19. Search never returns anything that is not stored now.  On a
    store the scrapers have produced, every result stands for a live
    primary row of its family that the query matches, its citation and
    section name are read from that row and its snippet is cut from that
    row's current text, even when the index holds rows left behind by
    earlier versions; and its score is not negative. *)
Theorem X19_search_hits_are_live_rows (d : database) (query : string) (limit : Z) :
  scraped d ->
  Forall
    (fun r =>
       (0 <= score r)%Q
       /\ ((type r = "RCW"
            /\ exists row : rcw_row,
                 In row (rows (rcw_table d))
                 /\ fts5_match query (fts_cols (fields row)) = true
                 /\ citation r = Rcw.citation (fields row)
                 /\ sr_sectionName r = Rcw.section_name (fields row)
                 /\ snippet r = fts5_snippet 4 query (fts_cols (fields row)))
           \/ (type r = "WAC"
               /\ exists row : wac_row,
                    In row (rows (wac_table d))
                    /\ fts5_match query (fts_cols (fields row)) = true
                    /\ citation r = Wac.citation (fields row)
                    /\ sr_sectionName r = Wac.section_name (fields row)
                    /\ snippet r = fts5_snippet 4 query (fts_cols (fields row)))
           \/ (type r = "Court Rule"
               /\ exists (t : table (S := court_rules)) (row : court_rules_row),
                    court_rules_table d = Some t
                    /\ In row (rows t)
                    /\ fts5_match query (fts_cols (fields row)) = true
                    /\ citation r = CourtRules.rule_set (fields row) ++ " "
                                    ++ CourtRules.rule_number (fields row)
                    /\ sr_sectionName r = CourtRules.rule_name (fields row)
                    /\ snippet r = fts5_snippet 3 query (fts_cols (fields row)))))
    (searchLaws d query limit).
Proof.
  intros [Hrcw [Hwac Hcourt]]. apply Forall_forall. intros r Hin.
  unfold searchLaws in Hin. apply In_slice0 in Hin.
  apply (Permutation_in _ (sort_perm _ _)) in Hin.
  apply in_app_or in Hin. destruct Hin as [Hin | Hin].
  - unfold rcwResults in Hin. apply in_map_iff in Hin.
    destruct Hin as [h [<- Hh]].
    destruct (match_query_hit (rcw_table d) query _ h Hrcw Hh) as [Hrow [Hfst Hm]].
    split; [apply Qabs_nonneg |]. left. split; [reflexivity |].
    destruct h as [x row]. simpl in Hrow, Hfst, Hm. subst x.
    exists row. simpl. repeat split; assumption.
  - apply in_app_or in Hin. destruct Hin as [Hin | Hin].
    + unfold wacResults in Hin. apply in_map_iff in Hin.
      destruct Hin as [h [<- Hh]].
      destruct (match_query_hit (wac_table d) query _ h Hwac Hh) as [Hrow [Hfst Hm]].
      split; [apply Qabs_nonneg |]. right. left. split; [reflexivity |].
      destruct h as [x row]. simpl in Hrow, Hfst, Hm. subst x.
    exists row. simpl. repeat split; assumption.
    + unfold courtResults in Hin.
      destruct (court_rules_table d) as [t |] eqn:Ht; [| destruct Hin].
      apply in_map_iff in Hin. destruct Hin as [h [<- Hh]].
      destruct (match_query_hit t query _ h Hcourt Hh) as [Hrow [Hfst Hm]].
      split; [apply Qabs_nonneg |]. right. right. split; [reflexivity |].
      destruct h as [x row]. simpl in Hrow, Hfst, Hm. subst x.
      exists t, row. simpl. repeat split; assumption.
Qed.


End Search.

Import Fixture.

Lemma fixture_store_scraped : scraped Fixture.store.
Proof.
  unfold scraped. simpl. repeat split.
  - unfold Fixture.statutes, rcw_insertStmt.
    repeat apply reachable_upsert. apply reachable_empty.
  - apply reachable_empty.
  - unfold Fixture.rules, court_rule_insertStmt.
    repeat apply reachable_upsert. apply reachable_empty.
Defined.

Lemma X19_search_hits_are_live_rows_witness :
  scraped Fixture.store
  /\ Forall (fun r => (0 <= score r)%Q) (searchLaws Fixture.store "firearm" 6).
Proof.
  split; [exact fixture_store_scraped |].
  refine (Forall_impl _ _
            (X19_search_hits_are_live_rows Fixture.store "firearm" 6
               fixture_store_scraped)).
  intros r H. exact (proj1 H).
Defined.


End SearchHitFacts.

(** ** Listings against the rows they are read from *)
Module ListingFacts.

Import Sqlite Schema Writer LawDatabase Lang.
Import ListFacts SqliteFacts SortFacts.
Open Scope string_scope.

Lemma opt_eqb_eq (a b : option string) : opt_eqb a b = true <-> a = b.
Proof.
  destruct a as [x |], b as [y |]; simpl; split; intros H; try congruence.
  - apply String.eqb_eq in H. congruence.
  - injection H as ->. apply String.eqb_refl.
Qed.

Lemma name_key_eqb_eq (a b : string * option string) :
  name_key_eqb a b = true <-> a = b.
Proof.
  destruct a as [a1 a2], b as [b1 b2]. unfold name_key_eqb. simpl.
  rewrite andb_true_iff, String.eqb_eq, opt_eqb_eq.
  split; [intros [-> ->]; reflexivity | intros H; injection H as -> ->; auto].
Qed.

Lemma NoDup_snoc (A : Type) (l : list A) (x : A) :
  NoDup l -> ~ In x l -> NoDup (l ++ [x]).
Proof.
  intros Hl Hx. induction l as [| y l IH]; simpl.
  - repeat constructor. intros [].
  - apply NoDup_cons_iff in Hl. destruct Hl as [Hy Hl].
    apply NoDup_cons_iff. split.
    + rewrite in_app_iff. simpl. intros [H | [-> | []]]; [tauto |].
      apply Hx. now left.
    + apply IH; [exact Hl |]. intros H. apply Hx. now right.
Qed.

Section GroupBy.
Variable K : Type.
Variable eqb : K -> K -> bool.
Hypothesis eqb_eq : forall a b, eqb a b = true <-> a = b.

Lemma bump_total (k : K) (acc : list (K * Z)) :
  fold_right Z.add 0%Z (map snd (bump eqb k acc))
  = (fold_right Z.add 0%Z (map snd acc) + 1)%Z.
Proof.
  induction acc as [| [k' n] acc IH]; simpl; [reflexivity |].
  destruct (eqb k' k); simpl; [lia | rewrite IH; lia].
Qed.

Lemma bump_keys (k : K) (acc : list (K * Z)) :
  map fst (bump eqb k acc)
  = if existsb (fun e => eqb (fst e) k) acc then map fst acc
    else (map fst acc ++ [k])%list.
Proof.
  induction acc as [| [k' n] acc IH]; simpl; [reflexivity |].
  destruct (eqb k' k); simpl; [reflexivity |].
  rewrite IH. now destruct (existsb _ acc).
Qed.

Lemma bump_positive (k : K) (acc : list (K * Z)) :
  Forall (fun e => (1 <= snd e)%Z) acc ->
  Forall (fun e => (1 <= snd e)%Z) (bump eqb k acc).
Proof.
  induction acc as [| [k' n] acc IH]; simpl; intros H.
  - repeat constructor. simpl. lia.
  - inversion H as [| ? ? Hn Hacc]; subst. simpl in Hn.
    destruct (eqb k' k); constructor; simpl; auto; lia.
Qed.

Lemma groups_from (ks : list K) (acc : list (K * Z)) :
  let g := fold_left (fun acc k => bump eqb k acc) ks acc in
  fold_right Z.add 0%Z (map snd g)
  = (fold_right Z.add 0%Z (map snd acc) + Z.of_nat (List.length ks))%Z
  /\ (NoDup (map fst acc) -> NoDup (map fst g))
  /\ (Forall (fun e => (1 <= snd e)%Z) acc -> Forall (fun e => (1 <= snd e)%Z) g)
  /\ (forall k, In k (map fst g) <-> In k (map fst acc) \/ In k ks).
Proof.
  revert acc. induction ks as [| k ks IH]; intros acc; simpl.
  - repeat split; auto; try lia; tauto.
  - destruct (IH (bump eqb k acc)) as [Hsum [Hnd [Hpos Hin]]].
    assert (Hkeys : forall x, In x (map fst (bump eqb k acc))
                              <-> In x (map fst acc) \/ x = k).
    { intros x. rewrite bump_keys.
      destruct (existsb (fun e => eqb (fst e) k) acc) eqn:He.
      - apply existsb_exists in He. destruct He as [e [He1 He2]].
        apply eqb_eq in He2. split; [tauto |].
        intros [H | ->]; [exact H |]. rewrite <- He2. now apply in_map.
      - rewrite in_app_iff. simpl. split; [intros [H | [<- | []]]; auto |].
        intros [H | ->]; auto. }
    split; [| split; [| split]].
    + rewrite Hsum, bump_total. lia.
    + intros Hacc. apply Hnd. rewrite bump_keys.
      destruct (existsb (fun e => eqb (fst e) k) acc) eqn:He; [exact Hacc |].
      apply NoDup_snoc; [exact Hacc |].
      intros Hk. apply in_map_iff in Hk. destruct Hk as [e [He1 He2]].
      assert (Ht : existsb (fun e => eqb (fst e) k) acc = true).
      { apply existsb_exists. exists e. split; [exact He2 |]. now apply eqb_eq. }
      congruence.
    + intros Hacc. now apply Hpos, bump_positive.
    + intros x. rewrite Hin, Hkeys. split.
      * intros [[H | ->] | H]; auto.
      * intros [H | [<- | H]]; auto.
Qed.

Lemma group_has (ks : list K) (k : K) :
  In k ks -> exists n, (1 <= n)%Z /\ In (k, n) (group_count eqb ks).
Proof.
  intros Hin. unfold group_count.
  destruct (groups_from ks []) as [_ [_ [Hpos Hkeys]]].
  assert (Hk : In k (map fst (fold_left (fun acc k => bump eqb k acc) ks []))).
  { apply Hkeys. now right. }
  apply in_map_iff in Hk. destruct Hk as [[k' n] [Hfst He]]. simpl in Hfst. subst k'.
  exists n. split; [| exact He].
  specialize (Hpos (Forall_nil _)). rewrite Forall_forall in Hpos.
  exact (Hpos (k, n) He).
Qed.

End GroupBy.

Lemma total_perm (l l' : list Z) :
  Permutation l l' -> fold_right Z.add 0%Z l = fold_right Z.add 0%Z l'.
Proof.
  induction 1; simpl; lia.
Qed.

(** What a GROUP BY listing owes to the rows it groups, in any order. *)
Lemma grouped_listing (le : (string * option string) * Z -> (string * option string) * Z -> bool)
    (keys : list (string * option string)) :
  let groups := sort le (group_count name_key_eqb keys) in
  fold_right Z.add 0%Z (map snd groups) = Z.of_nat (List.length keys)
  /\ NoDup (map fst groups)
  /\ Forall (fun g => (1 <= snd g)%Z) groups
  /\ (forall k, In k keys -> exists n, (1 <= n)%Z /\ In (k, n) groups).
Proof.
  intros groups.
  pose proof (sort_perm le (group_count name_key_eqb keys)) as Hperm.
  fold groups in Hperm.
  destruct (groups_from _ name_key_eqb name_key_eqb_eq keys [])
    as [Hsum [Hnd [Hpos _]]].
  fold (group_count name_key_eqb keys) in Hsum, Hnd, Hpos.
  split; [| split; [| split]].
  - rewrite (total_perm _ _ (Permutation_map snd Hperm)), Hsum. simpl. lia.
  - apply (Permutation_NoDup (Permutation_sym (Permutation_map fst Hperm))).
    apply Hnd. constructor.
  - apply (Permutation_Forall (Permutation_sym Hperm)). apply Hpos. constructor.
  - intros k Hk.
    destruct (group_has _ name_key_eqb name_key_eqb_eq keys k Hk) as [n [Hn Hin]].
    exists n. split; [exact Hn |].
    apply (Permutation_in _ (Permutation_sym Hperm)). exact Hin.
Qed.

(** X21. The title and chapter listings account for every section
    exactly once: the counts of the titles add up to the number of
    sections stored (the RCW count of [getStatistics]), the counts of a
    title's chapters add up to the number of that title's sections, no
    (number, name) pair is listed twice, and no entry has a count
    below 1. *)
Theorem X21_listings_account_for_every_section (t : table (S := rcw)) (title : string) :
  fold_right Z.add 0%Z (map titleCount (listRCWTitles t)) = table_count (Some t)
  /\ NoDup (map (fun x => (titleNum x, titleName x)) (listRCWTitles t))
  /\ Forall (fun x => (1 <= titleCount x)%Z) (listRCWTitles t)
  /\ fold_right Z.add 0%Z (map chapterCount (listRCWChapters t title))
     = Z.of_nat (List.length
                   (filter (fun r : rcw_row => Rcw.title_num (fields r) =? title)
                           (rows t)))
  /\ NoDup (map (fun x => (chapterNum x, chapterName x)) (listRCWChapters t title))
  /\ Forall (fun x => (1 <= chapterCount x)%Z) (listRCWChapters t title).
Proof.
  unfold listRCWTitles, listRCWChapters.
  match goal with
  | |- context [map _ (sort ?le (group_count name_key_eqb ?keys))] =>
      destruct (grouped_listing le keys) as [T1 [T2 [T3 _]]]
  end.
  match goal with
  | |- context [map _ (sort ?le (group_count name_key_eqb
                                   (map ?f (filter ?p (rows t)))))] =>
      destruct (grouped_listing le (map f (filter p (rows t)))) as [C1 [C2 [C3 _]]]
  end.
  rewrite length_map in T1, C1.
  repeat split.
  - rewrite map_map. simpl. exact T1.
  - rewrite map_map. simpl.
    erewrite map_ext; [exact T2 |]. intros [[a b] n]. reflexivity.
  - apply Forall_map. exact T3.
  - rewrite map_map. simpl. exact C1.
  - rewrite map_map. simpl.
    erewrite map_ext; [exact C2 |]. intros [[a b] n]. reflexivity.
  - apply Forall_map. exact C3.
Qed.

Lemma written_row_in_rows {S : Schema} (c : cols) (t : table) :
  In {| id := next_rowid t; fields := c |} (rows (upsert c t)).
Proof.
  unfold upsert. rewrite rows_insert_or_replace.
  apply in_or_app. right. now left.
Qed.

(** X22. A section that has just been written can be browsed to: it is
    listed under its chapter with the name written, its chapter is listed
    under its title, and its title is among the titles, each with a count
    of one or more. *)
Theorem X22_written_section_is_listed
    (now citation titleNum chapterNum sectionNum : string)
    (titleName chapterName sectionName fullText : string)
    (effectiveDate lastAmended : option string) (t : table (S := rcw)) :
  let t' := rcw_insertStmt now citation titleNum chapterNum sectionNum
              titleName chapterName sectionName fullText
              effectiveDate lastAmended t in
  In {| sectionCitation := citation; LawDatabase.sectionName := Some sectionName |}
     (listRCWSections t' chapterNum)
  /\ (exists n, (1 <= n)%Z
        /\ In {| LawDatabase.chapterNum := chapterNum;
                 LawDatabase.chapterName := Some chapterName;
                 chapterCount := n |}
              (listRCWChapters t' titleNum))
  /\ (exists n, (1 <= n)%Z
        /\ In {| LawDatabase.titleNum := titleNum;
                 LawDatabase.titleName := Some titleName;
                 titleCount := n |}
              (listRCWTitles t')).
Proof.
  intros t'. unfold t', rcw_insertStmt.
  match goal with
  | |- context [upsert ?c t] =>
      set (c0 := c); pose proof (written_row_in_rows (S := rcw) c0 t) as Hrow
  end.
  set (new := @Build_row rcw (next_rowid t) c0) in Hrow.
  split; [| split].
  - unfold listRCWSections.
    apply (in_map (fun r : rcw_row =>
                     {| sectionCitation := Rcw.citation (fields r);
                        LawDatabase.sectionName := Rcw.section_name (fields r) |})
                  _ new).
    apply (Permutation_in _ (Permutation_sym (sort_perm _ _))).
    apply filter_In. split; [exact Hrow | apply String.eqb_refl].
  - unfold listRCWChapters.
    match goal with
    | |- context [sort ?le (group_count name_key_eqb ?keys)] =>
        destruct (grouped_listing le keys) as [_ [_ [_ Hhas]]];
        destruct (Hhas (chapterNum, Some chapterName)) as [n [Hn Hin]]
    end.
    + apply (in_map (fun r : rcw_row =>
                       (Rcw.chapter_num (fields r), Rcw.chapter_name (fields r)))
                    _ new).
      apply filter_In. split; [exact Hrow | apply String.eqb_refl].
    + exists n. split; [exact Hn |].
      apply (in_map (fun g : (string * option string) * Z =>
                       {| LawDatabase.chapterNum := fst (fst g);
                          LawDatabase.chapterName := snd (fst g);
                          chapterCount := snd g |}) _ _ Hin).
  - unfold listRCWTitles.
    match goal with
    | |- context [sort ?le (group_count name_key_eqb ?keys)] =>
        destruct (grouped_listing le keys) as [_ [_ [_ Hhas]]];
        destruct (Hhas (titleNum, Some titleName)) as [n [Hn Hin]]
    end.
    + apply (in_map (fun r : rcw_row =>
                       (Rcw.title_num (fields r), Rcw.title_name (fields r)))
                    _ new).
      exact Hrow.
    + exists n. split; [exact Hn |].
      apply (in_map (fun g : (string * option string) * Z =>
                       {| LawDatabase.titleNum := fst (fst g);
                          LawDatabase.titleName := snd (fst g);
                          titleCount := snd g |}) _ _ Hin).
Qed.

Lemma filter_true (A : Type) (l : list A) : filter (fun _ => true) l = l.
Proof. induction l as [| x l IH]; simpl; [reflexivity | now rewrite IH]. Qed.

(** X23. The rule listing shows exactly the rules stored: with a rule
    set given, the rules of that set, each once; with none given, or with
    the empty string, every rule stored.  A rule that has just been
    written is in the listing of its set and in the listing of all. *)
Theorem X23_rule_listing_is_complete (t : table (S := court_rules))
    (rs : option string) (now ruleSet ruleNumber ruleName fullText : string) :
  Permutation (listCourtRules t rs)
    (map rule_listing
       (filter (fun r : court_rules_row =>
                  negb (truthy rs)
                  || (CourtRules.rule_set (fields r) =? show rs EmptyString))
               (rows t)))
  /\ listCourtRules t (Some EmptyString) = listCourtRules t None
  /\ List.length (listCourtRules t None) = List.length (rows t)
  /\ let t' := court_rule_insertStmt now ruleSet ruleNumber ruleName fullText t in
     let listed := {| l_ruleSet := ruleSet; l_ruleNumber := ruleNumber;
                      l_ruleName := Some ruleName |} in
     In listed (listCourtRules t' (Some ruleSet))
     /\ In listed (listCourtRules t' None).
Proof.
  assert (Hall : forall t0 : table (S := court_rules),
            Permutation (listCourtRules t0 None) (map rule_listing (rows t0))).
  { intros t0. unfold listCourtRules. simpl.
    apply Permutation_map, sort_perm. }
  assert (Hset : forall (t0 : table (S := court_rules)) s,
            truthy (Some s) = true ->
            Permutation (listCourtRules t0 (Some s))
              (map rule_listing
                 (filter (fun r : court_rules_row =>
                            CourtRules.rule_set (fields r) =? s) (rows t0)))).
  { intros t0 s Hs. unfold listCourtRules. rewrite Hs. simpl.
    apply Permutation_map, sort_perm. }
  split; [| split; [| split]].
  - destruct (truthy rs) eqn:Hrs.
    + destruct rs as [s |]; [| discriminate]. simpl. now apply Hset.
    + simpl. rewrite filter_true.
      unfold listCourtRules. rewrite Hrs.
      apply Permutation_map, sort_perm.
  - reflexivity.
  - rewrite (Permutation_length (Hall t)). apply length_map.
  - intros t' listed.
    assert (Hrow : exists row : court_rules_row,
               In row (rows t') /\ rule_listing row = listed
               /\ CourtRules.rule_set (fields row) = ruleSet).
    { unfold t', court_rule_insertStmt.
      match goal with
      | |- context [upsert ?c t] =>
          exists (@Build_row court_rules (next_rowid t) c);
          split; [apply (written_row_in_rows (S := court_rules) c t) | now split]
      end. }
    destruct Hrow as [row [Hin [Hl Hs]]]. split.
    + destruct (truthy (Some ruleSet)) eqn:Ht.
      * apply (Permutation_in _ (Permutation_sym (Hset t' ruleSet Ht))).
        rewrite <- Hl. apply in_map. apply filter_In.
        split; [exact Hin |]. rewrite Hs. apply String.eqb_refl.
      * unfold listCourtRules. rewrite Ht.
        change (In listed (listCourtRules t' None)).
        apply (Permutation_in _ (Permutation_sym (Hall t'))).
        rewrite <- Hl. now apply in_map.
    + apply (Permutation_in _ (Permutation_sym (Hall t'))).
      rewrite <- Hl. now apply in_map.
Qed.

End ListingFacts.

(** ** The tools over the concrete database *)
Module ToolFacts.

Import Sqlite Schema LawDatabase Lang Server.
Import SearchFacts ServerFacts.
Open Scope string_scope.

Section Tools.
Context {Frcw : Fts5 rcw} {Fwac : Fts5 wac} {Fcourt : Fts5 court_rules}.
Variable toLocaleString : Z -> string.
Variable bind_error : string.

Lemma search_with_no_room (d : database) (query : string) (limit : Z) :
  perTypeLimit limit = 0%Z -> searchLaws d query limit = [].
Proof.
  intros H0. unfold searchLaws, rcwResults, wacResults, courtResults.
  rewrite H0, !match_query_zero.
  destruct (court_rules_table d); [rewrite match_query_zero |];
    simpl; unfold slice0; destruct (limit <? 0)%Z; apply firstn_nil.
Qed.

(** X24. The limit of the search tool, as a caller meets it: with a limit
    of 1 or 2 the tool reports that nothing was found, for every store
    and every query; a limit of 0 and a limit left out both search with
    the default of 20. *)
Theorem X24_search_tool_limits (d : database) (query : string) :
  let call limit :=
    CallTool toLocaleString (law_database bind_error d) "search_laws"
      {| arg_citation := None; arg_ruleSet := None; arg_ruleNumber := None;
         arg_query := Some query; arg_limit := limit; arg_titleNum := None;
         arg_chapterNum := None |} in
  let nothing :=
    Ok (text_result ("No results found for query: "
                     ++ dquote ++ query ++ dquote)) in
  call (Some 1%Z) = nothing
  /\ call (Some 2%Z) = nothing
  /\ call (Some 0%Z) = call (Some 20%Z)
  /\ call None = call (Some 20%Z).
Proof.
  intros call nothing. unfold call, nothing, CallTool, dispatch. simpl.
  rewrite !search_with_no_room by reflexivity.
  repeat split; reflexivity.
Qed.


End Tools.

(** X26. With a database layer that does not throw, a call is answered
    with the text of its arm exactly when the tool is one of those the
    server advertises; any other name is answered with the error text of
    an unknown tool. *)
Theorem X26_advertised_tools_are_the_tools_served
    (toLocaleString : Z -> string)
    (getRCW : option string -> option RCWSection)
    (getWAC : option string -> option WACSection)
    (getCourtRule : option string -> option string -> option CourtRule)
    (listCourtRules : option string -> list RuleListing)
    (searchLaws : option string -> Z -> list SearchResult)
    (listRCWTitles : list TitleListing)
    (listRCWChapters : option string -> list ChapterListing)
    (listRCWSections : option string -> list SectionListing)
    (getStatistics : Statistics)
    (name : string) (args : arguments) :
  let db := {| db_getRCW := fun c => Ok (getRCW c);
               db_getWAC := fun c => Ok (getWAC c);
               db_getCourtRule := fun rs rn => Ok (getCourtRule rs rn);
               db_listCourtRules := fun rs => Ok (listCourtRules rs);
               db_searchLaws := fun q limit => Ok (searchLaws q limit);
               db_listRCWTitles := Ok listRCWTitles;
               db_listRCWChapters := fun t => Ok (listRCWChapters t);
               db_listRCWSections := fun c => Ok (listRCWSections c);
               db_getStatistics := Ok getStatistics |} in
  ((exists r, dispatch toLocaleString db name args = Ok r) <-> In name tool_names)
  /\ (~ In name tool_names ->
      CallTool toLocaleString db name args
      = Ok (text_result ("Error: Unknown tool: " ++ name))).
Proof.
  intros db.
  assert (Hunknown : ~ In name tool_names ->
            dispatch toLocaleString db name args = Throw ("Unknown tool: " ++ name)).
  { intros Hout. apply dispatch_unknown.
    destruct (existsb (String.eqb name) tool_names) eqn:He; [| reflexivity].
    apply existsb_exists in He. destruct He as [n [Hin Heq]].
    apply String.eqb_eq in Heq. subst n. contradiction. }
  split; [split |].
  - intros [r Hr].
    destruct (in_dec string_dec name tool_names) as [Hin | Hout]; [exact Hin |].
    rewrite (Hunknown Hout) in Hr. discriminate.
  - intros Hin. simpl in Hin.
    repeat (destruct Hin as [<- | Hin]); try contradiction;
      unfold dispatch; simpl.
    + destruct (getRCW _); eexists; reflexivity.
    + destruct (getCourtRule _ _); eexists; reflexivity.
    + destruct (listCourtRules _); eexists; reflexivity.
    + destruct (getWAC _); eexists; reflexivity.
    + destruct (searchLaws _ _); eexists; reflexivity.
    + eexists; reflexivity.
    + destruct (listRCWChapters _); eexists; reflexivity.
    + destruct (listRCWSections _); eexists; reflexivity.
    + eexists; reflexivity.
  - intros Hout. unfold CallTool. now rewrite (Hunknown Hout).
Qed.

(** *** From the write to the tool's answer *)

Lemma getRCW_written
    (now citation titleNum chapterNum sectionNum : string)
    (titleName chapterName sectionName fullText : string)
    (effectiveDate lastAmended : option string) (t : table (S := rcw)) :
  getRCW (Writer.rcw_insertStmt now citation titleNum chapterNum sectionNum
            titleName chapterName sectionName fullText
            effectiveDate lastAmended t) citation
  = Some {| rcw_citation := citation;
            rcw_titleNum := titleNum;
            rcw_chapterNum := chapterNum;
            rcw_sectionNum := sectionNum;
            rcw_titleName := Some titleName;
            rcw_chapterName := Some chapterName;
            rcw_sectionName := Some sectionName;
            rcw_fullText := fullText;
            rcw_effectiveDate := effectiveDate;
            rcw_lastAmended := lastAmended |}.
Proof.
  unfold Writer.rcw_insertStmt, upsert, getRCW.
  match goal with
  | |- context [insert_or_replace ?cn ?c t] =>
      pose proof (IngestFacts.find_written (S := rcw) cn c t) as H
  end.
  IngestFacts.find_by H. reflexivity.
Qed.

(** X30. From the scraper's write to the reader's screen: once a section
    or a rule has been written, the lookup tool answers with the text
    laid out from exactly the columns written, whatever the tables held
    before. *)
Theorem X30_written_documents_are_served
    (toLocaleString : Z -> string) (bind_error : string)
    {Frcw : Fts5 rcw} {Fwac : Fts5 wac} {Fcourt : Fts5 court_rules}
    (now citation titleNum chapterNum sectionNum : string)
    (titleName chapterName sectionName fullText : string)
    (effectiveDate : option string)
    (ruleSet ruleNumber ruleName ruleText : string)
    (statutes : table (S := rcw)) (regulations : table (S := wac))
    (rules : table (S := court_rules)) (meta : list (string * string)) :
  let d := {| rcw_table := Writer.rcw_insertStmt now citation titleNum chapterNum
                             sectionNum titleName chapterName sectionName
                             fullText effectiveDate None statutes;
              wac_table := regulations;
              court_rules_table :=
                Some (Writer.court_rule_insertStmt now ruleSet ruleNumber
                        ruleName ruleText rules);
              metadata := meta |} in
  let call := CallTool toLocaleString (law_database bind_error d) in
  let asking c rs rn :=
    {| arg_citation := c; arg_ruleSet := rs; arg_ruleNumber := rn;
       arg_query := None; arg_limit := None; arg_titleNum := None;
       arg_chapterNum := None |} in
  call "get_rcw" (asking (Some citation) None None)
  = Ok (text_result
          (rcw_text {| rcw_citation := citation;
                       rcw_titleNum := titleNum;
                       rcw_chapterNum := chapterNum;
                       rcw_sectionNum := sectionNum;
                       rcw_titleName := Some titleName;
                       rcw_chapterName := Some chapterName;
                       rcw_sectionName := Some sectionName;
                       rcw_fullText := fullText;
                       rcw_effectiveDate := effectiveDate;
                       rcw_lastAmended := None |}))
  /\ call "get_court_rule" (asking None (Some ruleSet) (Some ruleNumber))
     = Ok (text_result
             (court_rule_text {| LawDatabase.ruleSet := ruleSet;
                                 LawDatabase.ruleNumber := ruleNumber;
                                 LawDatabase.ruleName := Some ruleName;
                                 LawDatabase.fullText := ruleText;
                                 LawDatabase.updatedAt := now |})).
Proof.
  intros d call asking. unfold call, asking, CallTool, dispatch. simpl.
  split.
  - unfold d. simpl. rewrite getRCW_written. reflexivity.
  - unfold d. simpl. unfold getCourtRule, getCourtRule_probes.
    rewrite IngestFacts.court_rule_get_written. reflexivity.
Qed.

End ToolFacts.

(** ** From a published link to the rule number *)
Module HrefFacts.

Import Lang Scraper NormalizeFacts.
Open Scope string_scope.

Lemma first_match_here (A : Type) (at_head : string -> option A) (s : string) (x : A) :
  at_head s = Some x -> first_match at_head s = Some x.
Proof. intros H. destruct s; simpl; now rewrite H. Qed.

Lemma span_run_then (p : ascii -> bool) (run rest : string) :
  forallb p (list_ascii_of_string run) = true ->
  match rest with
  | EmptyString => True
  | String c _ => p c = false
  end ->
  span p (run ++ rest) = (list_ascii_of_string run, rest).
Proof.
  intros Hrun Hrest. induction run as [| c run IH]; simpl in *.
  - destruct rest as [| c rest]; [reflexivity |]. simpl. now rewrite Hrest.
  - apply andb_true_iff in Hrun. destruct Hrun as [Hc Hrun].
    rewrite Hc, (IH Hrun). reflexivity.
Qed.

Lemma pad2_digits (n : Z) :
  (0 <= n < 100)%Z ->
  forallb is_digit (list_ascii_of_string (pad2 n)) = true
  /\ pad2 n <> EmptyString.
Proof.
  intros Hn.
  assert (H : (forallb is_digit (list_ascii_of_string (pad2 n))
               && negb (pad2 n =? EmptyString)) = true).
  { apply (below_100
             (fun k => forallb is_digit (list_ascii_of_string (pad2 k))
                       && negb (pad2 k =? EmptyString))); [| exact Hn].
    vm_compute. reflexivity. }
  apply andb_true_iff in H. destruct H as [H1 H2]. split; [exact H1 |].
  intros He. rewrite He in H2. discriminate.
Qed.

(** A two-digit field followed by a character that is no digit. *)
Lemma run1_pad2 (n : Z) (c : ascii) (rest : string) :
  (0 <= n < 100)%Z -> is_digit c = false ->
  run1 is_digit (pad2 n ++ String c rest) = Some (pad2 n, String c rest).
Proof.
  intros Hn Hc. destruct (pad2_digits n Hn) as [Hd Hne].
  unfold run1. rewrite (span_run_then is_digit (pad2 n) (String c rest) Hd Hc).
  destruct (pad2 n) as [| d ds] eqn:Hp; [congruence |].
  simpl. now rewrite string_of_list_ascii_of_string.
Qed.

Lemma eqb_ci_refl (c : ascii) : eqb_ci c c = true.
Proof. unfold eqb_ci. apply Ascii.eqb_refl. Qed.

Lemma strip_prefix_ci_app (p s : string) : strip_prefix_ci p (p ++ s) = Some s.
Proof.
  induction p as [| c p IH]; simpl; [reflexivity |].
  now rewrite eqb_ci_refl.
Qed.

Lemma strip_underscore (s : string) : strip_prefix_ci "_" (String "_" s) = Some s.
Proof. reflexivity. Qed.

(** The three fields of a published file name, read back. *)
Lemma fields_of_file_name (prefix : string) (major minor sub : Z) :
  (0 <= major < 100)%Z -> (0 <= minor < 100)%Z -> (0 <= sub < 100)%Z ->
  file_fields_at prefix (file_name prefix major minor sub)
  = Some (pad2 major, pad2 minor, pad2 sub).
Proof.
  intros H1 H2 H3. unfold file_fields_at, file_name.
  rewrite strip_prefix_ci_app.
  change (pad2 major ++ "_" ++ pad2 minor ++ "_" ++ pad2 sub ++ ".pdf")
    with (pad2 major ++ String "_" (pad2 minor ++ String "_" (pad2 sub ++ String "." "pdf"))).
  rewrite (run1_pad2 major "_" _ H1 eq_refl). cbn [fst snd].
  rewrite strip_underscore.
  rewrite (run1_pad2 minor "_" _ H2 eq_refl). cbn [fst snd].
  rewrite strip_underscore.
  rewrite (run1_pad2 sub "." _ H3 eq_refl). cbn [fst snd].
  reflexivity.
Qed.

Lemma v2_fields_of_tail (major minor sub : Z) :
  (0 <= major < 100)%Z -> (0 <= minor < 100)%Z -> (0 <= sub < 100)%Z ->
  (s1 <- Some (pad2 major ++ "_" ++ pad2 minor ++ "_" ++ pad2 sub ++ ".pdf") ;;
   f1 <- run1 is_digit s1 ;;
   s2 <- strip_prefix_ci "_" (snd f1) ;;
   f2 <- run1 is_digit s2 ;;
   s3 <- strip_prefix_ci "_" (snd f2) ;;
   f3 <- run1 is_digit s3 ;;
   _ <- strip_prefix_ci ".pdf" (snd f3) ;;
   Some (fst f1, fst f2))
  = Some (pad2 major, pad2 minor).
Proof.
  intros H1 H2 H3. cbv beta iota.
  change (pad2 major ++ "_" ++ pad2 minor ++ "_" ++ pad2 sub ++ ".pdf")
    with (pad2 major ++ String "_" (pad2 minor ++ String "_" (pad2 sub ++ String "." "pdf"))).
  rewrite (run1_pad2 major "_" _ H1 eq_refl). cbn [fst snd].
  rewrite strip_underscore.
  rewrite (run1_pad2 minor "_" _ H2 eq_refl). cbn [fst snd].
  rewrite strip_underscore.
  rewrite (run1_pad2 sub "." _ H3 eq_refl). cbn [fst snd].
  reflexivity.
Qed.

(** X27. From a published link to the rule number and back.  For a
    (major, minor, sub) triple of numbers below 100 and the link the
    site publishes for it, directory and all: the file name gives back
    the triple, and each scraper derives the number of its scheme from
    the link, "major.minor" when the sub part is 0. *)
Theorem X27_published_links_give_their_numbers (major minor sub : Z) :
  (0 <= major < 100)%Z -> (0 <= minor < 100)%Z -> (0 <= sub < 100)%Z ->
  let mm := Z_to_string major ++ "." ++ Z_to_string minor in
  let ralj := "../court_rules/pdf/RALJ/" ++ file_name "CLJ_RALJ_" major minor sub in
  let rpc := "/court_rules/pdf/RPC/" ++ file_name "GA_RPC_" major minor sub in
  let irlj := "../court_rules/pdf/IRLJ/" ++ file_name "CLJ_IRLJ_" major minor sub in
  file_triple "CLJ_RALJ_" ralj = Some (major, minor, sub)
  /\ file_triple "GA_RPC_" rpc = Some (major, minor, sub)
  /\ ralj_href_ruleNumber ralj
     = Some (if (sub =? 0)%Z then mm else mm ++ "." ++ Z_to_string sub)
  /\ rpc_href_ruleNumber rpc
     = Some (if (sub =? 0)%Z then mm else mm ++ fromCharCode (96 + sub))
  /\ v2_href_ruleNumber irlj = Some mm.
Proof.
  intros H1 H2 H3 mm ralj rpc irlj.
  destruct (@published_rule_numbers major minor sub H1 H2 H3) as [Pralj [Prpc Pv2]].
  assert (Fralj : first_match (file_fields_at "CLJ_RALJ_") ralj
                  = Some (pad2 major, pad2 minor, pad2 sub)).
  { unfold ralj.
    pose proof (fields_of_file_name "CLJ_RALJ_" major minor sub H1 H2 H3) as Hf.
    revert Hf. generalize (file_name "CLJ_RALJ_" major minor sub). intros name Hf.
    simpl. now apply first_match_here. }
  assert (Frpc : first_match (file_fields_at "GA_RPC_") rpc
                 = Some (pad2 major, pad2 minor, pad2 sub)).
  { unfold rpc.
    pose proof (fields_of_file_name "GA_RPC_" major minor sub H1 H2 H3) as Hf.
    revert Hf. generalize (file_name "GA_RPC_" major minor sub). intros name Hf.
    simpl. now apply first_match_here. }
  assert (Fv2 : first_match v2_fields_at irlj = Some (pad2 major, pad2 minor)).
  { unfold irlj.
    assert (Hf : v2_fields_at (file_name "CLJ_IRLJ_" major minor sub)
                 = Some (pad2 major, pad2 minor)).
    { unfold file_name.
      exact (v2_fields_of_tail major minor sub H1 H2 H3). }
    revert Hf. generalize (file_name "CLJ_IRLJ_" major minor sub). intros name Hf.
    simpl. now apply first_match_here. }
  unfold file_triple, ralj_href_ruleNumber, rpc_href_ruleNumber, v2_href_ruleNumber.
  rewrite Fralj, Frpc, Fv2. cbn [fst snd].
  rewrite !parseInt_pad2 by assumption.
  rewrite Pralj, Prpc, Pv2. repeat split; reflexivity.
Qed.

Lemma X27_published_links_give_their_numbers_witness :
  (0 <= 1 < 100)%Z /\ (0 <= 7 < 100)%Z /\ (0 <= 0 < 100)%Z
  /\ ralj_href_ruleNumber "../court_rules/pdf/RALJ/CLJ_RALJ_01_07_00.pdf" = Some "1.7".
Proof.
  split; [lia |]. split; [lia |]. split; [lia |].
  exact (proj1 (proj2 (proj2
           (X27_published_links_give_their_numbers 1 7 0
              ltac:(lia) ltac:(lia) ltac:(lia))))).
Defined.

End HrefFacts.

(** ** What the body extractors keep *)
Module BodyFacts.

Import Lang Scraper ExtractFacts.
Open Scope string_scope.

Lemma search_from_within (at_head : string -> bool) (s : string) (i : Z) :
  search_from at_head s i <> (-1)%Z ->
  (search_from at_head s i - i <= Z.of_nat (String.length s))%Z.
Proof.
  revert i. induction s as [| c s IH]; intros i; simpl.
  - destruct (at_head EmptyString); [lia | congruence].
  - destruct (at_head (String c s)); [lia |].
    intros H. specialize (IH (i + 1)%Z H). lia.
Qed.

Lemma drop_split (k : nat) (s : string) :
  (k <= String.length s)%nat ->
  exists pre, s = pre ++ drop k s /\ String.length pre = k.
Proof.
  revert s. induction k as [| k IH]; intros s Hk.
  - exists EmptyString. split; reflexivity.
  - destruct s as [| c s]; simpl in Hk; [lia |].
    destruct (IH s) as [pre [Hs Hlen]]; [lia |].
    exists (String c pre). simpl. split; [now rewrite <- Hs | now rewrite Hlen].
Qed.

Lemma search_at_head (at_head : string -> bool) (s : string) :
  at_head s = true -> search at_head s = 0%Z.
Proof.
  intros H. unfold search. destruct s; simpl; now rewrite H.
Qed.

(** A cut at a match past the first character: what is dropped is a
    prefix as long as the offset, what is kept starts with a match. *)
Lemma cut_at_match (at_head : string -> bool) (s : string) :
  (0 < search at_head s)%Z ->
  at_head (substring_from (search at_head s) s) = true
  /\ exists pre, s = pre ++ substring_from (search at_head s) s
                 /\ Z.of_nat (String.length pre) = search at_head s.
Proof.
  intros Hp. unfold search in *.
  assert (Hne : search_from at_head s 0 <> (-1)%Z) by lia.
  destruct (@search_from_found at_head s 0%Z (Z.le_refl 0) Hne) as [_ Hhead].
  pose proof (search_from_within at_head s 0 Hne) as Hin.
  rewrite Z.sub_0_r in Hhead, Hin. unfold substring_from.
  split; [exact Hhead |].
  destruct (drop_split (Z.to_nat (search_from at_head s 0)) s) as [pre [Hs Hlen]];
    [lia |].
  exists pre. split; [exact Hs |]. rewrite Hlen. lia.
Qed.

Lemma body_start_kept (at_head : string -> bool) (cut : Z -> bool) (s : string) :
  (forall q, cut q = true -> (0 < q)%Z) ->
  let f x := if cut (search at_head x)
             then substring_from (search at_head x) x else x in
  (exists pre, s = pre ++ f s
               /\ (cut (search at_head s) = true ->
                   Z.of_nat (String.length pre) = search at_head s)
               /\ (cut (search at_head s) = false -> pre = EmptyString))
  /\ f (f s) = f s.
Proof.
  intros Hcut f. unfold f at 1 3 4.
  destruct (cut (search at_head s)) eqn:Hc.
  - destruct (cut_at_match at_head s (Hcut _ Hc)) as [Hhead [pre [Hs Hlen]]].
    split.
    + exists pre. split; [exact Hs |]. split; [auto | discriminate].
    + unfold f. rewrite (search_at_head at_head _ Hhead).
      destruct (cut 0%Z) eqn:H0; [| reflexivity].
      apply Hcut in H0. lia.
  - split.
    + exists EmptyString. split; [reflexivity |]. split; [discriminate | auto].
    + unfold f. now rewrite Hc.
Qed.

(** X28. What the body extractors keep is a suffix of the text they are
    given, and extracting again changes nothing.  The RALJ and RPC
    extractors drop fewer than 100 characters in front; the IRLJ/CRLJ
    extractor has no such bound. *)
Theorem X28_body_start_keeps_a_suffix (ruleSet ruleNumber fullText : string) :
  let keeps (f : string -> string) (bound : option Z) :=
    (exists pre, fullText = pre ++ f fullText
                 /\ match bound with
                    | Some b => (Z.of_nat (String.length pre) < b)%Z
                    | None => True
                    end)
    /\ f (f fullText) = f fullText in
  keeps (ralj_body_start ruleNumber) (Some 100%Z)
  /\ keeps (rpc_body_start ruleNumber) (Some 100%Z)
  /\ keeps (v2_body_start ruleSet ruleNumber) None.
Proof.
  intros keeps. unfold keeps.
  assert (Hnear : forall q, (q >? 0)%Z && (q <? 100)%Z = true -> (0 < q < 100)%Z).
  { intros q Hq. apply andb_true_iff in Hq. destruct Hq as [H1 H2].
    apply Z.gtb_lt in H1. apply Z.ltb_lt in H2. lia. }
  assert (Hbounded : forall at_head,
            let f x := if (search at_head x >? 0)%Z && (search at_head x <? 100)%Z
                       then substring_from (search at_head x) x else x in
            (exists pre, fullText = pre ++ f fullText
                         /\ (Z.of_nat (String.length pre) < 100)%Z)
            /\ f (f fullText) = f fullText).
  { intros at_head.
    destruct (body_start_kept at_head (fun q => (q >? 0)%Z && (q <? 100)%Z) fullText)
      as [[pre [Hs [Hcut Hkeep]]] Hidem].
    - intros q Hq. apply Hnear in Hq. lia.
    - split; [| exact Hidem].
      exists pre. split; [exact Hs |].
      destruct ((search at_head fullText >? 0)%Z && (search at_head fullText <? 100)%Z)
        eqn:Hc.
      + rewrite (Hcut eq_refl). apply Hnear in Hc. lia.
      + rewrite (Hkeep eq_refl). simpl. lia. }
  split; [| split].
  - exact (Hbounded (heading_at "RALJ" (escape_all ruleNumber))).
  - exact (Hbounded (heading_at "RPC" (escape_first (list_ascii_of_string ruleNumber)))).
  - destruct (body_start_kept (heading_at ruleSet (escape_none ruleNumber))
                (fun q => (q >? 0)%Z) fullText)
      as [[pre [Hs _]] Hidem].
    + intros q Hq. now apply Z.gtb_lt in Hq.
    + split; [| exact Hidem]. exists pre. split; [exact Hs | exact I].
Qed.

End BodyFacts.

(** ** Lookups return what was asked for *)
Module LookupSoundFacts.

Import Sqlite Schema LawDatabase Lang LookupFacts.
Open Scope string_scope.

(** X29. A lookup never answers with another document: a statute or
    regulation returned carries the citation asked for, a rule returned
    carries the rule set asked for and the number asked for or, for a
    number without a dot, that number with ".0"; each is read from a row
    of the table; and on an empty table every lookup finds nothing. *)
Theorem X29_lookups_answer_what_was_asked
    (rcw_rows : table (S := rcw)) (wac_rows : table (S := wac))
    (rules : table (S := court_rules)) (citation rs rn : string) :
  (forall r, getRCW rcw_rows citation = Some r ->
     rcw_citation r = citation
     /\ exists row : rcw_row, In row (rows rcw_rows)
          /\ Rcw.citation (fields row) = citation
          /\ Rcw.full_text (fields row) = rcw_fullText r)
  /\ (forall w, getWAC wac_rows citation = Some w ->
        wac_citation w = citation
        /\ exists row : wac_row, In row (rows wac_rows)
             /\ Wac.citation (fields row) = citation
             /\ Wac.full_text (fields row) = wac_fullText w)
  /\ (forall r, getCourtRule rules rs rn = Some r ->
        ruleSet r = rs
        /\ (ruleNumber r = rn
            \/ (ruleNumber r = rn ++ ".0" /\ includes "." rn = false))
        /\ exists row : court_rules_row, In row (rows rules)
             /\ CourtRules.rule_set (fields row) = rs
             /\ CourtRules.rule_number (fields row) = ruleNumber r
             /\ CourtRules.full_text (fields row) = fullText r)
  /\ getRCW empty_table citation = None
  /\ getWAC empty_table citation = None
  /\ getCourtRule_probes empty_table rs rn
     = (if includes "." rn then [rn] else [rn; rn ++ ".0"], None).
Proof.
  split; [| split; [| split; [| split; [| split]]]].
  - intros r Hr. unfold getRCW in Hr.
    match type of Hr with
    | option_map _ ?found = _ => destruct found as [row |] eqn:Hf; [| discriminate]
    end.
    apply find_some in Hf. destruct Hf as [Hin Heq].
    apply String.eqb_eq in Heq. injection Hr as <-. simpl.
    split; [exact Heq |]. exists row. repeat split; assumption.
  - intros w Hw. unfold getWAC in Hw.
    match type of Hw with
    | option_map _ ?found = _ => destruct found as [row |] eqn:Hf; [| discriminate]
    end.
    apply find_some in Hf. destruct Hf as [Hin Heq].
    apply String.eqb_eq in Heq. injection Hw as <-. simpl.
    split; [exact Heq |]. exists row. repeat split; assumption.
  - intros r Hr. rewrite getCourtRule_unfold in Hr.
    destruct (court_rule_get rules rs rn) as [r0 |] eqn:H0.
    + injection Hr as ->.
      destruct (@court_rule_get_sound rules rs rn r H0)
        as [Hs [Hn [row [Hin [H1 [H2 H3]]]]]].
      split; [exact Hs |]. split; [now left |].
      exists row. rewrite Hn. repeat split; assumption.
    + destruct (includes "." rn) eqn:Hdot; [discriminate |].
      destruct (@court_rule_get_sound rules rs (rn ++ ".0") r Hr)
        as [Hs [Hn [row [Hin [H1 [H2 H3]]]]]].
      split; [exact Hs |]. split; [right; now split |].
      exists row. rewrite Hn. repeat split; assumption.
  - reflexivity.
  - reflexivity.
  - unfold getCourtRule_probes. simpl. now destruct (includes "." rn).
Qed.

End LookupSoundFacts.
